(** * SnapMerch: style prioritisation, batched generation and session store

    A shallow embedding of the core of the SnapMerch web application:

    - [types.ts]: the style catalog and the session records;
    - [services/stylePriority.ts]: the vehicle classifier and the style
      ranker;
    - [services/api.ts]: the batched orchestration [generateAllStyles];
    - [services/storage.ts]: the local session store and the remote
      hydration.

    JavaScript strings are modelled as [string] (sequences of bytes);
    [toLowerCase] and [trim] are modelled on their ASCII behaviour, and
    lengths are those of ASCII text (data URLs, ids, dates). *)

From Stdlib Require Import ZArith Ascii String.
From stdpp Require Import gmap strings list.

Local Open Scope string_scope.
Local Open Scope Z_scope.

(** ** JavaScript string primitives *)

Module Js.

(** [String.prototype.toLowerCase], on ASCII letters. *)
Definition lower_char (a : ascii) : ascii :=
  let n := nat_of_ascii a in
  if ((65 <=? n) && (n <=? 90))%nat then ascii_of_nat (n + 32) else a.

Fixpoint toLowerCase (s : string) : string :=
  match s with
  | EmptyString => EmptyString
  | String a r => String (lower_char a) (toLowerCase r)
  end.

(** White space as [trim] and [parseInt] see it: TAB, LF, VT, FF, CR, SP. *)
Definition is_ws (a : ascii) : bool :=
  let n := nat_of_ascii a in
  (((9 <=? n) && (n <=? 13)) || (n =? 32))%nat.

Fixpoint trimStart (s : string) : string :=
  match s with
  | EmptyString => EmptyString
  | String a r => if is_ws a then trimStart r else s
  end.

Fixpoint trimEnd (s : string) : string :=
  match s with
  | EmptyString => EmptyString
  | String a r =>
      match trimEnd r with
      | EmptyString => if is_ws a then EmptyString else String a EmptyString
      | r' => String a r'
      end
  end.

(** [String.prototype.trim]. *)
Definition trim (s : string) : string := trimEnd (trimStart s).

(** [String.prototype.startsWith]. *)
Fixpoint startsWith (s p : string) : bool :=
  match p, s with
  | EmptyString, _ => true
  | String _ _, EmptyString => false
  | String b p', String a s' => Ascii.eqb a b && startsWith s' p'
  end.

(** [String.prototype.includes]: [p] occurs somewhere in [s]. *)
Fixpoint includes (s p : string) : bool :=
  startsWith s p ||
  match s with
  | EmptyString => false
  | String _ s' => includes s' p
  end.

(** [a || b] on strings: the empty string is the only falsy string. *)
Definition or_str (a b : string) : string :=
  match a with
  | EmptyString => b
  | _ => a
  end.

(** [Array.prototype.includes] on an array of strings. *)
Definition arr_includes (l : list string) (x : string) : bool :=
  existsb (String.eqb x) l.

Definition digit_val (a : ascii) : option Z :=
  let n := nat_of_ascii a in
  if ((48 <=? n) && (n <=? 57))%nat then Some (Z.of_nat (n - 48)) else None.

(** The longest prefix of decimal digits, read left to right; [acc] is
    [None] until a first digit was seen. *)
Fixpoint read_digits (s : string) (acc : option Z) : option Z :=
  match s with
  | EmptyString => acc
  | String a r =>
      match digit_val a with
      | Some d => read_digits r (Some (10 * default 0 acc + d))
      | None => acc
      end
  end.

(** [parseInt(s, 10)]: leading white space is skipped, one sign is
    accepted, then the longest run of digits is read; [None] is [NaN].
    The result is kept as an exact integer: the classifier only compares
    it with small constants, which rounding to a double preserves. *)
Definition parseInt10 (s : string) : option Z :=
  match trimStart s with
  | String "-" r => Z.opp <$> read_digits r None
  | String "+" r => read_digits r None
  | r => read_digits r None
  end.

(** [n || 0] on numbers: [NaN] and [0] are falsy. *)
Definition or_zero (n : option Z) : Z := default 0 n.

End Js.

(** ** types.ts *)

Record Color := { c_name : string; c_hex : string }.

Record CarIdentity := {
  year : string;
  make : string;
  model : string;
  trim : string;
  color : Color;
}.

(** [SnapMerchStyle] is a union of string literals, used as map key. *)
Abbreviation SnapMerchStyle := string (only parsing).

Record StyleConfig := {
  id : SnapMerchStyle;
  label : string;
  emoji : string;
  artStyle : string;
  sc_color : option string;
  backgroundColor : option string;
}.

#[global] Instance Color_eq_dec : EqDecision Color.
Proof. solve_decision. Defined.
#[global] Instance StyleConfig_eq_dec : EqDecision StyleConfig.
Proof. solve_decision. Defined.

Definition mkStyle (i l e a bg : string) : StyleConfig :=
  {| id := i; label := l; emoji := e; artStyle := a;
     sc_color := None; backgroundColor := Some bg |}.

Definition STYLE_CONFIGS : list StyleConfig := [
  mkStyle "vector" "Vector" "🎯" "Vector (Monochromatic)" "#FFFFFF";
  mkStyle "retro" "Retro Poster" "🎨" "Vintage Poster" "#FFFFFF";
  mkStyle "calligram" "Typography" "✍️" "Distressed" "#FFFFFF";
  mkStyle "neon" "Neon Glow" "💡" "Neon Sign" "#000000";
  mkStyle "watercolor" "Watercolor" "🎨" "Watercolor" "#FFFFFF";
  mkStyle "comic" "Comic Book" "💥" "Comic Book" "#FFFFFF";
  mkStyle "blueprint" "Blueprint" "📐" "Blueprint Style" "#003366";
  mkStyle "pop-art" "Pop Art" "🎭" "Pop Art" "#FFFFFF";
  mkStyle "pencil" "Pencil Sketch" "✏️" "Pencil Sketch" "#FFFFFF";
  mkStyle "neon-80s" "80s Synthwave" "🌆" "Synthwave 80s" "#1a0033";
  mkStyle "lowrider" "Lowrider Art" "🔊" "Lowrider Airbrush" "#FFFFFF";
  mkStyle "japanese" "JDM Style" "🗾" "JDM Japanese" "#000000"
].

(** ** services/stylePriority.ts *)

Definition JDM_MAKES : list string :=
  ["honda"; "toyota"; "nissan"; "subaru"; "mazda"; "mitsubishi"; "lexus";
   "acura"; "infiniti"; "datsun"].

Definition LOWRIDER_MODELS : list string :=
  ["impala"; "monte carlo"; "regal"; "cutlass"; "el camino"; "caprice";
   "fleetwood"; "lacrosse"; "riviera"; "skylark"; "lesabre"; "deville";
   "town car"; "crown victoria"; "grand prix"].

(** The array literal of the lowrider test. *)
Definition LOWRIDER_MAKES : list string :=
  ["chevrolet"; "chevy"; "buick"; "oldsmobile"; "cadillac"; "lincoln";
   "pontiac"; "ford"].

Definition TRUCK_KEYWORDS : list string :=
  ["truck"; "pickup"; "f-150"; "f-250"; "f-350"; "silverado"; "sierra";
   "ram"; "tundra"; "titan"; "tacoma"; "frontier"; "ranger"; "colorado";
   "canyon"; "ridgeline"; "gladiator"; "maverick"; "raptor"].

Definition SPORTS_EXOTIC_MAKES : list string :=
  ["ferrari"; "lamborghini"; "porsche"; "mclaren"; "bugatti"; "koenigsegg";
   "pagani"; "aston martin"; "lotus"; "maserati"].

Definition SPORTS_MODELS : list string :=
  ["corvette"; "camaro"; "mustang"; "supra"; "gtr"; "gt-r"; "nsx"; "rx-7";
   "rx7"; "brz"; "gr86"; "86"; "miata"; "mx-5"; "wrx"; "sti"; "evo";
   "lancer evolution"; "challenger"; "charger"; "viper"; "z06"; "zr1";
   "shelby"; "gt350"; "gt500"; "amg"; "m3"; "m4"; "m5"; "rs3"; "rs5"; "rs6";
   "rs7"; "911"; "cayman"; "boxster"; "panamera"; "type r"; "civic si";
   "s2000"].

Inductive VehicleCategory :=
  | Pre1980Classic   (* 'pre1980-classic' *)
  | Era80s90s        (* '80s-90s' *)
  | Truck            (* 'truck' *)
  | Jdm              (* 'jdm' *)
  | Lowrider         (* 'lowrider' *)
  | ModernSports     (* 'modern-sports' *)
  | DefaultCategory. (* 'default' *)

#[global] Instance VehicleCategory_eq_dec : EqDecision VehicleCategory.
Proof. solve_decision. Defined.

Definition all_categories : list VehicleCategory :=
  [Pre1980Classic; Era80s90s; Truck; Jdm; Lowrider; ModernSports;
   DefaultCategory].

Definition categorizeVehicle (identity : CarIdentity) : VehicleCategory :=
  let year := Js.or_zero (Js.parseInt10 (year identity)) in
  let make := Js.trim (Js.toLowerCase (Js.or_str (make identity) "")) in
  let model := Js.trim (Js.toLowerCase (Js.or_str (model identity) "")) in
  let fullName := (make ++ " " ++ model)%string in
  (* Check lowrider first *)
  if (1958 <=? year) && (year <=? 1985)
     && existsb (fun m => Js.includes model m) LOWRIDER_MODELS
     && Js.arr_includes LOWRIDER_MAKES make
  then Lowrider
  (* JDM *)
  else if Js.arr_includes JDM_MAKES make then Jdm
  (* Trucks *)
  else if existsb (fun k => Js.includes fullName k) TRUCK_KEYWORDS then Truck
  (* Modern sports/exotic (2010+) *)
  else if (2010 <=? year)
          && (existsb (fun m => Js.includes make m) SPORTS_EXOTIC_MAKES
              || existsb (fun m => Js.includes model m) SPORTS_MODELS)
  then ModernSports
  (* Pre-1980 classics/muscle cars *)
  else if (0 <? year) && (year <? 1980) then Pre1980Classic
  (* 80s-90s cars *)
  else if (1980 <=? year) && (year <=? 1999) then Era80s90s
  else DefaultCategory.

Definition PRIORITY_MAP (category : VehicleCategory) : list SnapMerchStyle :=
  match category with
  | Pre1980Classic =>
      ["retro"; "pencil"; "watercolor"; "vector"; "pop-art"; "blueprint";
       "calligram"; "neon"; "comic"; "lowrider"; "neon-80s"; "japanese"]
  | Era80s90s =>
      ["neon-80s"; "retro"; "neon"; "comic"; "vector"; "pop-art";
       "calligram"; "watercolor"; "pencil"; "blueprint"; "lowrider";
       "japanese"]
  | Truck =>
      ["vector"; "blueprint"; "retro"; "watercolor"; "pencil"; "calligram";
       "neon"; "comic"; "pop-art"; "neon-80s"; "lowrider"; "japanese"]
  | Jdm =>
      ["japanese"; "neon"; "comic"; "neon-80s"; "vector"; "pop-art"; "retro";
       "calligram"; "watercolor"; "pencil"; "blueprint"; "lowrider"]
  | Lowrider =>
      ["lowrider"; "pop-art"; "retro"; "neon"; "calligram"; "watercolor";
       "vector"; "pencil"; "comic"; "blueprint"; "neon-80s"; "japanese"]
  | ModernSports =>
      ["neon"; "vector"; "comic"; "neon-80s"; "pop-art"; "calligram";
       "retro"; "blueprint"; "watercolor"; "pencil"; "lowrider"; "japanese"]
  | DefaultCategory =>
      ["vector"; "retro"; "neon"; "comic"; "calligram"; "watercolor";
       "pop-art"; "pencil"; "blueprint"; "neon-80s"; "lowrider"; "japanese"]
  end.

(** [new Map(entries)]: a later entry with the same key replaces an
    earlier one. *)
Definition new_Map {V} (entries : list (string * V)) : gmap string V :=
  foldl (fun m kv => <[kv.1 := kv.2]> m) ∅ entries.

(** Returns all style configs sorted by likely appeal for the given
    vehicle. *)
Definition getPrioritizedStyles (identity : CarIdentity) : list StyleConfig :=
  let category := categorizeVehicle identity in
  let order := PRIORITY_MAP category in
  (* Map ordered style IDs to their configs *)
  let configMap := new_Map (map (fun c => (id c, c)) STYLE_CONFIGS) in
  let ordered :=
    foldl (fun ordered i =>
             match configMap !! i with
             | Some cfg => (ordered ++ [cfg])%list
             | None => ordered
             end) [] order in
  (* Append any remaining configs not in the priority list (safety net) *)
  foldl (fun ordered cfg =>
           if existsb (fun o => String.eqb (id o) (id cfg)) ordered
           then ordered
           else (ordered ++ [cfg])%list) ordered STYLE_CONFIGS.

(** ** types.ts, continued: sessions *)

Inductive Status := Idle | Generating | Done | Error.

Record GeneratedStyle := {
  styleId : SnapMerchStyle;
  imageUrl : option string;          (* string | null *)
  status : Status;
  error : option string;
}.

Record MockupResult := {
  productId : string;
  m_styleId : SnapMerchStyle;
  m_imageUrl : option string;        (* string | null *)
  m_status : Status;
}.

Record OrderItem := {
  oi_productId : string;
  oi_styleId : SnapMerchStyle;
  oi_size : option string;
  oi_color : option string;
  oi_price : Z * Z;                  (* a decimal price: units and cents *)
}.

Record ShippingAddress := {
  firstName : string; lastName : string;
  address1 : string; address2 : string;
  city : string; state : string; zip : string; country : string;
}.

Inductive OrderStatus := Pending | Confirmed | Fulfilled.

Record Order := {
  o_id : string;
  carSessionId : string;
  items : list OrderItem;
  customerEmail : string;
  customerName : option string;
  customerPhone : option string;
  shippingAddress : option ShippingAddress;
  paymentId : option string;
  o_status : OrderStatus;
  o_createdAt : Z;
}.

Record CarSession := {
  car_id : string;
  photoBase64 : string;
  photoThumbnail : option string;    (* photoThumbnail?: string *)
  car_identity : option CarIdentity; (* CarIdentity | null *)
  styles : list GeneratedStyle;
  mockups : list MockupResult;
  orders : list Order;
  car_createdAt : Z;
  shareUrl : option string;
}.

Record EventSession := {
  ev_id : string;
  ev_name : string;
  date : string;
  cars : list CarSession;
  ev_createdAt : Z;
}.

(** [Partial<CarSession>]: every key may be absent ([None]). *)
Record CarSessionUpdate := {
  u_id : option string;
  u_photoBase64 : option string;
  u_photoThumbnail : option (option string);
  u_identity : option (option CarIdentity);
  u_styles : option (list GeneratedStyle);
  u_mockups : option (list MockupResult);
  u_orders : option (list Order);
  u_createdAt : option Z;
  u_shareUrl : option (option string);
}.

(** The object spread [{ ...car, ...update }]. *)
Definition spread (car : CarSession) (update : CarSessionUpdate) : CarSession :=
  {| car_id := default (car_id car) (u_id update);
     photoBase64 := default (photoBase64 car) (u_photoBase64 update);
     photoThumbnail := default (photoThumbnail car) (u_photoThumbnail update);
     car_identity := default (car_identity car) (u_identity update);
     styles := default (styles car) (u_styles update);
     mockups := default (mockups car) (u_mockups update);
     orders := default (orders car) (u_orders update);
     car_createdAt := default (car_createdAt car) (u_createdAt update);
     shareUrl := default (shareUrl car) (u_shareUrl update) |}.

Definition with_cars (session : EventSession) (cs : list CarSession) : EventSession :=
  {| ev_id := ev_id session; ev_name := ev_name session; date := date session;
     cars := cs; ev_createdAt := ev_createdAt session |}.

(** ** The browser and the remote store, as services/storage.ts sees them *)

(** A text held by [localStorage]. [Json s] is [JSON.stringify(s)], which
    [JSON.parse] reads back as [s]; [Malformed raw] is a text that
    [JSON.parse] rejects with a [SyntaxError]. *)
Inductive Stored :=
  | Json (s : EventSession)
  | Malformed (raw : string).

Inductive Exn := QuotaExceededError | SyntaxError | OtherError (message : string).

Inductive Completion (A : Type) :=
  | Normal (a : A)
  | Throws (e : Exn).
Arguments Normal {A} a.
Arguments Throws {A} e.

(** Calls made on [localStorage]; [OpSet] records whether the write was
    accepted. *)
Inductive StorageOp :=
  | OpGet (key : string)
  | OpSet (key : string) (value : Stored) (accepted : bool)
  | OpRemove (key : string).

(** Rows of the remote tables (supabase/migration.sql); [created_at] is
    the number [new Date(row.created_at).getTime()] reads. *)
Record EventRow := {
  er_id : string; er_name : string; er_date : string; er_created_at : Z;
}.
Record CarRow := {
  cr_id : string;
  cr_photo_thumbnail : option string;
  cr_identity : option CarIdentity;
  cr_share_url : option string;
  cr_created_at : Z;
}.
Record StyleRow := {
  sr_car_id : string;
  sr_style_id : SnapMerchStyle;
  sr_image_url : option string;
  sr_status : option Status;
  sr_error : option string;
}.
Record OrderRow := {
  or_id : string;
  or_car_id : string;
  or_items : option (list OrderItem);
  or_customer_email : string;
  or_customer_name : option string;
  or_customer_phone : option string;
  or_shipping_address : option ShippingAddress;
  or_payment_id : option string;
  or_status : OrderStatus;
  or_created_at : Z;
}.

(** What an awaited query gives: the [{ data, error }] object, or a
    rejection. *)
Inductive Response (A : Type) :=
  | Reply (data : option A) (err : option string)
  | Rejection (message : string).
Arguments Reply {A} data err.
Arguments Rejection {A} message.

(** The client returned by [getSupabase()] (lib/supabase is not part of
    the sources at hand: the client is taken as the answers it gives to
    the four reads of [loadEventFromSupabase]). *)
Record Supabase := {
  select_events : string -> string -> Response (list EventRow);
  select_cars : string -> Response (list CarRow);
  select_styles : list string -> Response (list StyleRow);
  select_orders : list string -> Response (list OrderRow);
}.

(** The environment of the synchronous code of the store. [accepts] is
    any test of the device: a write is refused when the quota is
    exceeded. *)
Record World := {
  store : gmap string Stored;        (* localStorage *)
  accepts : gmap string Stored -> string -> Stored -> bool;
                                     (* does setItem fit in the quota *)
  userId : option string;            (* _userId *)
  supabase : option Supabase;        (* getSupabase() *)
  today : string;                    (* new Date().toISOString().split('T')[0] *)
  clock : Z;                         (* Date.now() *)
  entropy : string;                  (* Math.random().toString(36).substr(2, 6) *)
  base36 : Z -> string;              (* Number.prototype.toString(36) *)
  oplog : list StorageOp;            (* localStorage calls so far, oldest first *)
  syncs : list EventSession;         (* background syncs launched, oldest first *)
}.

Definition upd_store (f : gmap string Stored -> gmap string Stored)
    (op : StorageOp) (w : World) : World :=
  {| store := f (store w); accepts := accepts w; userId := userId w;
     supabase := supabase w; today := today w; clock := clock w;
     entropy := entropy w; base36 := base36 w;
     oplog := (oplog w ++ [op])%list; syncs := syncs w |}.

Definition add_sync (session : EventSession) (w : World) : World :=
  {| store := store w; accepts := accepts w; userId := userId w;
     supabase := supabase w; today := today w; clock := clock w;
     entropy := entropy w; base36 := base36 w;
     oplog := oplog w; syncs := (syncs w ++ [session])%list |}.

(** Synchronous code over the world: it completes normally or throws. *)
Definition Eff (A : Type) : Type := World -> Completion A * World.

Definition ret {A} (a : A) : Eff A := fun w => (Normal a, w).

Definition bind {A B} (m : Eff A) (k : A -> Eff B) : Eff B :=
  fun w =>
    match m w with
    | (Normal a, w') => k a w'
    | (Throws e, w') => (Throws e, w')
    end.

Definition throw {A} (e : Exn) : Eff A := fun w => (Throws e, w).

(** [try { body } catch (e) { handler }]. *)
Definition try_catch {A} (body : Eff A) (handler : Exn -> Eff A) : Eff A :=
  fun w =>
    match body w with
    | (Normal a, w') => (Normal a, w')
    | (Throws e, w') => handler e w'
    end.

Definition ask {A} (f : World -> A) : Eff A := fun w => (Normal (f w), w).

Notation "'let*' x ':=' m 'in' k" := (bind m (fun x => k))
  (at level 10, x name, m at level 200, k at level 200, only parsing).

Module localStorage.

Definition getItem (key : string) : Eff (option Stored) :=
  fun w => (Normal (store w !! key), upd_store (fun m => m) (OpGet key) w).

(** [setItem] throws when the value does not fit. *)
Definition setItem (key : string) (value : Stored) : Eff unit :=
  fun w =>
    if accepts w (store w) key value
    then (Normal tt, upd_store (insert key value) (OpSet key value true) w)
    else (Throws QuotaExceededError,
          upd_store (fun m => m) (OpSet key value false) w).

Definition removeItem (key : string) : Eff unit :=
  fun w => (Normal tt, upd_store (delete key) (OpRemove key) w).

End localStorage.

Module JSON.

Definition stringify (s : EventSession) : Stored := Json s.

Definition parse (text : Stored) : Eff EventSession :=
  match text with
  | Json s => ret s
  | Malformed _ => throw SyntaxError
  end.

End JSON.

(** Truthiness of what [getItem] returned: [null] and [''] are falsy. *)
Definition truthy (stored : option Stored) : bool :=
  match stored with
  | None => false
  | Some (Malformed "") => false
  | Some _ => true
  end.

(** ** services/storage.ts *)

Module KEYS.
Definition EVENT_SESSION : string := "snapmerch_event_session".
Definition ORDERS : string := "snapmerch_orders".
End KEYS.

(** Check if a string is a large data URL (base64 image). *)
Definition isLargeDataUrl (s : option string) : bool :=
  match s with
  | None | Some "" => false
  | Some s => Js.startsWith s "data:" && (500 <? Z.of_nat (String.length s))
  end.

(** [url || ''] on [string | null]. *)
Definition or_empty (s : option string) : string :=
  match s with
  | Some s => s
  | None => ""
  end.

Definition strip_style (s : GeneratedStyle) : GeneratedStyle :=
  {| styleId := styleId s;
     imageUrl := Some (if isLargeDataUrl (imageUrl s) then ""
                       else or_empty (imageUrl s));
     status := status s;
     error := error s |}.

Definition strip_mockup (m : MockupResult) : MockupResult :=
  {| productId := productId m;
     m_styleId := m_styleId m;
     m_imageUrl := Some (if isLargeDataUrl (m_imageUrl m) then ""
                         else or_empty (m_imageUrl m));
     m_status := m_status m |}.

(** [(t && t.length < 15000) ? t : ''] *)
Definition small_thumbnail (t : option string) : string :=
  match t with
  | Some t =>
      if negb (String.eqb t "") && (Z.of_nat (String.length t) <? 15000)
      then t else ""
  | None => ""
  end.

Definition strip_car (car : CarSession) : CarSession :=
  {| car_id := car_id car;
     photoBase64 := "";
     photoThumbnail := Some (small_thumbnail (photoThumbnail car));
     car_identity := car_identity car;
     styles := map strip_style (styles car);
     mockups := map strip_mockup (mockups car);
     orders := orders car;
     car_createdAt := car_createdAt car;
     shareUrl := shareUrl car |}.

(** [c.photoThumbnail = ''] *)
Definition blank_thumbnail (c : CarSession) : CarSession :=
  {| car_id := car_id c;
     photoBase64 := photoBase64 c;
     photoThumbnail := Some "";
     car_identity := car_identity c;
     styles := styles c;
     mockups := mockups c;
     orders := orders c;
     car_createdAt := car_createdAt c;
     shareUrl := shareUrl c |}.

(** [if (_userId)]: [null] and [''] are falsy. *)
Definition signed_in (w : World) : bool :=
  match userId w with
  | None | Some "" => false
  | Some _ => true
  end.

(** [syncEventToSupabase(session).catch(...)]: the sync is an async
    function whose rejection is caught; it is launched and not awaited. *)
Definition launch_sync (session : EventSession) : Eff unit :=
  fun w => (Normal tt, add_sync session w).

Definition saveEventSession (session : EventSession) : Eff unit :=
  (* Strip ALL large base64 data before saving to localStorage *)
  let stripped := with_cars session (map strip_car (cars session)) in
  let* _ := try_catch
    (localStorage.setItem KEYS.EVENT_SESSION (JSON.stringify stripped))
    (fun _ =>
       (* If still too large, progressively trim *)
       let stripped := with_cars stripped (take 3 (cars stripped)) in
       (* Also strip all thumbnails as last resort *)
       let stripped := with_cars stripped (map blank_thumbnail (cars stripped)) in
       try_catch
         (localStorage.setItem KEYS.EVENT_SESSION (JSON.stringify stripped))
         (fun _ =>
            (* Nuclear option: clear and start fresh *)
            localStorage.removeItem KEYS.EVENT_SESSION)) in
  (* Background sync to Supabase *)
  let* signedIn := ask signed_in in
  if signedIn then launch_sync session else ret tt.

(** [Date.now().toString(36) + Math.random().toString(36).substr(2, 6)] *)
Definition generateId : Eff string :=
  ask (fun w => (base36 w (clock w) ++ entropy w)%string).

Definition createNewEventSession : Eff EventSession :=
  let* i := generateId in
  let* d := ask today in
  let* t := ask clock in
  let session :=
    {| ev_id := i; ev_name := "Cars & Coffee"; date := d; cars := [];
       ev_createdAt := t |} in
  let* _ := saveEventSession session in
  ret session.

Definition getEventSession : Eff EventSession :=
  let* found := try_catch
    (let* stored := localStorage.getItem KEYS.EVENT_SESSION in
     match stored with
     | Some text =>
         if truthy stored then
           let* session := JSON.parse text in
           (* Reset if it's a different day *)
           let* today := ask today in
           if String.eqb (date session) today then ret (Some session)
           else ret None
         else ret None
     | None => ret None
     end)
    (fun _ =>
       (* Corrupted data: clear it *)
       let* _ := localStorage.removeItem KEYS.EVENT_SESSION in
       ret None) in
  match found with
  | Some session => ret session
  | None => createNewEventSession
  end.

(** [Array.prototype.findIndex]; [None] stands for [-1]. *)
Fixpoint findIndex {A} (p : A -> bool) (l : list A) : option nat :=
  match l with
  | [] => None
  | x :: r => if p x then Some O else S <$> findIndex p r
  end.

Definition addCarSession (car : CarSession) : Eff EventSession :=
  let* session := getEventSession in
  let session := with_cars session (car :: cars session) in (* newest first *)
  let* _ := saveEventSession session in
  ret session.

Definition updateCarSession (carId : string) (update : CarSessionUpdate)
  : Eff EventSession :=
  let* session := getEventSession in
  match findIndex (fun c => String.eqb (car_id c) carId) (cars session) with
  | Some idx =>
      (* session.cars[idx] = { ...session.cars[idx], ...update } *)
      let session :=
        match cars session !! idx with
        | Some car => with_cars session (<[idx := spread car update]> (cars session))
        | None => session
        end in
      let* _ := saveEventSession session in
      ret session
  | None => ret session
  end.

(** [session.cars.find(c => c.id === carId) || null] *)
Definition getCarSession (carId : string) : Eff (option CarSession) :=
  let* session := getEventSession in
  ret (List.find (fun c => String.eqb (car_id c) carId) (cars session)).

(** [await query]: the [{ data, error }] object, or a thrown rejection. *)
Definition await {A} (r : Response A) : Eff (option A * option string) :=
  match r with
  | Reply data err => ret (data, err)
  | Rejection message => throw (OtherError message)
  end.

(** The grouping loop
    [if (!map.has(k)) map.set(k, []); map.get(k).push(row)]. *)
Definition group_by_car {R} (car_of : R -> string) (rows : list R)
  : gmap string (list R) :=
  foldl (fun m row =>
           let m := match m !! car_of row with
                    | None => <[car_of row := []]> m
                    | Some _ => m
                    end in
           alter (fun l => (l ++ [row])%list) (car_of row) m) ∅ rows.

(** [x || undefined] on an optional string. *)
Definition or_undefined (s : option string) : option string :=
  match s with
  | Some "" => None
  | u => u
  end.

(** *** Orders

    The entry of [localStorage] under [KEYS.ORDERS] holds the
    serialisation of a list of orders; it is kept apart from the session
    entry. [orders_fit] is the device's test for a write of that entry. *)

Inductive StoredOrders :=
  | JsonOrders (orders : list Order)
  | MalformedOrders (raw : string).

Record OrderStore := {
  orders_entry : option StoredOrders;   (* localStorage[KEYS.ORDERS] *)
  orders_fit : StoredOrders -> bool;
  orders_user : option string;          (* _userId *)
  order_syncs : list Order;             (* order syncs launched, oldest first *)
}.

(** [stored ? JSON.parse(stored) : []], outside any [try]. *)
Definition getOrders (w : OrderStore) : Completion (list Order) :=
  match orders_entry w with
  | None | Some (MalformedOrders "") => Normal []
  | Some (JsonOrders orders) => Normal orders
  | Some (MalformedOrders _) => Throws SyntaxError
  end.

Definition saveOrder (order : Order) (w : OrderStore)
  : Completion unit * OrderStore :=
  match getOrders w with
  | Throws e => (Throws e, w)
  | Normal orders =>
      let orders := order :: orders in
      if orders_fit w (JsonOrders orders) then
        (Normal tt,
         {| orders_entry := Some (JsonOrders orders);
            orders_fit := orders_fit w;
            orders_user := orders_user w;
            (* Sync order to Supabase *)
            order_syncs :=
              match orders_user w with
              | None | Some "" => order_syncs w
              | Some _ => (order_syncs w ++ [order])%list
              end |})
      else (Throws QuotaExceededError, w)
  end.

(** *** The remote mirror

    The tables as the upserts of this file write them: [upsert(row,
    { onConflict: 'id' })] puts [row] under its id. A failing upsert
    answers with an error and leaves the table as it is; which upserts
    fail is given by [Faults]. The session is the one the sync was
    launched with. *)

Record EventUpsert := {
  eu_id : string; eu_user_id : string; eu_name : string; eu_date : string;
}.
Record CarUpsert := {
  cu_id : string;
  cu_event_id : string;
  cu_photo_thumbnail : option string;
  cu_identity : option CarIdentity;
  cu_share_url : option string;
}.
Record StyleUpsert := {
  su_id : string;
  su_car_id : string;
  su_style_id : SnapMerchStyle;
  su_image_url : option string;
  su_status : Status;
  su_error : option string;
}.

Record Tables := {
  snap_events : gmap string EventUpsert;
  snap_cars : gmap string CarUpsert;
  snap_styles : gmap string StyleUpsert;
}.

Record Faults := {
  event_fails : EventUpsert -> bool;
  car_fails : CarUpsert -> bool;
  style_fails : StyleUpsert -> bool;
}.

(** [(t && t.length < 15000) ? t : null] *)
Definition thumbnail_column (t : option string) : option string :=
  match t with
  | Some t =>
      if negb (String.eqb t "") && (Z.of_nat (String.length t) <? 15000)
      then Some t else None
  | None => None
  end.

(** [(url && !url.startsWith('data:')) ? url : null] *)
Definition image_url_column (u : option string) : option string :=
  match u with
  | Some u =>
      if negb (String.eqb u "") && negb (Js.startsWith u "data:")
      then Some u else None
  | None => None
  end.

Definition event_upsert (uid : string) (session : EventSession) : EventUpsert :=
  {| eu_id := ev_id session; eu_user_id := uid; eu_name := ev_name session;
     eu_date := date session |}.

Definition car_upsert (session : EventSession) (car : CarSession) : CarUpsert :=
  {| cu_id := car_id car;
     cu_event_id := ev_id session;
     cu_photo_thumbnail := thumbnail_column (photoThumbnail car);
     cu_identity := car_identity car;
     cu_share_url := or_undefined (shareUrl car) |}.

Definition style_upsert (car : CarSession) (style : GeneratedStyle) : StyleUpsert :=
  {| su_id := (car_id car ++ "_" ++ styleId style)%string; (* deterministic ID *)
     su_car_id := car_id car;
     su_style_id := styleId style;
     su_image_url := image_url_column (imageUrl style); (* Only store CDN URLs *)
     su_status := status style;
     su_error := or_undefined (error style) |}.

Definition is_idle (s : Status) : bool :=
  match s with
  | Idle => true
  | _ => false
  end.

(** The inner loop: upsert styles. *)
Definition sync_styles (faults : Faults) (car : CarSession) (tables : Tables)
  : Tables :=
  foldl (fun tables style =>
           if is_idle (status style) then tables (* Skip unstarted styles *)
           else
             let row := style_upsert car style in
             if style_fails faults row then tables
             else {| snap_events := snap_events tables;
                     snap_cars := snap_cars tables;
                     snap_styles := <[su_id row := row]> (snap_styles tables) |})
        tables (styles car).

(** The outer loop: upsert cars; a car whose upsert fails is passed over
    with its styles. *)
Definition sync_cars (faults : Faults) (session : EventSession) (tables : Tables)
  : Tables :=
  foldl (fun tables car =>
           let row := car_upsert session car in
           if car_fails faults row then tables (* continue *)
           else
             sync_styles faults car
               {| snap_events := snap_events tables;
                  snap_cars := <[cu_id row := row]> (snap_cars tables);
                  snap_styles := snap_styles tables |})
        tables (cars session).

Definition syncEventToSupabase (client : bool) (user : option string)
    (faults : Faults) (session : EventSession) (tables : Tables) : Tables :=
  match client, user with
  | true, Some (String a u as uid) =>
      (* Upsert event *)
      let row := event_upsert uid session in
      if event_fails faults row then tables
      else
        sync_cars faults session
          {| snap_events := <[eu_id row := row]> (snap_events tables);
             snap_cars := snap_cars tables;
             snap_styles := snap_styles tables |}
  | _, _ => tables   (* !supabase || !_userId *)
  end.

Definition style_of_row (s : StyleRow) : GeneratedStyle :=
  {| styleId := sr_style_id s;
     imageUrl := Some (or_empty (sr_image_url s));
     status := default Idle (sr_status s);
     error := or_undefined (sr_error s) |}.

Definition order_of_row (o : OrderRow) : Order :=
  {| o_id := or_id o;
     carSessionId := or_car_id o;
     items := default [] (or_items o);
     customerEmail := or_customer_email o;
     customerName := or_undefined (or_customer_name o);
     customerPhone := or_undefined (or_customer_phone o);
     shippingAddress := or_shipping_address o;
     paymentId := or_undefined (or_payment_id o);
     o_status := or_status o;
     o_createdAt := or_created_at o |}.

Definition car_of_row (stylesMap : gmap string (list StyleRow))
    (ordersMap : gmap string (list OrderRow)) (car : CarRow) : CarSession :=
  let dbStyles := default [] (stylesMap !! cr_id car) in
  let dbOrders := default [] (ordersMap !! cr_id car) in
  {| car_id := cr_id car;
     photoBase64 := "";
     photoThumbnail := Some (or_empty (cr_photo_thumbnail car));
     car_identity := cr_identity car;
     styles := map style_of_row dbStyles;
     mockups := [];
     orders := map order_of_row dbOrders;
     car_createdAt := cr_created_at car;
     shareUrl := or_undefined (cr_share_url car) |}.

(** Load event session from Supabase (if authenticated). Falls back to
    localStorage on error. The function is [async]: [Normal] is the value
    its promise resolves with, [Throws] a rejection. *)
Definition loadEventFromSupabase : Eff (option EventSession) :=
  let* sb := ask supabase in
  let* signedIn := ask signed_in in
  match sb, signedIn with
  | Some db, true =>
      try_catch
        (let* today := ask today in
         let* uid := ask (fun w => default "" (userId w)) in
         let* evs := await (select_events db uid today) in
         match evs with
         | (Some (ev :: _), None) =>
             (* Load cars *)
             let* crs := await (select_cars db (er_id ev)) in
             match crs with
             | (Some cars, None) =>
                 (* Load styles for all cars *)
                 let carIds := map cr_id cars in
                 let wanted := match carIds with
                               | [] => ["__none__"]
                               | _ => carIds
                               end in
                 let* sts := await (select_styles db wanted) in
                 let stylesMap := group_by_car sr_car_id (default [] (sts.1)) in
                 (* Load orders *)
                 let* ords := await (select_orders db wanted) in
                 let ordersMap := group_by_car or_car_id (default [] (ords.1)) in
                 (* Build EventSession *)
                 let session :=
                   {| ev_id := er_id ev; ev_name := er_name ev;
                      date := er_date ev;
                      cars := map (car_of_row stylesMap ordersMap) cars;
                      ev_createdAt := er_created_at ev |} in
                 (* Also update localStorage with the Supabase data *)
                 let* _ := try_catch
                   (localStorage.setItem KEYS.EVENT_SESSION (JSON.stringify session))
                   (fun _ => ret tt) in
                 ret (Some session)
             | _ => ret None     (* carsError || !cars *)
             end
         | _ => ret None         (* evError || !events || events.length === 0 *)
         end)
        (fun _ => ret None)
  | _, _ => ret None
  end.

(** ** services/api.ts: generateAllStyles

    [generateAllStyles] is an [async] function: between two [await]s
    other tasks run. It is modelled by the states it goes through and the
    steps the event loop can take: time passes, a stagger timer fires, a
    call of [generateArt] settles, [Promise.allSettled] resolves. A run is
    a list of such steps, so that every interleaving is covered.
    [generateArt] is opaque: a call that resolves with an image or rejects
    with an [Error]. The two callbacks are optional parameters; each is
    taken as what it does when it is called: it returns, or it throws. *)

Module Api.

Definition MAX_CONCURRENT : nat := 2.

(** How the promise returned by [generateArt] settles. *)
Inductive Settlement :=
  | Resolves (imageUrl : string)
  | Rejects (message : string).

(** What a callback throws, as the [catch] block sees it: [err.message]
    is the message of an [Error] and undefined for a value that has none;
    of [null] and [undefined] it cannot be read. *)
Inductive Thrown :=
  | Carrying (message : option string)
  | Nullish.

(** What a callback does when it is called. *)
Inductive Outcome :=
  | Returns
  | Raises (err : Thrown).

(** What an observer of one invocation sees. [n] is the position of the
    request in [styleConfigs]; times are in milliseconds. *)
Inductive Event :=
  | BatchStart (i : nat) (time : nat)
  | CallIssued (n : nat) (config : StyleConfig) (time : nat)
  | CallSettled (n : nat) (config : StyleConfig) (settlement : Settlement)
  | OnStyleComplete (n : nat) (styleId : SnapMerchStyle) (imageUrl : string)
  | OnStyleError (n : nat) (styleId : SnapMerchStyle) (message : option string).

(** One element of [batchPromises]: the async arrow function is waiting
    for its stagger timer, waiting for [generateArt], or has finished,
    its promise being fulfilled or rejected. *)
Inductive Task :=
  | Delayed (n : nat) (config : StyleConfig) (wake : nat)
  | Calling (n : nat) (config : StyleConfig)
  | Finished (n : nat) (config : StyleConfig) (fulfilled : bool).

Record State := {
  time_now : nat;
  i : nat;                               (* the loop variable *)
  batchPromises : list Task;
  results : gmap SnapMerchStyle string;
  history : list Event;                  (* newest first *)
  returned : bool;                       (* the function has returned results *)
}.

(** What the event loop does next. *)
Inductive Action :=
  | Tick (d : nat)          (* time passes *)
  | TimerFires (k : nat)    (* the stagger timer of batch member k fires *)
  | CallSettles (k : nat)   (* generateArt of batch member k settles *)
  | AllSettled.             (* Promise.allSettled(batchPromises) resolves *)

Definition is_finished (t : Task) : bool :=
  match t with
  | Finished _ _ _ => true
  | _ => false
  end.

Section Invocation.

Variable identity : CarIdentity.
Variable styleConfigs : list StyleConfig.
Variable referenceImage : option string.
(** The remote call, as its outcome for each request. *)
Variable generateArt : CarIdentity -> StyleConfig -> option string -> Settlement.
Variable onStyleComplete : option (SnapMerchStyle -> string -> Outcome).
Variable onStyleError : option (SnapMerchStyle -> option string -> Outcome).

(** The loop test and the synchronous part of one iteration: the batch
    is sliced, each async arrow function runs up to its first [await]. *)
Definition enter_loop (i0 : nat) (st : State) : State :=
  if (i0 <? length styleConfigs)%nat then
    let batch := take MAX_CONCURRENT (drop i0 styleConfigs) in
    let now := time_now st in
    {| time_now := now;
       i := i0;
       batchPromises :=
         imap (fun batchIndex config =>
                 if (0 <? batchIndex)%nat
                 then Delayed (i0 + batchIndex) config (now + 500)
                 else Calling (i0 + batchIndex) config) batch;
       results := results st;
       history :=
         (match batch with
          | config :: _ => [CallIssued i0 config now]
          | [] => []
          end ++ BatchStart i0 now :: history st)%list;
       returned := false |}
  else
    {| time_now := time_now st; i := i0; batchPromises := [];
       results := results st; history := history st; returned := true |}.

Definition start (t0 : nat) : State :=
  enter_loop 0
    {| time_now := t0; i := 0; batchPromises := []; results := ∅;
       history := []; returned := false |}.

(** The [try] block once [await generateArt(...)] is over: the new
    [results], the callback that was called (if any) and what was thrown
    (if anything). A rejected call throws at the [await]; a callback that
    throws does so after [results.set]. *)
Definition try_block (n : nat) (config : StyleConfig) (settlement : Settlement)
    (results : gmap SnapMerchStyle string)
  : gmap SnapMerchStyle string * list Event * option Thrown :=
  match settlement with
  | Rejects message => (results, [], Some (Carrying (Some message)))
  | Resolves imageUrl =>
      let results := <[id config := imageUrl]> results in
      match onStyleComplete with
      | Some callback =>
          (results, [OnStyleComplete n (id config) imageUrl],
           match callback (id config) imageUrl with
           | Returns => None
           | Raises err => Some err
           end)
      | None => (results, [], None)
      end
  end.

(** The [catch] block, [onStyleError?.(config.id, err.message)]: the
    callback that was called (if any), and whether the block completes.
    Without a callback the arguments are not evaluated. *)
Definition catch_block (n : nat) (config : StyleConfig) (err : Thrown)
  : list Event * bool :=
  match onStyleError with
  | Some callback =>
      match err with
      | Carrying message =>
          ([OnStyleError n (id config) message],
           match callback (id config) message with
           | Returns => true
           | Raises _ => false
           end)
      | Nullish => ([], false)
      end
  | None => ([], true)
  end.

(** The async arrow function from the moment its call settles to its
    end, which it reaches without another [await]: the new [results], the
    events (newest first), and whether its promise is fulfilled. *)
Definition resume (n : nat) (config : StyleConfig)
    (results : gmap SnapMerchStyle string)
  : gmap SnapMerchStyle string * list Event * bool :=
  let settlement := generateArt identity config referenceImage in
  match try_block n config settlement results with
  | (results, tried, None) =>
      (results, (tried ++ [CallSettled n config settlement])%list, true)
  | (results, tried, Some err) =>
      match catch_block n config err with
      | (caught, fulfilled) =>
          (results, (caught ++ tried ++ [CallSettled n config settlement])%list,
           fulfilled)
      end
  end.

Definition step (a : Action) (st : State) : option State :=
  if returned st then None else
  match a with
  | Tick d =>
      Some {| time_now := time_now st + d; i := i st;
              batchPromises := batchPromises st; results := results st;
              history := history st; returned := false |}
  | TimerFires k =>
      match batchPromises st !! k with
      | Some (Delayed n config wake) =>
          if (wake <=? time_now st)%nat then
            Some {| time_now := time_now st; i := i st;
                    batchPromises := <[k := Calling n config]> (batchPromises st);
                    results := results st;
                    history := CallIssued n config (time_now st) :: history st;
                    returned := false |}
          else None
      | _ => None
      end
  | CallSettles k =>
      match batchPromises st !! k with
      | Some (Calling n config) =>
          match resume n config (results st) with
          | (results', events, fulfilled) =>
              Some {| time_now := time_now st; i := i st;
                      batchPromises :=
                        <[k := Finished n config fulfilled]> (batchPromises st);
                      results := results';
                      history := (events ++ history st)%list;
                      returned := false |}
          end
      | _ => None
      end
  | AllSettled =>
      (* a rejected member is settled as well as a fulfilled one *)
      if forallb is_finished (batchPromises st)
      then Some (enter_loop (i st + MAX_CONCURRENT) st)
      else None
  end.

(** A schedule is run action by action; [None] when an action is not
    enabled. *)
Fixpoint run (schedule : list Action) (st : State) : option State :=
  match schedule with
  | [] => Some st
  | a :: rest =>
      match step a st with
      | Some st' => run rest st'
      | None => None
      end
  end.

Definition generateAllStyles (t0 : nat) (schedule : list Action) : option State :=
  run schedule (start t0).

(** *** Reading a history *)

(** The callback that reports how the call for request [n] settled. *)
Definition callback_of (n : nat) (config : StyleConfig) : Event :=
  match generateArt identity config referenceImage with
  | Resolves imageUrl => OnStyleComplete n (id config) imageUrl
  | Rejects message => OnStyleError n (id config) (Some message)
  end.

End Invocation.

Definition is_callback (e : Event) : bool :=
  match e with
  | OnStyleComplete _ _ _ | OnStyleError _ _ _ => true
  | _ => false
  end.

(** The callbacks that were called, newest first. *)
Definition callbacks (h : list Event) : list Event := List.filter is_callback h.

(** The calls of [generateArt], in the order they were issued. *)
Fixpoint calls (h : list Event) : list (nat * StyleConfig) :=
  match h with
  | [] => []
  | CallIssued n config _ :: older => calls older ++ [(n, config)]
  | _ :: older => calls older
  end.

(** The calls that settled and how, in the order they did. *)
Fixpoint settlements (h : list Event) : list (nat * StyleConfig * Settlement) :=
  match h with
  | [] => []
  | CallSettled n config settlement :: older =>
      settlements older ++ [(n, config, settlement)]
  | _ :: older => settlements older
  end.

(** The indices at which a batch was started, in order. *)
Fixpoint windows (h : list Event) : list nat :=
  match h with
  | [] => []
  | BatchStart i0 _ :: older => windows older ++ [i0]
  | _ :: older => windows older
  end.

(** The entries [results.set] was called with, newest first. *)
Fixpoint completions (h : list Event) : list (SnapMerchStyle * string) :=
  match h with
  | [] => []
  | CallSettled _ config (Resolves imageUrl) :: older =>
      (id config, imageUrl) :: completions older
  | _ :: older => completions older
  end.

Definition settles (n : nat) (e : Event) : bool :=
  match e with
  | CallSettled m _ _ => (n =? m)%nat
  | _ => false
  end.

(** The call for request [n] has settled within [h]. *)
Definition settled_in (h : list Event) (n : nat) : bool := existsb (settles n) h.

(** The loop index of the batch request [n] belongs to. *)
Definition window_of (n : nat) : nat := (n - n mod MAX_CONCURRENT)%nat.

End Api.

(** ** components/VendorMode.tsx: what the vendor view does with a batch

    The updaters given to [setCurrentCar] are functions of the previous
    car; they are applied in the order they were queued. *)

Module VendorMode.

Definition INITIAL_BATCH_SIZE : nat := 4.
Definition MORE_BATCH_SIZE : nat := 4.

(** [Array.prototype.slice(a, b)] *)
Definition slice {A} (a b : nat) (l : list A) : list A := take (b - a) (drop a l).

Definition with_styles (prev : CarSession) (l : list GeneratedStyle) : CarSession :=
  {| car_id := car_id prev; photoBase64 := photoBase64 prev;
     photoThumbnail := photoThumbnail prev; car_identity := car_identity prev;
     styles := l; mockups := mockups prev; orders := orders prev;
     car_createdAt := car_createdAt prev; shareUrl := shareUrl prev |}.

(** The [onStyleComplete] callback of [generateStyleBatch]:
    [s.styleId === styleId ? { ...s, imageUrl, status: 'done' } : s] *)
Definition onStyleComplete (sid : SnapMerchStyle) (url : string)
    (prev : CarSession) : CarSession :=
  with_styles prev
    (map (fun s =>
            if String.eqb (styleId s) sid
            then {| styleId := styleId s; imageUrl := Some url; status := Done;
                    error := error s |}
            else s) (styles prev)).

(** The [onStyleError] callback:
    [s.styleId === styleId ? { ...s, status: 'error', error } : s] *)
Definition onStyleError (sid : SnapMerchStyle) (message : option string)
    (prev : CarSession) : CarSession :=
  with_styles prev
    (map (fun s =>
            if String.eqb (styleId s) sid
            then {| styleId := styleId s; imageUrl := imageUrl s;
                    status := Error; error := message |}
            else s) (styles prev)).

(** The two callbacks [generateStyleBatch] passes to [generateAllStyles],
    as [generateAllStyles] sees them: each counts, sets the status
    message and queues its updater of the current car with
    [setCurrentCar], and returns. *)
Definition batchOnComplete : SnapMerchStyle -> string -> Api.Outcome :=
  fun _ _ => Api.Returns.

Definition batchOnError : SnapMerchStyle -> option string -> Api.Outcome :=
  fun _ _ => Api.Returns.

(** Mark the styles of a batch as generating
    ([handleStartGeneration], [handleGenerateMore]). *)
Definition markGenerating (configs : list StyleConfig) (prev : CarSession)
  : CarSession :=
  with_styles prev
    (map (fun s =>
            if existsb (fun c => String.eqb (id c) (styleId s)) configs
            then {| styleId := styleId s; imageUrl := imageUrl s;
                    status := Generating; error := error s |}
            else s) (styles prev)).

(** The car after the callbacks that fired in a history (newest first)
    were applied, oldest first. *)
Fixpoint afterCallbacks (h : list Api.Event) (car : CarSession) : CarSession :=
  match h with
  | [] => car
  | Api.OnStyleComplete _ sid url :: older =>
      onStyleComplete sid url (afterCallbacks older car)
  | Api.OnStyleError _ sid message :: older =>
      onStyleError sid message (afterCallbacks older car)
  | _ :: older => afterCallbacks older car
  end.

(** [handleStartGeneration]: the first batch. *)
Definition initialConfigs (prioritized : list StyleConfig) : list StyleConfig :=
  slice 0 INITIAL_BATCH_SIZE prioritized.

(** [handleGenerateMore]: the new [visibleCount] and the batch; nothing
    changes when the batch is empty. *)
Definition handleGenerateMore (visibleCount : nat)
    (orderedConfigs : list StyleConfig) : nat * list StyleConfig :=
  let newVisibleCount :=
    Nat.min (visibleCount + MORE_BATCH_SIZE) (length orderedConfigs) in
  let moreConfigs := slice visibleCount newVisibleCount orderedConfigs in
  match moreConfigs with
  | [] => (visibleCount, [])
  | _ => (newVisibleCount, moreConfigs)
  end.

End VendorMode.

(** ** services/api.ts, continued: the image sent for an edit or a mockup *)

Module ApiImages.

(** A request body: the path, the image, and the other fields. *)
Record Request := {
  path : string;
  image : string;
  fields : list (string * string) }.

(** What the page and the server answer. [fetch_blob] is [fetch(url)]
    followed by [response.blob()], which throws when the blob URL was
    revoked; [readAsDataURL] is the [FileReader]; [draw_on_canvas] is the
    [Image] and canvas fallback; the two compressions resolve always
    (to the input when the image does not load); [post] gives the
    [imageUrl] of the response, or the error of a response that is not
    ok. *)
Record Browser := {
  fetch_blob : string -> option string;
  readAsDataURL : string -> Completion string;
  draw_on_canvas : string -> Completion string;
  compressImage : string -> nat -> nat -> string;
  compressDesignImage : string -> nat -> nat -> string;
  post : Request -> Completion string }.

(** [!url]: null, undefined or the empty string. *)
Definition falsy (url : option string) : bool :=
  match url with
  | None | Some "" => true
  | Some _ => false
  end.

(** blob URL -> base64; a rejection of the [FileReader] promise, which
    is returned and not awaited, is not caught by the [try]. *)
Definition blobUrlToBase64 (b : Browser) (url : option string)
  : Completion (option string) :=
  match url with
  | None => Normal url
  | Some u =>
      if falsy url || negb (Js.startsWith u "blob:") then Normal url
      else match fetch_blob b u with
           | Some blob =>
               match readAsDataURL b blob with
               | Normal r => Normal (Some r)
               | Throws _ => Throws (OtherError "FileReader failed on blob")
               end
           | None =>
               match draw_on_canvas b u with
               | Normal r => Normal (Some r)
               | Throws e => Throws e
               end
           end
  end.

(** The image a request may carry: [!base64 || !base64.startsWith('data:')]
    is the test that rejects. *)
Definition unavailable (base64 : option string) : bool :=
  match base64 with
  | None => true
  | Some s => falsy base64 || negb (Js.startsWith s "data:")
  end.

(** The result of a call and the requests it posted, oldest first. *)
Definition tweakDesign (b : Browser) (imageInput : option string)
    (prompt : string) (carDetails : string)
  : Completion string * list Request :=
  match blobUrlToBase64 b imageInput with
  | Throws e => (Throws e, [])
  | Normal base64 =>
      if unavailable base64
      then (Throws (OtherError
                      "Design image is unavailable — please go back and re-select the style"),
            [])
      else
        let compressed := compressImage b (or_empty base64) 600 70 in
        let request :=
          {| path := "/api/edit"; image := compressed;
             fields := [("editPrompt", prompt); ("resolution", "1K");
                        ("details", carDetails)] |} in
        match post b request with
        | Throws e => (Throws e, [request])
        | Normal imageUrl =>
            (Normal (compressDesignImage b imageUrl 600 70), [request])
        end
  end.

Record MockupOptions := {
  productType : option string;
  mo_color : option string;
  colorName : option string;
  carDescription : option string;
  gender : option string;
  ageRange : option string;
  background : option string }.

(** A destructuring default: used when the field is undefined. *)
Definition or_default (field : option string) (d : string) : string :=
  match field with
  | Some s => s
  | None => d
  end.

Definition generateMockup (b : Browser) (designImageInput : option string)
    (options : MockupOptions) : Completion string * list Request :=
  let productType := or_default (productType options) "tshirt" in
  let color := or_default (mo_color options) "#000000" in
  let colorName := or_default (colorName options) "Black" in
  let carDescription := or_default (carDescription options) "automotive art" in
  let gender := or_default (gender options) "male" in
  let ageRange := or_default (ageRange options) "25-40" in
  let background := or_default (background options) "studio" in
  match blobUrlToBase64 b designImageInput with
  | Throws e => (Throws e, [])
  | Normal base64 =>
      if unavailable base64
      then (Throws (OtherError
                      "Design image is unavailable — please go back and try selecting the style again"),
            [])
      else
        let compressed := compressDesignImage b (or_empty base64) 600 70 in
        let request :=
          {| path := "/api/mockup"; image := compressed;
             fields := [("productType", productType); ("shirtColor", color);
                        ("shirtColorName", colorName);
                        ("shirtBrand",
                         if String.eqb productType "hoodie"
                         then "Gildan 18500" else "Bella Canvas 3001");
                        ("gender", gender); ("ageRange", ageRange);
                        ("carDescription", carDescription);
                        ("background", background)] |} in
        match post b request with
        | Throws e => (Throws e, [request])
        | Normal imageUrl =>
            (Normal (compressDesignImage b imageUrl 600 70), [request])
        end
  end.

End ApiImages.

(** * Vocabulary of the properties *)

(** ** The classifier and the ranker *)

Definition with_year (y : string) (identity : CarIdentity) : CarIdentity :=
  {| year := y; make := make identity; model := model identity;
     trim := trim identity; color := color identity |}.

(** The make as the classifier compares it. *)
Definition normalized_make (identity : CarIdentity) : string :=
  Js.trim (Js.toLowerCase (Js.or_str (make identity) "")).

Definition toyota_supra_2021 : CarIdentity :=
  {| year := "2021"; make := "Toyota"; model := "Supra"; trim := "";
     color := {| c_name := "Red"; c_hex := "#C8102E" |} |}.

(** Number of entries of [l] whose id is [i]. *)
Definition count_id (i : SnapMerchStyle) (l : list StyleConfig) : nat :=
  length (filter (fun c => id c = i) l).

(** One identity per category. *)
Definition sample_identity (category : VehicleCategory) : CarIdentity :=
  let mk y ma mo :=
    {| year := y; make := ma; model := mo; trim := "";
       color := {| c_name := ""; c_hex := "" |} |} in
  match category with
  | Pre1980Classic => mk "1969" "Dodge" "Dart"
  | Era80s90s => mk "1991" "BMW" "325i"
  | Truck => mk "2018" "Ford" "F-150"
  | Jdm => mk "2021" "Toyota" "Supra"
  | Lowrider => mk "1970" "Chevrolet" "Impala"
  | ModernSports => mk "2019" "Chevrolet" "Corvette"
  | DefaultCategory => mk "" "" ""
  end.

(** ** The local session store *)

(** What [saveEventSession] first tries to write, and what it writes
    when it retries. *)
Definition first_write (session : EventSession) : EventSession :=
  with_cars session (map strip_car (cars session)).

Definition retry_write (session : EventSession) : EventSession :=
  with_cars session (map blank_thumbnail (take 3 (map strip_car (cars session)))).

(** The world after a call. *)
Definition after {A} (m : Eff A) (w : World) : World := (m w).2.
Definition outcome {A} (m : Eff A) (w : World) : Completion A := (m w).1.

(** [u] is a data URL of more than [n] characters. *)
Definition data_url_over (n : Z) (u : option string) : Prop :=
  exists rest, u = Some ("data:" ++ rest)%string
               /\ n < Z.of_nat (String.length ("data:" ++ rest)%string).

(** The relation between a car of the session and what is persisted for
    it: the photo is dropped, the thumbnail is blank or the original one
    and then under 15000 characters, and no image is a data URL of more
    than 500 characters, those of the session being blanked. *)
Definition image_ok (original persisted : option string) : Prop :=
  (data_url_over 500 original -> persisted = Some "")
  /\ ~ data_url_over 500 persisted.

Definition car_persisted_ok (car pc : CarSession) : Prop :=
  photoBase64 pc = ""
  /\ (photoThumbnail pc = Some ""
      \/ exists t, photoThumbnail car = Some t /\ photoThumbnail pc = Some t
                   /\ Z.of_nat (String.length t) < 15000)
  /\ Forall2 (fun s ps => image_ok (imageUrl s) (imageUrl ps))
       (styles car) (styles pc)
  /\ Forall2 (fun m pm => image_ok (m_imageUrl m) (m_imageUrl pm))
       (mockups car) (mockups pc).

Definition persisted_ok (session persisted : EventSession) : Prop :=
  Forall2 car_persisted_ok
    (take (length (cars persisted)) (cars session)) (cars persisted).

(** A write to the session key of a value that is fit to persist, or
    another kind of call. *)
Definition write_ok (session : EventSession) (op : StorageOp) : Prop :=
  match op with
  | OpSet key value _ =>
      key = KEYS.EVENT_SESSION
      /\ exists s, value = Json s /\ persisted_ok session s
  | OpGet _ | OpRemove _ => True
  end.

(** The relation between a session and its stripped copy, field by
    field: nothing but the images changes; the photo is dropped; the
    thumbnail is kept when it has fewer than 15000 characters and blank
    otherwise; a style or mockup image is blank when it was a data URL
    of more than 500 characters (or null), and kept otherwise. *)
Definition image_stripped (original persisted : option string) : Prop :=
  match original with
  | None => persisted = Some ""
  | Some u => (data_url_over 500 (Some u) -> persisted = Some "")
              /\ (~ data_url_over 500 (Some u) -> persisted = Some u)
  end.

Definition thumbnail_stripped (original persisted : option string) : Prop :=
  match original with
  | None => persisted = Some ""
  | Some t => (Z.of_nat (String.length t) < 15000 -> persisted = Some t)
              /\ (15000 <= Z.of_nat (String.length t) -> persisted = Some "")
  end.

Definition style_stripped (s ps : GeneratedStyle) : Prop :=
  styleId ps = styleId s /\ status ps = status s /\ error ps = error s
  /\ image_stripped (imageUrl s) (imageUrl ps).

Definition mockup_stripped (m pm : MockupResult) : Prop :=
  productId pm = productId m /\ m_styleId pm = m_styleId m
  /\ m_status pm = m_status m
  /\ image_stripped (m_imageUrl m) (m_imageUrl pm).

Definition car_stripped (car pc : CarSession) : Prop :=
  car_id pc = car_id car /\ car_identity pc = car_identity car
  /\ orders pc = orders car /\ car_createdAt pc = car_createdAt car
  /\ shareUrl pc = shareUrl car
  /\ photoBase64 pc = ""
  /\ thumbnail_stripped (photoThumbnail car) (photoThumbnail pc)
  /\ Forall2 style_stripped (styles car) (styles pc)
  /\ Forall2 mockup_stripped (mockups car) (mockups pc).

Definition session_stripped (session persisted : EventSession) : Prop :=
  ev_id persisted = ev_id session /\ ev_name persisted = ev_name session
  /\ date persisted = date session
  /\ ev_createdAt persisted = ev_createdAt session
  /\ Forall2 car_stripped (cars session) (cars persisted).

(** A device that only takes sessions free of thumbnails, and a session
    of four cars with thumbnails. *)
Definition no_thumbnails (value : Stored) : bool :=
  match value with
  | Json s => forallb (fun c => bool_decide (photoThumbnail c = Some "")) (cars s)
  | Malformed _ => true
  end.

Definition tight_world : World :=
  {| store := ∅; accepts := fun _ _ value => no_thumbnails value;
     userId := None; supabase := None; today := "2025-06-01";
     clock := 1748772000000; entropy := "k3x9qa";
     base36 := fun _ => "mbd6v5c0"; oplog := []; syncs := [] |}.

Definition sample_car (i : string) : CarSession :=
  {| car_id := i; photoBase64 := "data:image/jpeg;base64,AAAA";
     photoThumbnail := Some "data:image/jpeg;base64,BBBB";
     car_identity := Some toyota_supra_2021;
     styles := [ {| styleId := "neon"; imageUrl := Some "https://cdn/neon.jpg";
                    status := Done; error := None |} ];
     mockups := []; orders := []; car_createdAt := 1748772000000;
     shareUrl := None |}.

Definition four_cars : EventSession :=
  {| ev_id := "ev1"; ev_name := "Cars & Coffee"; date := "2025-06-01";
     cars := [sample_car "d"; sample_car "c"; sample_car "b"; sample_car "a"];
     ev_createdAt := 1748772000000 |}.

(** The session [createNewEventSession] builds in world [w]. *)
Definition fresh_session (w : World) : EventSession :=
  {| ev_id := (base36 w (clock w) ++ entropy w)%string;
     ev_name := "Cars & Coffee"; date := today w; cars := [];
     ev_createdAt := clock w |}.

(** The store as it is when [getEventSession] comes to save a fresh
    session: a text that did not parse has been removed. *)
Definition store_before_fresh (w : World) : gmap string Stored :=
  match store w !! KEYS.EVENT_SESSION with
  | Some (Malformed (String _ _)) => delete KEYS.EVENT_SESSION (store w)
  | _ => store w
  end.

(** The calls made on [localStorage] between two worlds. *)
Definition new_ops (w w' : World) : list StorageOp :=
  drop (length (oplog w)) (oplog w').

Definition is_write (op : StorageOp) : bool :=
  match op with
  | OpSet _ _ _ | OpRemove _ => true
  | OpGet _ => false
  end.

Definition has_id (carId : string) (c : CarSession) : bool :=
  String.eqb (car_id c) carId.

Definition no_update : CarSessionUpdate :=
  {| u_id := None; u_photoBase64 := None; u_photoThumbnail := None;
     u_identity := None; u_styles := None; u_mockups := None;
     u_orders := None; u_createdAt := None; u_shareUrl := None |}.

(** A device with room for everything. *)
Definition roomy_world (m : gmap string Stored) : World :=
  {| store := m; accepts := fun _ _ _ => true;
     userId := None; supabase := None; today := "2025-06-01";
     clock := 1748772000000; entropy := "k3x9qa";
     base36 := fun _ => "mbd6v5c0"; oplog := []; syncs := [] |}.

Definition corrupted_world : World :=
  roomy_world {[ KEYS.EVENT_SESSION := Malformed "{cars:[" ]}.

(** Yesterday's session is still in the store. *)
Definition yesterday : EventSession :=
  {| ev_id := "ev0"; ev_name := "Cars & Coffee"; date := "2025-05-31";
     cars := [sample_car "a"]; ev_createdAt := 1748685600000 |}.

Definition stale_world : World :=
  roomy_world {[ KEYS.EVENT_SESSION := Json yesterday ]}.

(** Today's session, as it was persisted. *)
Definition todays_world : World :=
  roomy_world {[ KEYS.EVENT_SESSION := Json (first_write four_cars) ]}.

(** The fields of [merged] that [update] does not give are those of
    [car]. *)
Definition same_unless_given (car : CarSession) (update : CarSessionUpdate)
    (merged : CarSession) : Prop :=
  (u_id update = None -> car_id merged = car_id car)
  /\ (u_photoBase64 update = None -> photoBase64 merged = photoBase64 car)
  /\ (u_photoThumbnail update = None -> photoThumbnail merged = photoThumbnail car)
  /\ (u_identity update = None -> car_identity merged = car_identity car)
  /\ (u_styles update = None -> styles merged = styles car)
  /\ (u_mockups update = None -> mockups merged = mockups car)
  /\ (u_orders update = None -> orders merged = orders car)
  /\ (u_createdAt update = None -> car_createdAt merged = car_createdAt car)
  /\ (u_shareUrl update = None -> shareUrl merged = shareUrl car).

Definition only_styles (l : list GeneratedStyle) : CarSessionUpdate :=
  {| u_id := None; u_photoBase64 := None; u_photoThumbnail := None;
     u_identity := None; u_styles := Some l; u_mockups := None;
     u_orders := None; u_createdAt := None; u_shareUrl := None |}.

(** ** Remote hydration *)

Definition an_event : EventRow :=
  {| er_id := "ev1"; er_name := "Cars & Coffee"; er_date := "2025-06-01";
     er_created_at := 1748772000000 |}.

Definition a_car : CarRow :=
  {| cr_id := "car1"; cr_photo_thumbnail := None;
     cr_identity := Some toyota_supra_2021; cr_share_url := None;
     cr_created_at := 1748772060000 |}.

Definition a_style : StyleRow :=
  {| sr_car_id := "car1"; sr_style_id := "japanese";
     sr_image_url := Some "https://cdn.example/car1_japanese.jpg";
     sr_status := Some Done; sr_error := None |}.

(** A remote store where every read succeeds. *)
Definition healthy_db : Supabase :=
  {| select_events := fun _ _ => Reply (Some [an_event]) None;
     select_cars := fun _ => Reply (Some [a_car]) None;
     select_styles := fun _ => Reply (Some [a_style]) None;
     select_orders := fun _ => Reply (Some []) None |}.

(** The same store when the read of the styles reports an error. *)
Definition styles_down_db : Supabase :=
  {| select_events := select_events healthy_db;
     select_cars := select_cars healthy_db;
     select_styles := fun _ => Reply None (Some "upstream request timeout");
     select_orders := select_orders healthy_db |}.

Definition signed_in_world (db : Supabase) : World :=
  {| store := ∅; accepts := fun _ _ _ => true;
     userId := Some "user_1"; supabase := Some db; today := "2025-06-01";
     clock := 1748772120000; entropy := "k3x9qa";
     base36 := fun _ => "mbd6v5c0"; oplog := []; syncs := [] |}.

(** A read that gave rows and no error. *)
Definition read_ok {A} (r : Response (list A)) : bool :=
  match r with
  | Reply (Some _) None => true
  | _ => false
  end.

(** ** The orchestrator *)

Section OrchestrationVocabulary.

Variable identity : CarIdentity.
Variable styleConfigs : list StyleConfig.
Variable referenceImage : option string.
Variable generateArt : CarIdentity -> StyleConfig -> option string -> Api.Settlement.
Variable onStyleComplete : option (SnapMerchStyle -> string -> Api.Outcome).
Variable onStyleError : option (SnapMerchStyle -> option string -> Api.Outcome).

(** The requests with their positions. *)
Definition indexed (l : list StyleConfig) : list (nat * StyleConfig) :=
  imap (fun n config => (n, config)) l.

(** The callback that reports each request, when both callbacks are
    given and none throws. *)
Definition expected_callbacks (l : list StyleConfig) : list Api.Event :=
  imap (Api.callback_of identity referenceImage generateArt) l.

(** The callbacks that are called when the call for request [n] has
    settled, newest first, whatever the callbacks are: [onStyleComplete]
    for a call that resolved, and after it [onStyleError] with the
    message of what [onStyleComplete] threw, if it threw something that
    is not null; [onStyleError] for a call that rejected; a callback that
    was not given is not called. *)
Definition callbacks_owed (n : nat) (config : StyleConfig) : list Api.Event :=
  match generateArt identity config referenceImage with
  | Api.Resolves imageUrl =>
      match onStyleComplete with
      | Some complete =>
          match complete (id config) imageUrl, onStyleError with
          | Api.Raises (Api.Carrying message), Some _ =>
              [Api.OnStyleError n (id config) message;
               Api.OnStyleComplete n (id config) imageUrl]
          | _, _ => [Api.OnStyleComplete n (id config) imageUrl]
          end
      | None => []
      end
  | Api.Rejects message =>
      match onStyleError with
      | Some _ => [Api.OnStyleError n (id config) (Some message)]
      | None => []
      end
  end.

Definition owed (l : list (nat * StyleConfig)) : list Api.Event :=
  flat_map (fun nc => callbacks_owed nc.1 nc.2) l.

(** A request with the way its call settles. *)
Definition with_settlement (nc : nat * StyleConfig)
  : nat * StyleConfig * Api.Settlement :=
  (nc.1, nc.2, generateArt identity nc.2 referenceImage).

(** [onStyleComplete] was given and never throws. *)
Definition quiet_onStyleComplete : Prop :=
  exists complete,
    onStyleComplete = Some complete
    /\ forall sid imageUrl, complete sid imageUrl = Api.Returns.

(** [onStyleError] was given. *)
Definition given_onStyleError : Prop := is_Some onStyleError.

(** The members of the batch whose call has settled, and those whose
    call was issued. *)
Definition finished_members (tasks : list Api.Task) : list (nat * StyleConfig) :=
  omap (fun t =>
          match t with
          | Api.Finished n config _ => Some (n, config)
          | _ => None
          end) tasks.

Definition batch_calls (tasks : list Api.Task) : list (nat * StyleConfig) :=
  omap (fun t =>
          match t with
          | Api.Calling n config | Api.Finished n config _ => Some (n, config)
          | Api.Delayed _ _ _ => None
          end) tasks.

(** The request an event is about. *)
Definition request_of (e : Api.Event) : nat :=
  match e with
  | Api.BatchStart n _ | Api.CallIssued n _ _ | Api.CallSettled n _ _
  | Api.OnStyleComplete n _ _ | Api.OnStyleError n _ _ => n
  end.

(** What must hold of an event, given the events before it:
    - a batch starts at an even index, when every earlier request has
      settled;
    - a call is for the request at that position; every request of the
      earlier batches has settled; the first call of a batch is issued at
      the instant the batch starts, the second one at least 500ms later;
    - a call settles, as [generateArt] has it, after it was issued;
    - a callback is called for a request whose call has settled. *)
Definition event_ok (older : list Api.Event) (e : Api.Event) : Prop :=
  match e with
  | Api.BatchStart i0 _ =>
      (i0 mod 2 = 0)%nat /\ (i0 < length styleConfigs)%nat
      /\ forall m, (m < i0)%nat -> Api.settled_in older m = true
  | Api.CallIssued n config t =>
      styleConfigs !! n = Some config
      /\ (forall m, (m < Api.window_of n)%nat -> Api.settled_in older m = true)
      /\ if (n =? Api.window_of n)%nat
         then exists rest, older = Api.BatchStart n t :: rest
         else n = S (Api.window_of n)
              /\ exists t0, In (Api.BatchStart (Api.window_of n) t0) older
                            /\ (t0 + 500 <= t)%nat
  | Api.CallSettled n config settlement =>
      styleConfigs !! n = Some config
      /\ settlement = generateArt identity config referenceImage
      /\ In (n, config) (Api.calls older)
  | Api.OnStyleComplete n _ _ | Api.OnStyleError n _ _ =>
      Api.settled_in older n = true
  end.

Fixpoint history_ok (h : list Api.Event) : Prop :=
  match h with
  | [] => True
  | e :: older => event_ok older e /\ history_ok older
  end.

Definition first_ok (h : list Api.Event) (i0 : nat) (c0 : StyleConfig)
    (t : Api.Task) : Prop :=
  t = Api.Calling i0 c0
  \/ exists fulfilled,
       t = Api.Finished i0 c0 fulfilled /\ Api.settled_in h i0 = true.

Definition second_ok (h : list Api.Event) (i0 : nat) (c1 : StyleConfig)
    (t0 : nat) (t : Api.Task) : Prop :=
  t = Api.Delayed (S i0) c1 (t0 + 500)
  \/ t = Api.Calling (S i0) c1
  \/ exists fulfilled,
       t = Api.Finished (S i0) c1 fulfilled /\ Api.settled_in h (S i0) = true.

(** The batch in flight: its first member was called when the batch
    started, its second member (when there is one) waits for its timer,
    for its call, or has finished. After the return the loop variable
    has just passed the end of the list. *)
Definition batch_ok (st : Api.State) : Prop :=
  if Api.returned st then
    (length styleConfigs <= Api.i st <= length styleConfigs + 1)%nat
    /\ Api.batchPromises st = []
  else
    exists t0 c0 T0,
      In (Api.BatchStart (Api.i st) t0) (Api.history st)
      /\ styleConfigs !! Api.i st = Some c0
      /\ first_ok (Api.history st) (Api.i st) c0 T0
      /\ match styleConfigs !! S (Api.i st) with
         | Some c1 =>
             exists T1, Api.batchPromises st = [T0; T1]
                        /\ second_ok (Api.history st) (Api.i st) c1 t0 T1
         | None => Api.batchPromises st = [T0]
         end.

(** The requests whose call has settled: those of the batches that are
    over and the finished members of the batch in flight. *)
Definition settled_requests (st : Api.State) : list (nat * StyleConfig) :=
  (indexed (take (Api.i st) styleConfigs)
   ++ finished_members (Api.batchPromises st))%list.

(** The batches started so far: one every [MAX_CONCURRENT] requests. *)
Definition consecutive_windows (k : nat) : list nat :=
  map (fun j => (j * Api.MAX_CONCURRENT)%nat) (seq 0 k).

Record Inv (st : Api.State) : Prop := {
  inv_history : history_ok (Api.history st);
  inv_results : Api.results st = list_to_map (Api.completions (Api.history st));
  inv_even : (Api.i st mod 2 = 0)%nat;
  inv_settled :
    forall m, (m < Api.i st)%nat -> (m < length styleConfigs)%nat ->
              Api.settled_in (Api.history st) m = true;
  inv_callbacks : Api.callbacks (Api.history st) ≡ₚ owed (settled_requests st);
  inv_settlements :
    Api.settlements (Api.history st)
    ≡ₚ map with_settlement (settled_requests st);
  inv_calls :
    Api.calls (Api.history st)
    = (indexed (take (Api.i st) styleConfigs)
       ++ batch_calls (Api.batchPromises st))%list;
  inv_windows :
    Api.windows (Api.history st)
    = consecutive_windows
        (Api.i st / 2 + if Api.returned st then 0 else 1);
  inv_batch : batch_ok st;
}.

End OrchestrationVocabulary.

(** The entry [results.set] is called with when a call has resolved. *)
Definition completion_of (s : nat * StyleConfig * Api.Settlement)
  : option (SnapMerchStyle * string) :=
  match s with
  | (_, config, Api.Resolves imageUrl) => Some (id config, imageUrl)
  | _ => None
  end.

(** Four requests, the second of which the remote service refuses. *)
Definition nth_style (n : nat) : StyleConfig :=
  nth n STYLE_CONFIGS (mkStyle "" "" "" "" "").

Definition four_requests : list StyleConfig :=
  [nth_style 0; nth_style 1; nth_style 2; nth_style 3].

Definition second_fails (_ : CarIdentity) (config : StyleConfig)
    (_ : option string) : Api.Settlement :=
  if String.eqb (id config) "retro"
  then Api.Rejects "Request failed: Too Many Requests"
  else Api.Resolves ("data:image/jpeg;base64," ++ id config).

(** A complete run: in the first batch the second call fails before the
    first one succeeds. *)
Definition a_full_run : list Api.Action :=
  [Api.Tick 500; Api.TimerFires 1; Api.CallSettles 1; Api.Tick 2000;
   Api.CallSettles 0; Api.AllSettled;
   Api.Tick 650; Api.TimerFires 1; Api.CallSettles 0; Api.CallSettles 1;
   Api.AllSettled].

(** An [onStyleComplete] that throws for the first style of the
    catalog. *)
Definition fussy_onStyleComplete (sid : SnapMerchStyle) (_ : string)
  : Api.Outcome :=
  if String.eqb sid "vector"
  then Api.Raises (Api.Carrying (Some "setState on an unmounted view"))
  else Api.Returns.

(** A run stopped when the second call of the first batch is issued. *)
Definition a_partial_run : list Api.Action := [Api.Tick 620; Api.TimerFires 1].

(** ** The local session store, continued *)

(** What the store functions leave alone: the other keys of
    [localStorage], the signed-in user, the client, the date, the clock
    and the device. *)
Definition frame_ok (w w' : World) : Prop :=
  delete KEYS.EVENT_SESSION (store w') = delete KEYS.EVENT_SESSION (store w)
  /\ accepts w' = accepts w /\ userId w' = userId w
  /\ supabase w' = supabase w /\ today w' = today w /\ clock w' = clock w
  /\ entropy w' = entropy w /\ base36 w' = base36 w.

(** A car added to today's session, with two photos of different sizes. *)
Definition new_car : CarSession :=
  {| car_id := "e"; photoBase64 := "data:image/jpeg;base64,CCCC";
     photoThumbnail := Some "data:image/jpeg;base64,DDDD";
     car_identity := None; styles := []; mockups := []; orders := [];
     car_createdAt := 1748772300000; shareUrl := None |}.

Definition share_update : CarSessionUpdate :=
  {| u_id := None; u_photoBase64 := None; u_photoThumbnail := None;
     u_identity := None; u_styles := None; u_mockups := None;
     u_orders := None; u_createdAt := None;
     u_shareUrl := Some (Some "https://snapmerch.example/c/b") |}.

(** ** Remote hydration, continued *)

(** The car built from a row, with the style and order rows that name
    it. *)
Definition hydrate_car (styleRows : list StyleRow) (orderRows : list OrderRow)
    (car : CarRow) : CarSession :=
  {| car_id := cr_id car;
     photoBase64 := "";
     photoThumbnail := Some (or_empty (cr_photo_thumbnail car));
     car_identity := cr_identity car;
     styles :=
       map style_of_row
         (List.filter (fun r => String.eqb (sr_car_id r) (cr_id car)) styleRows);
     mockups := [];
     orders :=
       map order_of_row
         (List.filter (fun r => String.eqb (or_car_id r) (cr_id car)) orderRows);
     car_createdAt := cr_created_at car;
     shareUrl := or_undefined (cr_share_url car) |}.

(** The ids asked of the style and order tables. *)
Definition wanted_ids (carRows : list CarRow) : list string :=
  match map cr_id carRows with
  | [] => ["__none__"]
  | _ => map cr_id carRows
  end.

(** ** Orders and the remote mirror *)

(** The rows a sync writes, in the order it writes them: the cars whose
    upsert succeeds, and their styles that are started and whose upsert
    succeeds. *)
Definition style_rows (faults : Faults) (car : CarSession) : list StyleUpsert :=
  omap (fun style =>
          if is_idle (status style) then None
          else if style_fails faults (style_upsert car style) then None
               else Some (style_upsert car style)) (styles car).

Definition synced_cars (faults : Faults) (session : EventSession)
  : list CarSession :=
  List.filter (fun car => negb (car_fails faults (car_upsert session car)))
    (cars session).

Definition put_car (m : gmap string CarUpsert) (row : CarUpsert) :=
  <[cu_id row := row]> m.

Definition put_style (m : gmap string StyleUpsert) (row : StyleUpsert) :=
  <[su_id row := row]> m.

Definition no_faults : Faults :=
  {| event_fails := fun _ => false; car_fails := fun _ => false;
     style_fails := fun _ => false |}.

Definition empty_tables : Tables :=
  {| snap_events := ∅; snap_cars := ∅; snap_styles := ∅ |}.

Definition an_order : Order :=
  {| o_id := "ord1"; carSessionId := "d"; items := [];
     customerEmail := "pat@example.org"; customerName := None;
     customerPhone := None; shippingAddress := None; paymentId := None;
     o_status := Pending; o_createdAt := 1748772400000 |}.

(** ** The orchestrator, continued *)

(** The time an invocation over [n] requests started at [t0] needs at
    least, once [i] requests are behind: every full batch waits for its
    stagger. *)
Definition stagger_floor (t0 n i : nat) : nat :=
  (t0 + 500 * (Nat.min i n / 2))%nat.

(** Each member of the batch in flight agrees with the clock: a waiting
    member wakes 500ms after the batch started at [ts]; a member after
    the first whose call was issued has seen those 500ms pass. *)
Definition timers_ok (ts : nat) (st : Api.State) : Prop :=
  forall k task,
    Api.batchPromises st !! k = Some task ->
    match task with
    | Api.Delayed _ _ wake => wake = (ts + 500)%nat
    | _ => k = 0%nat \/ (ts + 500 <= Api.time_now st)%nat
    end.

Definition clock_ok (t0 n : nat) (st : Api.State) : Prop :=
  if Api.returned st then (stagger_floor t0 n (Api.i st) <= Api.time_now st)%nat
  else exists ts,
         (stagger_floor t0 n (Api.i st) <= ts)%nat
         /\ (ts <= Api.time_now st)%nat
         /\ timers_ok ts st.

(** ** The vendor view *)

(** The style id a callback is for. *)
Definition event_sid (e : Api.Event) : SnapMerchStyle :=
  match e with
  | Api.OnStyleComplete _ sid _ | Api.OnStyleError _ sid _ => sid
  | _ => ""
  end.

(** What a callback does to one style. *)
Definition settle (e : Api.Event) (s : GeneratedStyle) : GeneratedStyle :=
  match e with
  | Api.OnStyleComplete _ sid url =>
      if String.eqb (styleId s) sid
      then {| styleId := styleId s; imageUrl := Some url; status := Done;
              error := error s |}
      else s
  | Api.OnStyleError _ sid message =>
      if String.eqb (styleId s) sid
      then {| styleId := styleId s; imageUrl := imageUrl s; status := Error;
              error := message |}
      else s
  | _ => s
  end.

(** What a whole batch must have done to one style: a style that was
    requested is done with the image of its call, or in error with its
    message; a style that was not requested is as it was. *)
Definition settled_style (identity : CarIdentity) (configs : list StyleConfig)
    (referenceImage : option string)
    (generateArt : CarIdentity -> StyleConfig -> option string -> Api.Settlement)
    (s : GeneratedStyle) : GeneratedStyle :=
  match List.find (fun c => String.eqb (id c) (styleId s)) configs with
  | Some c =>
      match generateArt identity c referenceImage with
      | Api.Resolves url =>
          {| styleId := styleId s; imageUrl := Some url; status := Done;
             error := error s |}
      | Api.Rejects message =>
          {| styleId := styleId s; imageUrl := imageUrl s; status := Error;
             error := Some message |}
      end
  | None => s
  end.

(** The car of the vendor view when a photo was taken: one idle slot per
    catalog style. *)
Definition captured_car : CarSession :=
  {| car_id := "d"; photoBase64 := "data:image/jpeg;base64,AAAA";
     photoThumbnail := Some "data:image/jpeg;base64,BBBB";
     car_identity := Some toyota_supra_2021;
     styles := map (fun c => {| styleId := id c; imageUrl := None;
                                status := Idle; error := None |}) STYLE_CONFIGS;
     mockups := []; orders := []; car_createdAt := 1748772000000;
     shareUrl := None |}.

(** ** The classifier's inputs and the rounds of the vendor view *)

(** The year and the model as the classifier compares them. *)
Definition parsed_year (identity : CarIdentity) : Z :=
  Js.or_zero (Js.parseInt10 (year identity)).

Definition normalized_model (identity : CarIdentity) : string :=
  Js.trim (Js.toLowerCase (Js.or_str (model identity) "")).

(** What each category says of the identity it was given to. *)
Definition category_sound (identity : CarIdentity) (category : VehicleCategory)
  : Prop :=
  let y := parsed_year identity in
  let mk := normalized_make identity in
  match category with
  | Lowrider => 1958 <= y <= 1985 /\ In mk LOWRIDER_MAKES /\ ~ In mk JDM_MAKES
  | Jdm => In mk JDM_MAKES
  | Truck => ~ In mk JDM_MAKES
  | ModernSports => 2010 <= y /\ ~ In mk JDM_MAKES
  | Pre1980Classic => 0 < y < 1980 /\ ~ In mk JDM_MAKES
  | Era80s90s => 1980 <= y <= 1999 /\ ~ In mk JDM_MAKES
  | DefaultCategory => (y <= 0 \/ 2000 <= y) /\ ~ In mk JDM_MAKES
  end.

(** The batches of [k] presses of the "generate more" button, from a
    visible count, and the visible count they leave. *)
Fixpoint generate_more_rounds (k : nat) (visibleCount : nat)
    (orderedConfigs : list StyleConfig) : nat * list (list StyleConfig) :=
  match k with
  | O => (visibleCount, [])
  | S k =>
      let '(v, batch) := VendorMode.handleGenerateMore visibleCount orderedConfigs in
      let '(v', batches) := generate_more_rounds k v orderedConfigs in
      (v', batch :: batches)
  end.

(** ** Images sent to the server *)

(** A request carries the compression of a data URL. *)
Definition carries_data_url (b : ApiImages.Browser) (r : ApiImages.Request)
  : Prop :=
  exists d,
    Js.startsWith d "data:" = true
    /\ (ApiImages.image r = ApiImages.compressImage b d 600 70
        \/ ApiImages.image r = ApiImages.compressDesignImage b d 600 70).

Fixpoint padding (n : nat) : string :=
  match n with
  | O => ""
  | S n => String "A" (padding n)
  end.

(** A design as [generateArt] returns it. *)
Definition generated_image : string :=
  ("data:image/jpeg;base64," ++ padding 600)%string.

Definition generated_style : GeneratedStyle :=
  {| styleId := "neon"; imageUrl := Some generated_image; status := Done;
     error := None |}.

(** A page where everything works. *)
Definition working_browser : ApiImages.Browser :=
  {| ApiImages.fetch_blob := fun u => Some u;
     ApiImages.readAsDataURL := fun blob => Normal generated_image;
     ApiImages.draw_on_canvas := fun u => Normal generated_image;
     ApiImages.compressImage := fun s _ _ => s;
     ApiImages.compressDesignImage := fun s _ _ => s;
     ApiImages.post := fun r => Normal (ApiImages.image r) |}.

Definition no_options : ApiImages.MockupOptions :=
  {| ApiImages.productType := None; ApiImages.mo_color := None;
     ApiImages.colorName := None; ApiImages.carDescription := None;
     ApiImages.gender := None; ApiImages.ageRange := None;
     ApiImages.background := None |}.

(** ** The local session store: a session with full images *)

(** A car as the vendor view holds it after a generation: the photo, a
    thumbnail, one design as [generateArt] returned it and one that is a
    remote reference. *)
Definition heavy_car : CarSession :=
  {| car_id := "d"; photoBase64 := generated_image;
     photoThumbnail := Some generated_image;
     car_identity := Some toyota_supra_2021;
     styles := [ generated_style;
                 {| styleId := "retro"; imageUrl := Some "https://cdn/retro.jpg";
                    status := Done; error := None |};
                 {| styleId := "vector"; imageUrl := None;
                    status := Generating; error := None |} ];
     mockups := [ {| productId := "tshirt"; m_styleId := "neon";
                     m_imageUrl := Some generated_image; m_status := Done |} ];
     orders := []; car_createdAt := 1748772000000; shareUrl := None |}.

Definition heavy_session : EventSession :=
  {| ev_id := "ev1"; ev_name := "Cars & Coffee"; date := "2025-06-01";
     cars := [heavy_car]; ev_createdAt := 1748772000000 |}.

(** * Properties *)

(** ** The classifier and the ranker *)

Lemma categorizeVehicle_sample category :
  categorizeVehicle (sample_identity category) = category.
Proof. destruct category; vm_compute; reflexivity. Qed.

Lemma arr_includes_In l x : Js.arr_includes l x = true -> In x l.
Proof.
  unfold Js.arr_includes. rewrite existsb_exists.
  intros [y [Hy Heq]]. apply String.eqb_eq in Heq. now subst.
Qed.

(** C1. For every vehicle identity the ranking is a permutation of the
    12-entry catalog: same length, every catalog id exactly once, no id
    twice; and each of the 7 categories is the category of some identity,
    so that every row of the priority table is covered. *)
Theorem getPrioritizedStyles_permutation :
  (forall identity : CarIdentity,
      getPrioritizedStyles identity ≡ₚ STYLE_CONFIGS
      /\ length (getPrioritizedStyles identity) = length STYLE_CONFIGS
      /\ length STYLE_CONFIGS = 12%nat
      /\ NoDup (map id (getPrioritizedStyles identity))
      /\ Forall (fun c => count_id (id c) (getPrioritizedStyles identity) = 1%nat)
           STYLE_CONFIGS)
  /\ Forall (fun category =>
               categorizeVehicle (sample_identity category) = category)
       all_categories.
Proof.
  split.
  - intros identity. unfold getPrioritizedStyles.
    generalize (categorizeVehicle identity).
    intros category.
    destruct category; apply (bool_decide_unpack _); vm_compute; exact I.
  - apply Forall_forall. intros category _. apply categorizeVehicle_sample.
Qed.

(** C7. The classifier is total: every identity gets one of the 7
    categories; an identity whose year does not parse is classified as
    the same identity with year 0; and the blank identity is [default]. *)
Theorem categorizeVehicle_total :
  (forall identity, categorizeVehicle identity ∈ all_categories)
  /\ (forall identity,
         Js.parseInt10 (year identity) = None ->
         categorizeVehicle identity = categorizeVehicle (with_year "0" identity))
  /\ (forall t c,
         categorizeVehicle
           {| year := ""; make := ""; model := ""; trim := t; color := c |}
         = DefaultCategory).
Proof.
  split; [| split].
  - intros identity. unfold all_categories.
    destruct (categorizeVehicle identity); set_solver.
  - intros identity Hnan. unfold categorizeVehicle, with_year; simpl.
    rewrite Hnan. reflexivity.
  - intros t c. reflexivity.
Qed.

Lemma categorizeVehicle_total_witness :
  categorizeVehicle (with_year "n/a" toyota_supra_2021)
  = categorizeVehicle (with_year "0" (with_year "n/a" toyota_supra_2021)).
Proof.
  apply (proj1 (proj2 categorizeVehicle_total)
           (with_year "n/a" toyota_supra_2021)).
  reflexivity.
Defined.

(** C8. A 2021 Toyota Supra meets the JDM make rule and the modern-sports
    conditions, and is classified [jdm]; more generally an identity whose
    make is a JDM make is [jdm] whatever its year and model, the make
    rule being tested before the modern-sports rule. *)
Theorem jdm_before_modern_sports :
  categorizeVehicle toyota_supra_2021 = Jdm
  /\ Js.arr_includes JDM_MAKES (normalized_make toyota_supra_2021) = true
  /\ (2010 <=? Js.or_zero (Js.parseInt10 (year toyota_supra_2021))) = true
  /\ existsb (fun m => Js.includes
                         (Js.trim (Js.toLowerCase (model toyota_supra_2021))) m)
       SPORTS_MODELS = true
  /\ (forall identity,
         Js.arr_includes JDM_MAKES (normalized_make identity) = true ->
         categorizeVehicle identity = Jdm).
Proof.
  do 4 (split; [vm_compute; reflexivity |]).
  intros identity H. unfold categorizeVehicle.
  fold (normalized_make identity).
  rewrite H.
  assert (Hl : Js.arr_includes LOWRIDER_MAKES (normalized_make identity) = false).
  { apply arr_includes_In in H.
    repeat (destruct H as [<- | H]; [reflexivity |]). destruct H. }
  rewrite Hl, andb_false_r. reflexivity.
Qed.

Lemma jdm_before_modern_sports_witness :
  categorizeVehicle toyota_supra_2021 = Jdm.
Proof.
  apply (proj2 (proj2 (proj2 (proj2 jdm_before_modern_sports)))).
  vm_compute. reflexivity.
Defined.

(** ** The local session store *)

Ltac run_eff :=
  repeat (cbn [fst snd] in * ||
          unfold after, outcome, bind, try_catch, ask, ret, throw, launch_sync,
            localStorage.setItem, localStorage.getItem, localStorage.removeItem,
            JSON.stringify, JSON.parse in * ).

Lemma startsWith_spec s p :
  Js.startsWith s p = true <-> exists rest, s = (p ++ rest)%string.
Proof.
  revert s. induction p as [| b p IH]; intros s; simpl.
  - split; [intros _; exists s; reflexivity | destruct s; reflexivity].
  - destruct s as [| a s].
    + split; [discriminate | intros [rest H]; discriminate].
    + change (Js.startsWith (String a s) (String b p))
        with (Ascii.eqb a b && Js.startsWith s p).
      rewrite andb_true_iff, IH. split.
      * intros [Hab [rest ->]]. apply Ascii.eqb_eq in Hab. subst.
        exists rest. reflexivity.
      * intros [rest H]. injection H as -> ->. split.
        -- apply Ascii.eqb_refl.
        -- exists rest. reflexivity.
Qed.

Lemma isLargeDataUrl_spec u :
  isLargeDataUrl u = true <-> data_url_over 500 u.
Proof.
  unfold isLargeDataUrl, data_url_over. destruct u as [s |].
  - destruct s as [| a s].
    + split; [discriminate |].
      intros [rest [H _]]. discriminate.
    + rewrite andb_true_iff, startsWith_spec, Z.ltb_lt. split.
      * intros [[rest Hs] Hlen]. exists rest. rewrite <- Hs.
        split; [reflexivity | lia].
      * intros [rest [Hs Hlen]].
        assert (Hs' : String a s = ("data:" ++ rest)%string) by congruence.
        rewrite Hs'. split; [exists rest; reflexivity | lia].
  - split; [discriminate | intros [rest [H _]]; discriminate].
Qed.

Lemma strip_image_ok u :
  image_ok u (Some (if isLargeDataUrl u then "" else or_empty u)).
Proof.
  unfold image_ok. split.
  - intros H. apply isLargeDataUrl_spec in H. rewrite H. reflexivity.
  - intros H. apply isLargeDataUrl_spec in H.
    destruct (isLargeDataUrl u) eqn:E.
    + discriminate H.
    + destruct u as [s |]; unfold or_empty in H;
        [congruence | discriminate H].
Qed.

Lemma small_thumbnail_cases t :
  small_thumbnail t = ""
  \/ (t = Some (small_thumbnail t)
      /\ Z.of_nat (String.length (small_thumbnail t)) < 15000).
Proof.
  unfold small_thumbnail. destruct t as [t |]; [| left; reflexivity].
  destruct (negb (t =? "")%string && (Z.of_nat (String.length t) <? 15000)) eqn:E.
  - right. apply andb_true_iff in E as [_ E]. apply Z.ltb_lt in E.
    split; [reflexivity | lia].
  - left. reflexivity.
Qed.

Lemma strip_car_ok car : car_persisted_ok car (strip_car car).
Proof.
  unfold car_persisted_ok, strip_car; simpl. split; [reflexivity |]. split.
  - destruct (small_thumbnail_cases (photoThumbnail car)) as [-> | [Ht Hlen]].
    + left. reflexivity.
    + right. exists (small_thumbnail (photoThumbnail car)). auto.
  - split.
    + induction (styles car); simpl; constructor; auto using strip_image_ok.
    + induction (mockups car); simpl; constructor; auto using strip_image_ok.
Qed.

Lemma blank_thumbnail_ok car pc :
  car_persisted_ok car pc -> car_persisted_ok car (blank_thumbnail pc).
Proof.
  unfold car_persisted_ok, blank_thumbnail; simpl.
  intros (Hp & _ & Hs & Hm). auto.
Qed.

Lemma first_write_ok session : persisted_ok session (first_write session).
Proof.
  unfold persisted_ok, first_write; simpl.
  rewrite length_map, firstn_all.
  induction (cars session); simpl; constructor; auto using strip_car_ok.
Qed.

Lemma retry_write_ok session : persisted_ok session (retry_write session).
Proof.
  unfold persisted_ok, retry_write; simpl.
  rewrite length_map, length_take, length_map.
  generalize 3%nat. induction (cars session) as [| car l IH]; intros n.
  - destruct n; constructor.
  - destruct n as [| n]; simpl; [constructor |].
    constructor; [apply blank_thumbnail_ok, strip_car_ok | apply IH].
Qed.

(** [saveEventSession], case by case on what the device accepts. *)
Lemma saveEventSession_run session w :
  let key := KEYS.EVENT_SESSION in
  let v1 := Json (first_write session) in
  let v2 := Json (retry_write session) in
  let sync w' := if signed_in w then add_sync session w' else w' in
  saveEventSession session w =
    (Normal tt,
     if accepts w (store w) key v1 then
       sync (upd_store (insert key v1) (OpSet key v1 true) w)
     else
       let w1 := upd_store (fun m => m) (OpSet key v1 false) w in
       if accepts w (store w) key v2 then
         sync (upd_store (insert key v2) (OpSet key v2 true) w1)
       else
         sync (upd_store (delete key) (OpRemove key)
                 (upd_store (fun m => m) (OpSet key v2 false) w1))).
Proof.
  unfold saveEventSession, first_write, retry_write. run_eff. simpl.
  destruct (accepts w (store w) _ (Json (with_cars session (map strip_car (cars session))))) eqn:E1.
  - unfold signed_in at 1; simpl. fold (signed_in w).
    destruct (signed_in w); reflexivity.
  - simpl.
    destruct (accepts w (store w) _ (Json (with_cars _ (map blank_thumbnail _)))) eqn:E2.
    + unfold signed_in at 1; simpl. fold (signed_in w).
      destruct (signed_in w); reflexivity.
    + unfold signed_in at 1; simpl. fold (signed_in w).
      destruct (signed_in w); reflexivity.
Qed.

Lemma save_pair session w :
  saveEventSession session w = (Normal tt, after (saveEventSession session) w).
Proof. unfold after. rewrite saveEventSession_run. reflexivity. Qed.

Lemma sync_oplog session (b : bool) w :
  oplog (if b then add_sync session w else w) = oplog w.
Proof. destruct b; reflexivity. Qed.

Lemma sync_store session (b : bool) w :
  store (if b then add_sync session w else w) = store w.
Proof. destruct b; reflexivity. Qed.

(** The list of cars is kept newest first. *)
Lemma addCarSession_newest_first w car s0 w0 :
  getEventSession w = (Normal s0, w0) ->
  outcome (addCarSession car) w = Normal (with_cars s0 (car :: cars s0)).
Proof.
  intros Hget. unfold outcome, addCarSession, bind. rewrite Hget.
  rewrite save_pair. reflexivity.
Qed.

(** C4. [saveEventSession] never throws. When the first write is refused
    for lack of room, exactly one more write is attempted, of the session
    cut to its first 3 cars (the list is kept newest first) with every
    thumbnail blank; when that one is refused too, the entry is removed. *)
Theorem saveEventSession_quota_ladder (w : World) (session : EventSession) :
  let key := KEYS.EVENT_SESSION in
  let w' := after (saveEventSession session) w in
  let retried := accepts w (store w) key (Json (retry_write session)) in
  outcome (saveEventSession session) w = Normal tt
  /\ (accepts w (store w) key (Json (first_write session)) = false ->
      oplog w' =
        (oplog w ++ [OpSet key (Json (first_write session)) false;
                     OpSet key (Json (retry_write session)) retried]
                 ++ (if retried then [] else [OpRemove key]))%list
      /\ store w' !! key =
           (if retried then Some (Json (retry_write session)) else None)
      /\ cars (retry_write session)
         = map blank_thumbnail (take 3 (cars (first_write session)))
      /\ map car_id (cars (retry_write session))
         = take 3 (map car_id (cars session))
      /\ Forall (fun c => photoThumbnail c = Some "")
           (cars (retry_write session))).
Proof.
  intros key w' retried. split.
  - unfold outcome. rewrite save_pair. reflexivity.
  - intros Hfull. subst w'. unfold after.
    rewrite saveEventSession_run. cbn zeta. fold key. rewrite Hfull.
    fold retried. cbn [snd].
    destruct retried; rewrite sync_oplog, sync_store; simpl;
      (split; [rewrite <- ?app_assoc; reflexivity |]);
      (split; [first [apply lookup_insert_eq | apply lookup_delete_eq] |]);
      (split; [reflexivity |]).
    all: split;
      [ unfold retry_write; simpl;
        rewrite map_map, <- !firstn_map, map_map; reflexivity
      | unfold retry_write; simpl; apply List.Forall_forall;
        intros c Hc; apply in_map_iff in Hc as [c0 [<- _]]; reflexivity ].
Qed.

Lemma saveEventSession_quota_ladder_witness :
  accepts tight_world (store tight_world) KEYS.EVENT_SESSION
    (Json (first_write four_cars)) = false
  /\ store (after (saveEventSession four_cars) tight_world) !! KEYS.EVENT_SESSION
     = Some (Json (retry_write four_cars))
  /\ map car_id (cars (retry_write four_cars)) = ["d"; "c"; "b"].
Proof.
  assert (Hfull : accepts tight_world (store tight_world) KEYS.EVENT_SESSION
                    (Json (first_write four_cars)) = false) by reflexivity.
  split; [exact Hfull |].
  destruct (saveEventSession_quota_ladder tight_world four_cars) as [_ H].
  destruct (H Hfull) as (_ & Hstore & _ & Hids & _).
  split; [exact Hstore | exact Hids].
Defined.


Lemma createNewEventSession_run w :
  createNewEventSession w =
    (Normal (fresh_session w), after (saveEventSession (fresh_session w)) w).
Proof.
  unfold createNewEventSession, generateId. run_eff.
  change (saveEventSession _ w) with (saveEventSession (fresh_session w) w).
  rewrite save_pair. reflexivity.
Qed.

Lemma getEventSession_run w :
  let key := KEYS.EVENT_SESSION in
  let w0 := upd_store (fun m => m) (OpGet key) w in
  getEventSession w =
    match store w !! key with
    | Some (Json s) =>
        if String.eqb (date s) (today w) then (Normal s, w0)
        else createNewEventSession w0
    | Some (Malformed "") => createNewEventSession w0
    | Some (Malformed _) =>
        createNewEventSession (upd_store (delete key) (OpRemove key) w0)
    | None => createNewEventSession w0
    end.
Proof.
  unfold getEventSession. run_eff. cbn zeta.
  destruct (store w !! KEYS.EVENT_SESSION) as [[s | raw] |]; simpl.
  - destruct (String.eqb (date s) (today w)); reflexivity.
  - destruct raw; reflexivity.
  - reflexivity.
Qed.

(** The calls [saveEventSession] makes, and what it leaves in the store. *)
Lemma saveEventSession_writes (w : World) (session : EventSession) :
  let key := KEYS.EVENT_SESSION in
  let w' := after (saveEventSession session) w in
  (exists ops, oplog w' = (oplog w ++ ops)%list
               /\ Forall (write_ok session) ops
               /\ existsb is_write ops = true)
  /\ (store w' !! key = None
      \/ exists s, store w' !! key = Some (Json s) /\ persisted_ok session s).
Proof.
  intros key w'. subst w'. unfold after.
  pose proof (first_write_ok session) as H1.
  pose proof (retry_write_ok session) as H2.
  rewrite saveEventSession_run. cbn zeta. fold key. cbn [snd].
  assert (Hw1 : write_ok session (OpSet key (Json (first_write session)) true)).
  { split; [reflexivity | eauto]. }
  assert (Hw1' : write_ok session (OpSet key (Json (first_write session)) false)).
  { split; [reflexivity | eauto]. }
  assert (Hw2 : forall b, write_ok session (OpSet key (Json (retry_write session)) b)).
  { split; [reflexivity | eauto]. }
  split.
  - destruct (accepts w (store w) key (Json (first_write session)));
      [| destruct (accepts w (store w) key (Json (retry_write session)))];
      rewrite sync_oplog; simpl.
    + exists [OpSet key (Json (first_write session)) true].
      split; [reflexivity | split; [| reflexivity]].
      constructor; [assumption | constructor].
    + exists [OpSet key (Json (first_write session)) false;
              OpSet key (Json (retry_write session)) true].
      split; [rewrite <- ?app_assoc; reflexivity | split; [| reflexivity]].
      constructor; [assumption |]. constructor; [apply Hw2 | constructor].
    + exists [OpSet key (Json (first_write session)) false;
              OpSet key (Json (retry_write session)) false; OpRemove key].
      split; [rewrite <- ?app_assoc; reflexivity | split; [| reflexivity]].
      constructor; [assumption |]. constructor; [apply Hw2 |].
      constructor; [exact I | constructor].
  - destruct (accepts w (store w) key (Json (first_write session)));
      [| destruct (accepts w (store w) key (Json (retry_write session)))];
      rewrite sync_store; simpl.
    + right. exists (first_write session).
      split; [apply lookup_insert_eq | assumption].
    + right. exists (retry_write session).
      split; [apply lookup_insert_eq | assumption].
    + left. apply lookup_delete_eq.
Qed.

Lemma strip_image_stripped u :
  image_stripped u (Some (if isLargeDataUrl u then "" else or_empty u)).
Proof.
  unfold image_stripped. destruct u as [s |]; [| reflexivity]. split.
  - intros H. apply isLargeDataUrl_spec in H. rewrite H. reflexivity.
  - intros H. destruct (isLargeDataUrl (Some s)) eqn:E; [| reflexivity].
    apply isLargeDataUrl_spec in E. contradiction.
Qed.

Lemma small_thumbnail_stripped t :
  thumbnail_stripped t (Some (small_thumbnail t)).
Proof.
  unfold thumbnail_stripped, small_thumbnail.
  destruct t as [t |]; [| reflexivity]. split; intros Hlen.
  - apply Z.ltb_lt in Hlen. rewrite Hlen, andb_true_r.
    destruct (String.eqb_spec t ""); [subst |]; reflexivity.
  - apply Z.ltb_ge in Hlen. rewrite Hlen, andb_false_r. reflexivity.
Qed.

Lemma strip_car_stripped car : car_stripped car (strip_car car).
Proof.
  unfold car_stripped, strip_car; cbn.
  do 6 (split; [reflexivity |]).
  split; [apply small_thumbnail_stripped |]. split.
  - induction (styles car) as [| s l IH]; cbn; constructor; [| exact IH].
    unfold style_stripped, strip_style; cbn.
    do 3 (split; [reflexivity |]). apply strip_image_stripped.
  - induction (mockups car) as [| m l IH]; cbn; constructor; [| exact IH].
    unfold mockup_stripped, strip_mockup; cbn.
    do 3 (split; [reflexivity |]). apply strip_image_stripped.
Qed.

Lemma first_write_stripped session :
  session_stripped session (first_write session).
Proof.
  unfold session_stripped, first_write; cbn.
  do 4 (split; [reflexivity |]).
  induction (cars session) as [| car l IH]; cbn; constructor;
    [apply strip_car_stripped | exact IH].
Qed.

(** C5. The first thing [saveEventSession] does, for every session and
    every device, is to call [setItem] on the session key with the
    stripped copy of the session: the same session and the same cars in
    the same order, where each car has an empty photo, its thumbnail if
    it has fewer than 15000 characters and a blank one otherwise, and
    its styles and mockups with their image blank if it was a data URL
    of more than 500 characters and unchanged otherwise. When the device
    accepts the write, that is the only call and the copy is what the
    store holds. Whatever else is written (the retry) and whatever is
    left under the key has no photo, no thumbnail of 15000 characters or
    more and no data URL of more than 500 characters. *)
Theorem saveEventSession_strips_images (w : World) (session : EventSession) :
  let key := KEYS.EVENT_SESSION in
  let w' := after (saveEventSession session) w in
  (exists stripped rest,
      oplog w'
      = (oplog w
         ++ OpSet key (Json stripped) (accepts w (store w) key (Json stripped))
            :: rest)%list
      /\ session_stripped session stripped
      /\ (accepts w (store w) key (Json stripped) = true ->
          rest = [] /\ store w' !! key = Some (Json stripped))
      /\ Forall (write_ok session) rest)
  /\ (store w' !! key = None
      \/ exists s, store w' !! key = Some (Json s) /\ persisted_ok session s)
  /\ persisted_ok session (first_write session)
  /\ persisted_ok session (retry_write session).
Proof.
  intros key w'. subst w'.
  destruct (saveEventSession_writes w session) as [_ Hstore].
  split; [| split; [exact Hstore |];
            split; [apply first_write_ok | apply retry_write_ok]].
  unfold after. rewrite saveEventSession_run. cbn zeta. fold key. cbn [snd].
  assert (Hw2 : forall b,
             write_ok session (OpSet key (Json (retry_write session)) b)).
  { intros b. split; [reflexivity |].
    exists (retry_write session). split; [reflexivity | apply retry_write_ok]. }
  exists (first_write session).
  destruct (accepts w (store w) key (Json (first_write session))) eqn:E1.
  - exists []. rewrite sync_oplog, sync_store. cbn.
    split; [reflexivity |]. split; [apply first_write_stripped |].
    split; [| constructor].
    intros _. split; [reflexivity | apply lookup_insert_eq].
  - destruct (accepts w (store w) key (Json (retry_write session))) eqn:E2.
    + exists [OpSet key (Json (retry_write session)) true].
      rewrite sync_oplog. cbn. rewrite <- app_assoc.
      split; [reflexivity |]. split; [apply first_write_stripped |].
      split; [discriminate |]. constructor; [apply Hw2 | constructor].
    + exists [OpSet key (Json (retry_write session)) false; OpRemove key].
      rewrite sync_oplog. cbn. rewrite <- !app_assoc.
      split; [reflexivity |]. split; [apply first_write_stripped |].
      split; [discriminate |].
      constructor; [apply Hw2 |]. constructor; [exact I | constructor].
Qed.

Lemma saveEventSession_strips_images_witness :
  exists stripped car,
    store (after (saveEventSession heavy_session) (roomy_world ∅))
      !! KEYS.EVENT_SESSION = Some (Json stripped)
    /\ cars stripped = [car]
    /\ photoBase64 car = ""
    /\ photoThumbnail car = Some generated_image
    /\ map imageUrl (styles car)
       = [Some ""; Some "https://cdn/retro.jpg"; Some ""]
    /\ map m_imageUrl (mockups car) = [Some ""].
Proof.
  destruct (saveEventSession_strips_images (roomy_world ∅) heavy_session)
    as ((stripped & rest & Hlog & _ & Hstored & _) & _).
  destruct (Hstored eq_refl) as [_ Hstore].
  assert (Hs : stripped = first_write heavy_session).
  { apply (f_equal (fun l => head l)) in Hlog.
    change (oplog (after (saveEventSession heavy_session) (roomy_world ∅)))
      with [OpSet KEYS.EVENT_SESSION (Json (first_write heavy_session)) true]
      in Hlog.
    cbn in Hlog. congruence. }
  exists stripped, (strip_car heavy_car).
  split; [exact Hstore |]. rewrite Hs.
  split; [reflexivity |]. split; [reflexivity |].
  split; [vm_compute; reflexivity |].
  split; vm_compute; reflexivity.
Defined.

Lemma fresh_session_upd f op w :
  fresh_session (upd_store f op w) = fresh_session w.
Proof. reflexivity. Qed.

Lemma save_fresh_store w :
  let w' := after (saveEventSession (fresh_session w)) w in
  store w' !! KEYS.EVENT_SESSION = Some (Json (fresh_session w))
  \/ store w' !! KEYS.EVENT_SESSION = None.
Proof.
  cbn zeta. unfold after. rewrite saveEventSession_run. cbn zeta. cbn [snd].
  change (first_write (fresh_session w)) with (fresh_session w).
  change (retry_write (fresh_session w)) with (fresh_session w).
  destruct (accepts w (store w) KEYS.EVENT_SESSION (Json (fresh_session w)));
    rewrite sync_store; simpl.
  - left. apply lookup_insert_eq.
  - right. apply lookup_delete_eq.
Qed.

(** C9. When the stored session text does not parse, [getEventSession]
    does not throw: it returns a fresh session (generated id, today's
    date, no car); the corrupted text is removed right after it was read
    (an empty text is not parsed, and is overwritten or removed by the
    save of the fresh session), and what is left under the key is the
    fresh session or nothing. *)
Theorem getEventSession_corrupted (w : World) (raw : string) :
  store w !! KEYS.EVENT_SESSION = Some (Malformed raw) ->
  let key := KEYS.EVENT_SESSION in
  let w' := after getEventSession w in
  outcome getEventSession w = Normal (fresh_session w)
  /\ outcome generateId w = Normal (ev_id (fresh_session w))
  /\ date (fresh_session w) = today w
  /\ cars (fresh_session w) = []
  /\ (raw <> "" ->
      exists rest, oplog w' = (oplog w ++ [OpGet key; OpRemove key] ++ rest)%list)
  /\ (store w' !! key = Some (Json (fresh_session w)) \/ store w' !! key = None).
Proof.
  intros Hraw key w'. subst w'. unfold outcome, after.
  rewrite getEventSession_run. cbn zeta. rewrite Hraw.
  split; [| split; [reflexivity | split; [reflexivity | split; [reflexivity |]]]].
  - destruct raw; rewrite createNewEventSession_run; reflexivity.
  - split.
    + intros Hne. destruct raw as [| a raw]; [congruence |].
      rewrite createNewEventSession_run. cbn [snd].
      rewrite fresh_session_upd.
      match goal with
      | |- context [after (saveEventSession ?s) ?w1] =>
          destruct (saveEventSession_writes w1 s) as [[ops [Hops _]] _]
      end.
      exists ops. rewrite Hops. simpl. rewrite <- !app_assoc. reflexivity.
    + destruct raw as [| a raw]; rewrite createNewEventSession_run; cbn [snd].
      * apply (save_fresh_store (upd_store (fun m => m) (OpGet key) w)).
      * apply (save_fresh_store
                 (upd_store (delete key) (OpRemove key)
                    (upd_store (fun m => m) (OpGet key) w))).
Qed.

Lemma getEventSession_corrupted_witness :
  outcome getEventSession corrupted_world = Normal (fresh_session corrupted_world)
  /\ store (after getEventSession corrupted_world) !! KEYS.EVENT_SESSION
     = Some (Json (fresh_session corrupted_world)).
Proof.
  assert (Hraw : store corrupted_world !! KEYS.EVENT_SESSION
                 = Some (Malformed "{cars:[")) by reflexivity.
  destruct (getEventSession_corrupted corrupted_world _ Hraw) as (Hout & _).
  split; [exact Hout | vm_compute; reflexivity].
Defined.

Lemma findIndex_spec {A} (p : A -> bool) (l : list A) :
  match findIndex p l with
  | Some idx =>
      exists x, l !! idx = Some x /\ p x = true
                /\ Forall (fun y => p y = false) (take idx l)
  | None => Forall (fun y => p y = false) l
  end.
Proof.
  induction l as [| a l IH]; simpl.
  - constructor.
  - destruct (p a) eqn:Ha.
    + exists a. repeat split; [assumption | constructor].
    + destruct (findIndex p l) as [idx |]; simpl.
      * destruct IH as (x & Hx & Hp & Hbefore).
        exists x. repeat split; [assumption .. |].
        constructor; assumption.
      * constructor; assumption.
Qed.

Lemma spread_same_unless_given car update :
  same_unless_given car update (spread car update).
Proof.
  unfold same_unless_given, spread; simpl.
  repeat split; intros ->; reflexivity.
Qed.

(** C10, amended. [updateCarSession] changes at most one car of the
    session that [getEventSession] gives: the first whose id is [carId],
    into which only the given fields are merged; in the session it
    returns the other cars are as they were. It then saves that session:
    when the device accepts the write, the store holds its stripped
    copy, in which the cars other than the updated one are the stripped
    copies of the cars read; when the device refuses, the store holds
    the first three cars with blank thumbnails, or nothing. When no car
    has that id, it returns the session that [getEventSession] gave and
    makes no call of its own: the world is the one [getEventSession]
    left, so that a stored session of today is returned, the store is
    unmodified and the only call on [localStorage] is the read. *)
Theorem updateCarSession_frame (w : World) (carId : string)
    (update : CarSessionUpdate) (s0 : EventSession) (w0 : World) :
  getEventSession w = (Normal s0, w0) ->
  let key := KEYS.EVENT_SESSION in
  match findIndex (has_id carId) (cars s0) with
  | Some idx =>
      exists car,
        cars s0 !! idx = Some car
        /\ car_id car = carId
        /\ Forall (fun c => has_id carId c = false) (take idx (cars s0))
        /\ same_unless_given car update (spread car update)
        /\ let s1 := with_cars s0 (<[idx := spread car update]> (cars s0)) in
           let w' := after (saveEventSession s1) w0 in
           updateCarSession carId update w = (Normal s1, w')
           /\ cars s1 !! idx = Some (spread car update)
           /\ length (cars s1) = length (cars s0)
           /\ (forall j, j <> idx -> cars s1 !! j = cars s0 !! j)
           /\ (accepts w0 (store w0) key (Json (first_write s1)) = true ->
               store w' !! key = Some (Json (first_write s1))
               /\ length (cars (first_write s1)) = length (cars s0)
               /\ forall j, j <> idx ->
                     cars (first_write s1) !! j = strip_car <$> cars s0 !! j)
           /\ (accepts w0 (store w0) key (Json (first_write s1)) = false ->
               store w' !! key
               = if accepts w0 (store w0) key (Json (retry_write s1))
                 then Some (Json (retry_write s1)) else None)
  | None =>
      updateCarSession carId update w = (Normal s0, w0)
      /\ (forall s, store w !! key = Some (Json s) ->
                    date s = today w ->
                    s0 = s
                    /\ store w0 = store w
                    /\ syncs w0 = syncs w
                    /\ oplog w0 = (oplog w ++ [OpGet key])%list)
  end.
Proof.
  intros Hget key.
  pose proof (findIndex_spec (has_id carId) (cars s0)) as Hfind.
  unfold updateCarSession, bind. rewrite Hget. fold (has_id carId).
  destruct (findIndex (has_id carId) (cars s0)) as [idx |].
  - destruct Hfind as (car & Hcar & Hid & Hbefore).
    exists car. split; [assumption |].
    split; [apply String.eqb_eq; exact Hid |].
    split; [assumption |].
    split; [apply spread_same_unless_given |].
    cbn zeta. rewrite Hcar. rewrite save_pair. unfold ret.
    split; [reflexivity |].
    split; [cbn; apply list_lookup_insert_eq; eapply lookup_lt_Some; eassumption |].
    split; [cbn; apply length_insert |].
    split; [intros j Hj; cbn; apply list_lookup_insert_ne; congruence |].
    unfold after. rewrite saveEventSession_run. cbn zeta. fold key. cbn [snd].
    split.
    + intros Hacc. rewrite Hacc, sync_store. cbn [store upd_store].
      split; [apply lookup_insert_eq |].
      unfold first_write. cbn [cars with_cars].
      split; [rewrite length_map; apply length_insert |].
      intros j Hj. rewrite list_lookup_fmap, list_lookup_insert_ne by congruence.
      reflexivity.
    + intros Hacc. rewrite Hacc.
      destruct (accepts w0 (store w0) key (Json (retry_write _)));
        rewrite sync_store; cbn [store upd_store].
      * apply lookup_insert_eq.
      * apply lookup_delete_eq.
  - split; [reflexivity |].
    intros s Hs Hdate. rewrite getEventSession_run in Hget. cbn zeta in Hget.
    fold key in Hget. rewrite Hs in Hget.
    apply String.eqb_eq in Hdate. rewrite Hdate in Hget.
    injection Hget as <- <-. repeat split.
Qed.

Lemma updateCarSession_frame_witness :
  (exists s1,
      outcome (updateCarSession "c" (only_styles [])) todays_world = Normal s1
      /\ map car_id (cars s1) = ["d"; "c"; "b"; "a"]
      /\ map (fun c => length (styles c)) (cars s1) = [1; 0; 1; 1]%nat)
  /\ store (after (updateCarSession "zzz" no_update) todays_world)
     = store todays_world.
Proof.
  assert (Hget : getEventSession todays_world
                 = (Normal (first_write four_cars),
                    upd_store (fun m => m) (OpGet KEYS.EVENT_SESSION) todays_world))
    by reflexivity.
  split.
  - pose proof (updateCarSession_frame todays_world "c" (only_styles []) _ _ Hget)
      as H.
    change (findIndex (has_id "c") (cars (first_write four_cars)))
      with (Some 1%nat) in H.
    destruct H as (car & Hcar & _ & _ & _ & Hrun & _).
    change (cars (first_write four_cars) !! 1%nat)
      with (Some (strip_car (sample_car "c"))) in Hcar.
    injection Hcar as <-.
    eexists. unfold outcome. rewrite Hrun. split; [reflexivity |].
    split; reflexivity.
  - pose proof (updateCarSession_frame todays_world "zzz" no_update _ _ Hget)
      as H.
    change (findIndex (has_id "zzz") (cars (first_write four_cars)))
      with (@None nat) in H.
    destruct H as [Hrun _]. unfold after. rewrite Hrun. reflexivity.
Defined.

(** C10 as stated fails: yesterday's session is in the store, no car of
    it (nor of the session that is returned) has the id asked for, and
    yet the stored session is replaced and a write is made, by the fresh
    session that [getEventSession] starts. *)
Lemma updateCarSession_unknown_car_still_saves :
  let key := KEYS.EVENT_SESSION in
  let w' := after (updateCarSession "zzz" no_update) stale_world in
  store stale_world !! key = Some (Json yesterday)
  /\ findIndex (has_id "zzz") (cars yesterday) = None
  /\ outcome (updateCarSession "zzz" no_update) stale_world
     = Normal (fresh_session stale_world)
  /\ findIndex (has_id "zzz") (cars (fresh_session stale_world)) = None
  /\ store w' !! key = Some (Json (fresh_session stale_world))
  /\ store w' !! key <> store stale_world !! key
  /\ new_ops stale_world w'
     = [OpGet key; OpSet key (Json (fresh_session stale_world)) true].
Proof.
  cbn zeta. repeat split; try (vm_compute; reflexivity).
  vm_compute. discriminate.
Qed.

(** ** Remote hydration *)

Lemma loadEventFromSupabase_never_throws w :
  exists r, outcome loadEventFromSupabase w = Normal r.
Proof.
  unfold outcome, loadEventFromSupabase, bind, ask. cbn [fst snd].
  destruct (supabase w) as [db |]; [| eexists; reflexivity].
  destruct (signed_in w); [| eexists; reflexivity].
  unfold try_catch.
  match goal with
  | |- context [match ?body with _ => _ end] => destruct body as [[r | e] w']
  end; eexists; reflexivity.
Qed.

(** When the read of the events or of the cars fails, nothing is found. *)
Lemma loadEventFromSupabase_events_failure w db :
  supabase w = Some db ->
  read_ok (select_events db (default "" (userId w)) (today w)) = false ->
  outcome loadEventFromSupabase w = Normal None.
Proof.
  intros Hdb Hev.
  unfold outcome, loadEventFromSupabase, bind, ask. cbn [fst snd].
  rewrite Hdb. destruct (signed_in w); [| reflexivity].
  unfold try_catch, await, ret, throw. cbn [fst snd].
  destruct (select_events db _ _) as [[[| ev evs] |] [err |] | msg];
    try reflexivity; discriminate.
Qed.

Lemma loadEventFromSupabase_cars_failure w db ev evs :
  supabase w = Some db ->
  select_events db (default "" (userId w)) (today w)
  = Reply (Some (ev :: evs)) None ->
  read_ok (select_cars db (er_id ev)) = false ->
  outcome loadEventFromSupabase w = Normal None.
Proof.
  intros Hdb Hev Hcars.
  unfold outcome, loadEventFromSupabase, bind, ask. cbn [fst snd].
  rewrite Hdb. destruct (signed_in w); [| reflexivity].
  unfold try_catch, await, ret, throw. cbn [fst snd].
  rewrite Hev. cbn [fst snd].
  destruct (select_cars db _) as [[cs |] [err |] | msg];
    try reflexivity; discriminate.
Qed.

(** C6, at the failing input. The read of the styles reports an error
    (the cars and the events were read): the function does not return
    null but a session whose car has lost its styles, and writes that
    session over the local one; with the styles read the same car has its
    style. *)
Theorem loadEventFromSupabase_styles_error_partial :
  select_styles styles_down_db ["car1"]
  = Reply None (Some "upstream request timeout")
  /\ (exists s,
         outcome loadEventFromSupabase (signed_in_world styles_down_db)
         = Normal (Some s)
         /\ map car_id (cars s) = ["car1"]
         /\ map styles (cars s) = [[]]
         /\ store (after loadEventFromSupabase (signed_in_world styles_down_db))
              !! KEYS.EVENT_SESSION = Some (Json s))
  /\ (exists s,
         outcome loadEventFromSupabase (signed_in_world healthy_db)
         = Normal (Some s)
         /\ map (fun c => map styleId (styles c)) (cars s) = [["japanese"]]).
Proof.
  split; [reflexivity |]. split.
  - eexists. split; [vm_compute; reflexivity |].
    split; [reflexivity |]. split; [reflexivity |].
    vm_compute. reflexivity.
  - eexists. split; [vm_compute; reflexivity |]. reflexivity.
Qed.

(** ** The orchestrator *)

Lemma window_of_even n : (n mod 2 = 0)%nat -> Api.window_of n = n.
Proof. unfold Api.window_of, Api.MAX_CONCURRENT. intros ->. lia. Qed.

Lemma succ_even_mod n : (n mod 2 = 0)%nat -> (S n mod 2 = 1)%nat.
Proof.
  intros H. pose proof (Nat.div_mod_eq n 2) as Hn.
  replace (S n) with (1 + (n / 2) * 2)%nat by lia.
  rewrite Nat.Div0.mod_add. reflexivity.
Qed.

Lemma window_of_odd n : (n mod 2 = 0)%nat -> Api.window_of (S n) = n.
Proof.
  intros H. unfold Api.window_of, Api.MAX_CONCURRENT.
  rewrite (succ_even_mod n H). lia.
Qed.

Lemma plus2_even n : (n mod 2 = 0)%nat -> ((n + 2) mod 2 = 0)%nat.
Proof.
  intros H. replace (n + 2)%nat with (n + 1 * 2)%nat by lia.
  rewrite Nat.Div0.mod_add. exact H.
Qed.

Lemma half_plus2 n : (n mod 2 = 0 -> (n + 2) / 2 = n / 2 + 1)%nat.
Proof.
  intros _. replace (n + 2)%nat with (n + 1 * 2)%nat by lia.
  rewrite Nat.div_add by lia. reflexivity.
Qed.

Lemma half_succ n : (n mod 2 = 0 -> S n / 2 = n / 2)%nat.
Proof.
  intros H. pose proof (Nat.div_mod_eq n 2) as Hn. rewrite H in Hn.
  replace (S n) with ((n / 2) * 2 + 1)%nat by lia.
  rewrite Nat.div_add_l by lia. cbn. lia.
Qed.

Lemma settled_in_cons e h m :
  Api.settled_in h m = true -> Api.settled_in (e :: h) m = true.
Proof. unfold Api.settled_in. simpl. intros ->. apply orb_true_r. Qed.

Lemma settled_in_app pre h m :
  Api.settled_in h m = true -> Api.settled_in (pre ++ h) m = true.
Proof.
  intros H. induction pre as [| e pre IH]; [exact H |].
  apply settled_in_cons, IH.
Qed.

Lemma consecutive_windows_S k :
  consecutive_windows (k + 1)
  = (consecutive_windows k ++ [(k * Api.MAX_CONCURRENT)%nat])%list.
Proof.
  unfold consecutive_windows. rewrite seq_app, map_app. reflexivity.
Qed.

(** What the callbacks that a settling call logs add to a reading of the
    history. *)
Lemma callbacks_app_callbacks evs h :
  Forall (fun e => Api.is_callback e = true) evs ->
  Api.callbacks (evs ++ h) = (evs ++ Api.callbacks h)%list.
Proof.
  unfold Api.callbacks. induction 1 as [| e l He _ IH]; [reflexivity |].
  cbn [app List.filter]. rewrite He, IH. reflexivity.
Qed.

Lemma calls_app_callbacks evs h :
  Forall (fun e => Api.is_callback e = true) evs ->
  Api.calls (evs ++ h) = Api.calls h.
Proof.
  induction 1 as [| e l He _ IH]; [reflexivity |].
  destruct e; try discriminate He; exact IH.
Qed.

Lemma settlements_app_callbacks evs h :
  Forall (fun e => Api.is_callback e = true) evs ->
  Api.settlements (evs ++ h) = Api.settlements h.
Proof.
  induction 1 as [| e l He _ IH]; [reflexivity |].
  destruct e; try discriminate He; exact IH.
Qed.

Lemma windows_app_callbacks evs h :
  Forall (fun e => Api.is_callback e = true) evs ->
  Api.windows (evs ++ h) = Api.windows h.
Proof.
  induction 1 as [| e l He _ IH]; [reflexivity |].
  destruct e; try discriminate He; exact IH.
Qed.

Lemma completions_app_callbacks evs h :
  Forall (fun e => Api.is_callback e = true) evs ->
  Api.completions (evs ++ h) = Api.completions h.
Proof.
  induction 1 as [| e l He _ IH]; [reflexivity |].
  destruct e; try discriminate He; exact IH.
Qed.

Lemma finished_members_cons t tasks :
  finished_members (t :: tasks)
  = match t with
    | Api.Finished n config _ => (n, config) :: finished_members tasks
    | _ => finished_members tasks
    end.
Proof. destruct t; reflexivity. Qed.

Lemma batch_calls_cons t tasks :
  batch_calls (t :: tasks)
  = match t with
    | Api.Calling n config | Api.Finished n config _ =>
        (n, config) :: batch_calls tasks
    | Api.Delayed _ _ _ => batch_calls tasks
    end.
Proof. destruct t; reflexivity. Qed.

Lemma finished_members_insert k n config fulfilled tasks :
  tasks !! k = Some (Api.Calling n config) ->
  finished_members (<[k := Api.Finished n config fulfilled]> tasks)
  ≡ₚ (n, config) :: finished_members tasks.
Proof.
  revert k. induction tasks as [| t tasks IH]; intros k Hk; [discriminate |].
  destruct k as [| k]; cbn in Hk.
  - injection Hk as ->. reflexivity.
  - change (<[S k := Api.Finished n config fulfilled]> (t :: tasks))
      with (t :: <[k := Api.Finished n config fulfilled]> tasks).
    rewrite !finished_members_cons.
    specialize (IH k Hk).
    destruct t; [exact IH | exact IH |].
    rewrite IH. apply perm_swap.
Qed.

Lemma batch_calls_insert k n config fulfilled tasks :
  tasks !! k = Some (Api.Calling n config) ->
  batch_calls (<[k := Api.Finished n config fulfilled]> tasks)
  = batch_calls tasks.
Proof.
  revert k. induction tasks as [| t tasks IH]; intros k Hk; [discriminate |].
  destruct k as [| k]; cbn in Hk.
  - injection Hk as ->. reflexivity.
  - change (<[S k := Api.Finished n config fulfilled]> (t :: tasks))
      with (t :: <[k := Api.Finished n config fulfilled]> tasks).
    rewrite !batch_calls_cons.
    specialize (IH k Hk). destruct t; rewrite IH; reflexivity.
Qed.

Section Orchestration.

Variable identity : CarIdentity.
Variable styleConfigs : list StyleConfig.
Variable referenceImage : option string.
Variable generateArt : CarIdentity -> StyleConfig -> option string -> Api.Settlement.
Variable onStyleComplete : option (SnapMerchStyle -> string -> Api.Outcome).
Variable onStyleError : option (SnapMerchStyle -> option string -> Api.Outcome).

Local Abbreviation step :=
  (Api.step identity styleConfigs referenceImage generateArt onStyleComplete
     onStyleError).
Local Abbreviation run :=
  (Api.run identity styleConfigs referenceImage generateArt onStyleComplete
     onStyleError).
Local Abbreviation enter_loop := (Api.enter_loop styleConfigs).
Local Abbreviation settlement_of :=
  (fun config => generateArt identity config referenceImage).
Local Abbreviation inv :=
  (Inv identity styleConfigs referenceImage generateArt onStyleComplete
     onStyleError).
Local Abbreviation b_ok := (batch_ok styleConfigs).
Local Abbreviation hist_ok :=
  (history_ok identity styleConfigs referenceImage generateArt).
Local Abbreviation ev_ok :=
  (event_ok identity styleConfigs referenceImage generateArt).
Local Abbreviation cb_owed :=
  (callbacks_owed identity referenceImage generateArt onStyleComplete
     onStyleError).
Local Abbreviation all_owed :=
  (owed identity referenceImage generateArt onStyleComplete onStyleError).
Local Abbreviation with_s := (with_settlement identity referenceImage generateArt).
Local Abbreviation settled_reqs := (settled_requests styleConfigs).

Lemma callbacks_owed_callbacks n config :
  Forall (fun e => Api.is_callback e = true /\ request_of e = n)
    (cb_owed n config).
Proof.
  unfold callbacks_owed.
  destruct (generateArt identity config referenceImage);
    [destruct onStyleComplete as [complete |];
     [destruct (complete _ _) as [| [message |]] |] |];
    destruct onStyleError; repeat constructor.
Qed.

Lemma callbacks_owed_is_callback n config :
  Forall (fun e => Api.is_callback e = true) (cb_owed n config).
Proof.
  eapply Forall_impl; [apply callbacks_owed_callbacks |].
  intros e [H _]. exact H.
Qed.

(** The end of the async arrow function, spelled out. *)
Lemma resume_spec n config results :
  exists fulfilled,
    Api.resume identity referenceImage generateArt onStyleComplete
      onStyleError n config results
    = (match settlement_of config with
       | Api.Resolves imageUrl => <[id config := imageUrl]> results
       | Api.Rejects _ => results
       end,
       (cb_owed n config ++ [Api.CallSettled n config (settlement_of config)])%list,
       fulfilled).
Proof.
  unfold Api.resume, Api.try_block, Api.catch_block, callbacks_owed.
  destruct (generateArt identity config referenceImage);
    [destruct onStyleComplete as [complete |];
     [destruct (complete _ _) as [| [message |]] |] |];
    destruct onStyleError as [report |];
    try destruct (report _ _); eexists; reflexivity.
Qed.

(** The synchronous part of an iteration, spelled out. *)
Lemma enter_loop_some i0 c0 st :
  styleConfigs !! i0 = Some c0 ->
  enter_loop i0 st =
    {| Api.time_now := Api.time_now st;
       Api.i := i0;
       Api.batchPromises :=
         Api.Calling i0 c0 ::
         match styleConfigs !! S i0 with
         | Some c1 => [Api.Delayed (S i0) c1 (Api.time_now st + 500)]
         | None => []
         end;
       Api.results := Api.results st;
       Api.history :=
         Api.CallIssued i0 c0 (Api.time_now st)
         :: Api.BatchStart i0 (Api.time_now st) :: Api.history st;
       Api.returned := false |}.
Proof.
  intros H0. unfold Api.enter_loop, Api.MAX_CONCURRENT.
  pose proof (lookup_lt_Some _ _ _ H0) as Hlt.
  apply Nat.ltb_lt in Hlt. rewrite Hlt.
  rewrite (drop_S _ _ _ H0). cbn [take].
  destruct (styleConfigs !! S i0) as [c1 |] eqn:H1.
  - rewrite (drop_S _ _ _ H1). cbn [take imap Nat.ltb Nat.leb app].
    unfold compose. rewrite Nat.add_0_r, Nat.add_1_r. reflexivity.
  - rewrite (drop_ge styleConfigs (S i0)) by (apply lookup_ge_None; exact H1).
    cbn [take imap Nat.ltb Nat.leb app]. rewrite Nat.add_0_r. reflexivity.
Qed.

Lemma enter_loop_none i0 st :
  styleConfigs !! i0 = None ->
  enter_loop i0 st =
    {| Api.time_now := Api.time_now st; Api.i := i0; Api.batchPromises := [];
       Api.results := Api.results st; Api.history := Api.history st;
       Api.returned := true |}.
Proof.
  intros H0. unfold Api.enter_loop.
  apply lookup_ge_None in H0.
  destruct (i0 <? length styleConfigs)%nat eqn:E; [| reflexivity].
  apply Nat.ltb_lt in E. lia.
Qed.

Lemma take_two_more i0 c0 :
  styleConfigs !! i0 = Some c0 ->
  take (i0 + 2) styleConfigs =
    (take i0 styleConfigs ++ c0 ::
       match styleConfigs !! S i0 with
       | Some c1 => [c1]
       | None => []
       end)%list.
Proof.
  intros H0. replace (i0 + 2)%nat with (S (S i0)) by lia.
  destruct (styleConfigs !! S i0) as [c1 |] eqn:H1.
  - rewrite (take_S_r _ _ _ H1), (take_S_r _ _ _ H0), <- app_assoc.
    reflexivity.
  - rewrite (take_ge styleConfigs (S (S i0)))
      by (apply lookup_ge_None in H1; lia).
    rewrite <- (take_ge styleConfigs (S i0)) at 1
      by (apply lookup_ge_None in H1; lia).
    apply take_S_r. exact H0.
Qed.

(** The requests of a batch that is over, added to those before it. *)
Lemma indexed_two_more i0 c0 :
  styleConfigs !! i0 = Some c0 ->
  indexed (take (i0 + 2) styleConfigs) =
    (indexed (take i0 styleConfigs) ++ (i0, c0) ::
       match styleConfigs !! S i0 with
       | Some c1 => [(S i0, c1)]
       | None => []
       end)%list.
Proof.
  intros H0. pose proof (lookup_lt_Some _ _ _ H0) as Hlt.
  rewrite (take_two_more _ _ H0). unfold indexed.
  rewrite imap_app, length_take_le by lia.
  destruct (styleConfigs !! S i0); cbn; unfold compose;
    rewrite ?Nat.add_0_r, ?Nat.add_1_r; reflexivity.
Qed.

Lemma enter_loop_inv i0 st :
  hist_ok (Api.history st) ->
  Api.results st = list_to_map (Api.completions (Api.history st)) ->
  (i0 mod 2 = 0)%nat ->
  (i0 <= length styleConfigs + 1)%nat ->
  (forall m, (m < i0)%nat -> (m < length styleConfigs)%nat ->
             Api.settled_in (Api.history st) m = true) ->
  Api.callbacks (Api.history st) ≡ₚ all_owed (indexed (take i0 styleConfigs)) ->
  Api.settlements (Api.history st)
  ≡ₚ map with_s (indexed (take i0 styleConfigs)) ->
  Api.calls (Api.history st) = indexed (take i0 styleConfigs) ->
  Api.windows (Api.history st) = consecutive_windows (i0 / 2) ->
  inv (enter_loop i0 st).
Proof.
  intros Hh Hr He Hle Hs Hcb Hst Hc Hw.
  assert (Hi0 : (i0 / 2 * Api.MAX_CONCURRENT)%nat = i0).
  { unfold Api.MAX_CONCURRENT. pose proof (Nat.div_mod_eq i0 2). lia. }
  destruct (styleConfigs !! i0) as [c0 |] eqn:H0.
  - rewrite (enter_loop_some _ _ _ H0).
    pose proof (lookup_lt_Some _ _ _ H0) as Hlt.
    assert (Hnone : forall tail : list Api.Task,
               finished_members
                 (Api.Calling i0 c0 ::
                  match styleConfigs !! S i0 with
                  | Some c1 => [Api.Delayed (S i0) c1 (Api.time_now st + 500)]
                  | None => tail
                  end) = finished_members tail
               \/ finished_members
                    (Api.Calling i0 c0 ::
                     match styleConfigs !! S i0 with
                     | Some c1 => [Api.Delayed (S i0) c1 (Api.time_now st + 500)]
                     | None => tail
                     end) = []).
    { intros tail. destruct (styleConfigs !! S i0); [right | left]; reflexivity. }
    assert (Hfm : finished_members
                    (Api.Calling i0 c0 ::
                     match styleConfigs !! S i0 with
                     | Some c1 => [Api.Delayed (S i0) c1 (Api.time_now st + 500)]
                     | None => []
                     end) = []).
    { destruct (Hnone []) as [H | H]; exact H. }
    constructor;
      cbn [Api.history Api.results Api.i Api.batchPromises Api.returned];
      unfold settled_requests;
      cbn [Api.history Api.results Api.i Api.batchPromises Api.returned];
      rewrite ?Hfm, ?app_nil_r.
    + cbn [history_ok]. split; [| split; [| exact Hh]].
      * cbn [event_ok]. split; [exact H0 |]. split.
        -- intros m Hm. rewrite (window_of_even _ He) in Hm.
           apply settled_in_cons, Hs; lia.
        -- rewrite (window_of_even _ He), Nat.eqb_refl. eexists. reflexivity.
      * cbn [event_ok]. split; [exact He |]. split; [exact Hlt |].
        intros m Hm. apply Hs; lia.
    + exact Hr.
    + exact He.
    + intros m Hm Hm'. do 2 apply settled_in_cons. apply Hs; assumption.
    + exact Hcb.
    + exact Hst.
    + cbn [Api.calls]. rewrite Hc.
      destruct (styleConfigs !! S i0); reflexivity.
    + cbn [Api.windows]. rewrite Hw, consecutive_windows_S, Hi0. reflexivity.
    + unfold batch_ok.
      cbn [Api.returned Api.history Api.i Api.batchPromises].
      exists (Api.time_now st), c0, (Api.Calling i0 c0).
      split; [right; left; reflexivity |]. split; [exact H0 |].
      split; [left; reflexivity |].
      destruct (styleConfigs !! S i0) as [c1 |]; [| reflexivity].
      eexists. split; [reflexivity | left; reflexivity].
  - rewrite (enter_loop_none _ _ H0).
    constructor;
      cbn [Api.history Api.results Api.i Api.batchPromises Api.returned];
      unfold settled_requests;
      cbn [Api.history Api.results Api.i Api.batchPromises Api.returned
           finished_members omap list_omap];
      rewrite ?app_nil_r, ?Nat.add_0_r; try assumption.
    unfold batch_ok. cbn [Api.returned Api.i Api.batchPromises].
    apply lookup_ge_None in H0. split; [lia | reflexivity].
Qed.

Lemma start_inv t0 : inv (Api.start styleConfigs t0).
Proof.
  unfold Api.start. apply enter_loop_inv; cbn; try reflexivity.
  - lia.
  - intros m Hm. lia.
Qed.

(** What a settling call changes. *)
Lemma step_settle k n config st st' :
  Api.returned st = false ->
  Api.batchPromises st !! k = Some (Api.Calling n config) ->
  step (Api.CallSettles k) st = Some st' ->
  exists fulfilled,
    Api.history st'
    = (cb_owed n config
       ++ Api.CallSettled n config (settlement_of config) :: Api.history st)%list
    /\ Api.batchPromises st'
       = <[k := Api.Finished n config fulfilled]> (Api.batchPromises st)
    /\ Api.i st' = Api.i st
    /\ Api.returned st' = false
    /\ Api.time_now st' = Api.time_now st
    /\ Api.results st'
       = match settlement_of config with
         | Api.Resolves imageUrl => <[id config := imageUrl]> (Api.results st)
         | Api.Rejects _ => Api.results st
         end.
Proof.
  intros Hret Hk Hstep. unfold Api.step in Hstep.
  rewrite Hret, Hk in Hstep.
  destruct (resume_spec n config (Api.results st)) as [fulfilled Hres].
  rewrite Hres in Hstep. injection Hstep as <-.
  exists fulfilled. cbn. rewrite <- app_assoc. repeat split; reflexivity.
Qed.

Lemma step_timer k n config wake st st' :
  Api.returned st = false ->
  Api.batchPromises st !! k = Some (Api.Delayed n config wake) ->
  step (Api.TimerFires k) st = Some st' ->
  (wake <= Api.time_now st)%nat
  /\ st' = {| Api.time_now := Api.time_now st; Api.i := Api.i st;
              Api.batchPromises :=
                <[k := Api.Calling n config]> (Api.batchPromises st);
              Api.results := Api.results st;
              Api.history :=
                Api.CallIssued n config (Api.time_now st) :: Api.history st;
              Api.returned := false |}.
Proof.
  intros Hret Hk Hstep. unfold Api.step in Hstep.
  rewrite Hret, Hk in Hstep.
  destruct (wake <=? Api.time_now st)%nat eqn:E; [| discriminate].
  apply Nat.leb_le in E. injection Hstep as <-. split; [exact E | reflexivity].
Qed.

Lemma first_ok_app pre h i0 c0 t :
  first_ok h i0 c0 t -> first_ok (pre ++ h) i0 c0 t.
Proof.
  intros [-> | (b & -> & H)]; [left; reflexivity |].
  right. exists b. split; [reflexivity | apply settled_in_app, H].
Qed.

Lemma second_ok_app pre h i0 c1 t0 t :
  second_ok h i0 c1 t0 t -> second_ok (pre ++ h) i0 c1 t0 t.
Proof.
  intros [-> | [-> | (b & -> & H)]];
    [left; reflexivity | right; left; reflexivity |].
  right; right. exists b. split; [reflexivity | apply settled_in_app, H].
Qed.

Lemma first_ok_cons e h i0 c0 t :
  first_ok h i0 c0 t -> first_ok (e :: h) i0 c0 t.
Proof. apply (first_ok_app [e]). Qed.

Lemma second_ok_cons e h i0 c1 t0 t :
  second_ok h i0 c1 t0 t -> second_ok (e :: h) i0 c1 t0 t.
Proof. apply (second_ok_app [e]). Qed.

(** The callbacks of a settling call are well placed in the history. *)
Lemma history_ok_callbacks evs n h :
  Forall (fun e => Api.is_callback e = true /\ request_of e = n) evs ->
  Api.settled_in h n = true ->
  hist_ok h ->
  hist_ok (evs ++ h).
Proof.
  intros Hevs Hn Hh. induction Hevs as [| e l [He Hreq] _ IH]; [exact Hh |].
  cbn [app history_ok]. split; [| exact IH].
  destruct e; try discriminate He; cbn in Hreq; subst; cbn [event_ok];
    apply settled_in_app, Hn.
Qed.

Lemma settled_in_settle evs n config settlement h :
  Api.settled_in (evs ++ Api.CallSettled n config settlement :: h) n = true.
Proof.
  apply settled_in_app. unfold Api.settled_in. cbn [existsb Api.settles].
  rewrite Nat.eqb_refl. reflexivity.
Qed.

Lemma step_inv a st st' : inv st -> step a st = Some st' -> inv st'.
Proof.
  intros [Hh Hr He Hs Hcb Hst Hc Hw Hb] Hstep.
  unfold batch_ok in Hb. unfold settled_requests in Hcb, Hst.
  destruct (Api.returned st) eqn:Hret;
    [unfold Api.step in Hstep; rewrite Hret in Hstep; discriminate |].
  destruct Hb as (t0 & c0 & T0 & Hstart & H0 & HT0 & Hrest).
  pose proof (lookup_lt_Some _ _ _ H0) as Hlt.
  destruct a as [d | k | k |].
  - (* time passes *)
    unfold Api.step in Hstep. rewrite Hret in Hstep. injection Hstep as <-.
    constructor; unfold settled_requests; cbn; try assumption.
    unfold batch_ok; cbn. exists t0, c0, T0. auto.
  - (* the stagger timer fires: only the second member can be waiting *)
    destruct (styleConfigs !! S (Api.i st)) as [c1 |] eqn:H1.
    + destruct Hrest as (T1 & Hbp & HT1).
      assert (Hk : k = 1%nat /\ T1 = Api.Delayed (S (Api.i st)) c1 (t0 + 500)).
      { unfold Api.step in Hstep. rewrite Hret, Hbp in Hstep.
        destruct k as [| [| k]]; cbn in Hstep.
        - destruct HT0 as [-> | (b & -> & _)]; discriminate.
        - destruct HT1 as [-> | [-> | (b & -> & _)]];
            [split; reflexivity | discriminate | discriminate].
        - discriminate. }
      destruct Hk as [-> ->].
      destruct (step_timer 1 _ _ _ st st' Hret
                  ltac:(rewrite Hbp; reflexivity) Hstep) as [Hwake ->].
      rewrite Hbp in *.
      assert (Hfm : finished_members
                      (<[1%nat := Api.Calling (S (Api.i st)) c1]>
                         [T0; Api.Delayed (S (Api.i st)) c1 (t0 + 500)])
                    = finished_members
                        [T0; Api.Delayed (S (Api.i st)) c1 (t0 + 500)]).
      { destruct HT0 as [-> | (b & -> & _)]; reflexivity. }
      constructor; unfold settled_requests;
        cbn [Api.history Api.results Api.i Api.batchPromises Api.returned];
        rewrite ?Hfm.
      * split; [| exact Hh]. cbn [event_ok].
        split; [exact H1 |]. split.
        -- intros m Hm. rewrite (window_of_odd _ He) in Hm. apply Hs; lia.
        -- rewrite (window_of_odd _ He).
           replace (S (Api.i st) =? Api.i st)%nat with false
             by (symmetry; apply Nat.eqb_neq; lia).
           split; [reflexivity |]. exists t0. split; assumption.
      * exact Hr.
      * exact He.
      * intros m Hm Hm'. apply settled_in_cons, Hs; assumption.
      * exact Hcb.
      * exact Hst.
      * cbn [Api.calls]. rewrite Hc.
        destruct HT0 as [-> | (b & -> & _)]; cbn; rewrite <- app_assoc;
          reflexivity.
      * exact Hw.
      * unfold batch_ok. cbn [Api.returned Api.history Api.i Api.batchPromises].
        exists t0, c0, T0. split; [right; exact Hstart |].
        split; [exact H0 |]. split; [apply first_ok_cons, HT0 |].
        rewrite H1. eexists. split; [reflexivity |]. right; left. reflexivity.
    + exfalso. unfold Api.step in Hstep. rewrite Hret, Hrest in Hstep.
      destruct k as [| k]; cbn in Hstep; [| discriminate].
      destruct HT0 as [-> | (b & -> & _)]; discriminate.
  - (* a call settles *)
    assert (Hk : exists n config,
               Api.batchPromises st !! k = Some (Api.Calling n config)).
    { unfold Api.step in Hstep. rewrite Hret in Hstep.
      destruct (Api.batchPromises st !! k) as [[| n config |] |];
        try discriminate. eauto. }
    destruct Hk as (n & config & Hk).
    destruct (step_settle k n config st st' Hret Hk Hstep)
      as (fulfilled & Hh' & Hbp' & Hi' & Hret' & _ & Hr').
    pose proof (callbacks_owed_is_callback n config) as Hevs.
    assert (Hn : styleConfigs !! n = Some config
                 /\ In (n, config) (Api.calls (Api.history st))).
    { rewrite Hc. split.
      - destruct (styleConfigs !! S (Api.i st)) as [c1 |] eqn:H1.
        + destruct Hrest as (T1 & Hbp & HT1). rewrite Hbp in Hk.
          destruct k as [| [| k]]; cbn in Hk; [| | discriminate].
          * destruct HT0 as [-> | (b & -> & _)]; congruence.
          * destruct HT1 as [-> | [-> | (b & -> & _)]]; congruence.
        + rewrite Hrest in Hk. destruct k as [| k]; cbn in Hk; [| discriminate].
          destruct HT0 as [-> | (b & -> & _)]; congruence.
      - apply in_or_app. right. unfold batch_calls.
        apply list_elem_of_In, list_elem_of_omap.
        exists (Api.Calling n config). split; [| reflexivity].
        apply list_elem_of_lookup. eauto. }
    destruct Hn as [Hn Hin].
    pose proof (settled_in_settle (cb_owed n config) n config
                  (settlement_of config) (Api.history st)) as Hsettled.
    pose proof (finished_members_insert k n config fulfilled _ Hk) as Hfm.
    assert (Hreqs : settled_reqs st' ≡ₚ (n, config) :: settled_reqs st).
    { unfold settled_requests. rewrite Hi', Hbp', Hfm.
      symmetry. apply Permutation_middle. }
    constructor; rewrite ?Hh', ?Hi', ?Hret'.
    + apply (history_ok_callbacks _ n).
      * apply callbacks_owed_callbacks.
      * unfold Api.settled_in. cbn [existsb Api.settles].
        rewrite Nat.eqb_refl. reflexivity.
      * split; [| exact Hh]. cbn [event_ok]. auto.
    + rewrite Hr', (completions_app_callbacks _ _ Hevs), Hr.
      destruct (settlement_of config); reflexivity.
    + exact He.
    + intros m Hm Hm'. apply settled_in_app, settled_in_cons, Hs; assumption.
    + rewrite (callbacks_app_callbacks _ _ Hevs).
      cbn [Api.callbacks List.filter Api.is_callback].
      fold (Api.callbacks (Api.history st)).
      rewrite Hcb. unfold owed at 2. rewrite Hreqs. reflexivity.
    + rewrite (settlements_app_callbacks _ _ Hevs). cbn [Api.settlements].
      rewrite Hst, Hreqs. cbn [map]. unfold with_settlement at 3.
      cbn [fst snd]. symmetry. apply Permutation_cons_append.
    + rewrite (calls_app_callbacks _ _ Hevs). cbn [Api.calls].
      rewrite Hc, Hbp', (batch_calls_insert _ _ _ _ _ Hk). reflexivity.
    + rewrite (windows_app_callbacks _ _ Hevs). cbn [Api.windows]. exact Hw.
    + unfold batch_ok. rewrite Hret', Hh', Hi', Hbp'.
      assert (Hstart' : In (Api.BatchStart (Api.i st) t0)
                          (cb_owed n config
                           ++ Api.CallSettled n config (settlement_of config)
                              :: Api.history st)).
      { apply in_or_app. right. right. exact Hstart. }
      destruct (styleConfigs !! S (Api.i st)) as [c1 |] eqn:H1.
      * destruct Hrest as (T1 & Hbp & HT1). rewrite Hbp in *.
        destruct k as [| [| k]]; cbn in Hk; [| | discriminate].
        -- injection Hk as ->.
           assert (n = Api.i st /\ config = c0) as [-> ->]
             by (destruct HT0 as [HT0 | (b & HT0 & _)];
                 [injection HT0; auto | discriminate]).
           exists t0, c0, (Api.Finished (Api.i st) c0 fulfilled).
           split; [exact Hstart' |]. split; [exact H0 |].
           split; [right; exists fulfilled; split;
                   [reflexivity | exact Hsettled] |].
           exists T1. split; [reflexivity |].
           apply second_ok_app, (second_ok_cons _ _ _ _ _ _ HT1).
        -- injection Hk as ->.
           assert (n = S (Api.i st) /\ config = c1) as [-> ->]
             by (destruct HT1 as [HT1 | [HT1 | (b & HT1 & _)]];
                 [discriminate | injection HT1; auto | discriminate]).
           exists t0, c0, T0.
           split; [exact Hstart' |]. split; [exact H0 |].
           split; [apply first_ok_app, (first_ok_cons _ _ _ _ _ HT0) |].
           eexists. split; [reflexivity |].
           right; right. exists fulfilled. split; [reflexivity | exact Hsettled].
      * rewrite Hrest in *. destruct k as [| k]; cbn in Hk; [| discriminate].
        injection Hk as ->.
        assert (n = Api.i st /\ config = c0) as [-> ->]
          by (destruct HT0 as [HT0 | (b & HT0 & _)];
                 [injection HT0; auto | discriminate]).
        exists t0, c0, (Api.Finished (Api.i st) c0 fulfilled).
        split; [exact Hstart' |]. split; [exact H0 |].
        split; [right; exists fulfilled; split;
                [reflexivity | exact Hsettled] |].
        reflexivity.
  - (* every member of the batch has finished: the loop goes on *)
    unfold Api.step in Hstep. rewrite Hret in Hstep.
    destruct (forallb Api.is_finished (Api.batchPromises st)) eqn:Hall;
      [| discriminate].
    injection Hstep as <-. unfold Api.MAX_CONCURRENT.
    assert (HT0' : (exists b, T0 = Api.Finished (Api.i st) c0 b)
                   /\ Api.settled_in (Api.history st) (Api.i st) = true).
    { destruct (styleConfigs !! S (Api.i st)) as [c1 |].
      - destruct Hrest as (T1 & Hbp & _). rewrite Hbp in Hall.
        destruct HT0 as [-> | (b & -> & HT0)]; [discriminate | eauto].
      - rewrite Hrest in Hall.
        destruct HT0 as [-> | (b & -> & HT0)]; [discriminate | eauto]. }
    destruct HT0' as [[b0 ->] Hs0].
    assert (Hall_settled :
              (indexed (take (Api.i st) styleConfigs)
               ++ finished_members (Api.batchPromises st))%list
              = indexed (take (Api.i st + 2) styleConfigs)).
    { rewrite (indexed_two_more _ _ H0).
      destruct (styleConfigs !! S (Api.i st)) as [c1 |] eqn:H1.
      - destruct Hrest as (T1 & Hbp & HT1). rewrite Hbp in *.
        destruct HT1 as [-> | [-> | (b & -> & HT1)]]; [discriminate .. |].
        reflexivity.
      - rewrite Hrest. reflexivity. }
    apply enter_loop_inv.
    + exact Hh.
    + exact Hr.
    + apply plus2_even, He.
    + lia.
    + intros m Hm Hm'.
      destruct (decide (m < Api.i st)%nat) as [Hlt' | Hge]; [apply Hs; lia |].
      destruct (decide (m = Api.i st)) as [-> | Hne]; [exact Hs0 |].
      assert (m = S (Api.i st)) as -> by lia.
      destruct (styleConfigs !! S (Api.i st)) as [c1 |] eqn:H1.
      * destruct Hrest as (T1 & Hbp & HT1). rewrite Hbp in Hall.
        destruct HT1 as [-> | [-> | (b & -> & HT1)]];
          [discriminate | discriminate | exact HT1].
      * apply lookup_ge_None in H1. lia.
    + rewrite Hcb, Hall_settled. reflexivity.
    + rewrite Hst, Hall_settled. reflexivity.
    + rewrite Hc.
      assert (Hbc : batch_calls (Api.batchPromises st)
                    = finished_members (Api.batchPromises st)).
      { destruct (styleConfigs !! S (Api.i st)) as [c1 |] eqn:H1.
        - destruct Hrest as (T1 & Hbp & HT1). rewrite Hbp in *.
          destruct HT1 as [-> | [-> | (b & -> & HT1)]]; [discriminate .. |].
          reflexivity.
        - rewrite Hrest. reflexivity. }
      rewrite Hbc. exact Hall_settled.
    + rewrite Hw, (half_plus2 _ He). reflexivity.
Qed.

Lemma run_inv schedule st st' : inv st -> run schedule st = Some st' -> inv st'.
Proof.
  revert st. induction schedule as [| a schedule IH]; intros st Hinv Hrun.
  - injection Hrun as <-. exact Hinv.
  - cbn [Api.run] in Hrun.
    destruct (step a st) as [st1 |] eqn:Hstep; [| discriminate].
    eapply IH; [eapply step_inv; eassumption | exact Hrun].
Qed.

Lemma generateAllStyles_inv t0 schedule st :
  Api.generateAllStyles identity styleConfigs referenceImage generateArt
    onStyleComplete onStyleError t0 schedule = Some st ->
  inv st.
Proof. unfold Api.generateAllStyles. apply run_inv, start_inv. Qed.

Lemma history_ok_split pre e older :
  hist_ok (pre ++ e :: older) -> ev_ok older e.
Proof.
  induction pre as [| x pre IH]; cbn [app history_ok].
  - intros [H _]. exact H.
  - intros [_ H]. apply IH, H.
Qed.

Lemma run_app s1 s2 st :
  run (s1 ++ s2)%list st
  = match run s1 st with
    | Some st1 => run s2 st1
    | None => None
    end.
Proof.
  revert st. induction s1 as [| a s1 IH]; intros st; cbn [app Api.run].
  - reflexivity.
  - destruct (step a st); [apply IH | reflexivity].
Qed.

(** Steps that are enabled. *)
Lemma can_settle k n config st :
  Api.returned st = false ->
  Api.batchPromises st !! k = Some (Api.Calling n config) ->
  exists st' fulfilled,
    step (Api.CallSettles k) st = Some st'
    /\ Api.returned st' = false /\ Api.i st' = Api.i st
    /\ Api.time_now st' = Api.time_now st
    /\ Api.batchPromises st'
       = <[k := Api.Finished n config fulfilled]> (Api.batchPromises st).
Proof.
  intros Hret Hk. unfold Api.step. rewrite Hret, Hk.
  destruct (resume_spec n config (Api.results st)) as [fulfilled ->].
  eexists. exists fulfilled. split; [reflexivity |]. cbn. auto.
Qed.

Lemma can_fire k n config wake st :
  Api.returned st = false ->
  Api.batchPromises st !! k = Some (Api.Delayed n config wake) ->
  (wake <= Api.time_now st)%nat ->
  exists st',
    step (Api.TimerFires k) st = Some st'
    /\ Api.returned st' = false /\ Api.i st' = Api.i st
    /\ Api.batchPromises st' = <[k := Api.Calling n config]> (Api.batchPromises st).
Proof.
  intros Hret Hk Hwake. unfold Api.step. rewrite Hret, Hk.
  apply Nat.leb_le in Hwake. rewrite Hwake.
  eexists. split; [reflexivity |]. cbn. auto.
Qed.

Lemma can_wait d st :
  Api.returned st = false ->
  exists st',
    step (Api.Tick d) st = Some st'
    /\ Api.returned st' = false /\ Api.i st' = Api.i st
    /\ Api.time_now st' = (Api.time_now st + d)%nat
    /\ Api.batchPromises st' = Api.batchPromises st.
Proof.
  intros Hret. unfold Api.step. rewrite Hret.
  eexists. split; [reflexivity |]. cbn. auto.
Qed.

(** Every member of the batch in flight can be brought to its end. *)
Lemma finish_batch st :
  inv st -> Api.returned st = false ->
  exists schedule st',
    run schedule st = Some st'
    /\ Api.returned st' = false /\ Api.i st' = Api.i st
    /\ forallb Api.is_finished (Api.batchPromises st') = true.
Proof.
  intros Hinv Hret. pose proof (inv_batch _ _ _ _ _ _ _ Hinv) as Hb.
  unfold batch_ok in Hb. rewrite Hret in Hb.
  destruct Hb as (t0 & c0 & T0 & _ & _ & HT0 & Hrest).
  (* the first member *)
  assert (H1 : exists s1 st1 T1s b0,
             run s1 st = Some st1 /\ Api.returned st1 = false
             /\ Api.i st1 = Api.i st
             /\ Api.batchPromises st = T0 :: T1s
             /\ Api.batchPromises st1
                = Api.Finished (Api.i st) c0 b0 :: T1s).
  { assert (HT1s : exists T1s, Api.batchPromises st = T0 :: T1s).
    { destruct (styleConfigs !! S (Api.i st)).
      - destruct Hrest as (T1 & -> & _). eauto.
      - rewrite Hrest. eauto. }
    destruct HT1s as [T1s Hbp].
    destruct HT0 as [-> | (b & -> & _)].
    - destruct (can_settle 0 (Api.i st) c0 st Hret)
        as (st1 & b0 & Hs & Hr1 & Hi1 & _ & Hb1).
      { rewrite Hbp. reflexivity. }
      exists [Api.CallSettles 0], st1, T1s, b0. cbn [Api.run]. rewrite Hs.
      rewrite Hbp in Hb1. auto.
    - exists [], st, T1s, b. cbn [Api.run]. auto. }
  destruct H1 as (s1 & st1 & T1s & b0 & Hrun1 & Hret1 & Hi1 & Hbp & Hbp1).
  destruct (styleConfigs !! S (Api.i st)) as [c1 |].
  - destruct Hrest as (T1 & Hbp' & HT1). rewrite Hbp' in Hbp.
    injection Hbp as <-.
    (* the second member, from whatever state it is in *)
    assert (Hcall : forall stc,
               Api.returned stc = false -> Api.i stc = Api.i st ->
               Api.batchPromises stc
               = [Api.Finished (Api.i st) c0 b0; Api.Calling (S (Api.i st)) c1] ->
               exists st',
                 run [Api.CallSettles 1] stc = Some st'
                 /\ Api.returned st' = false /\ Api.i st' = Api.i st
                 /\ forallb Api.is_finished (Api.batchPromises st') = true).
    { intros stc Hrc Hic Hbc.
      destruct (can_settle 1 (S (Api.i st)) c1 stc Hrc)
        as (st' & b1 & Hs & Hr' & Hi' & _ & Hb').
      { rewrite Hbc. reflexivity. }
      exists st'. cbn [Api.run]. rewrite Hs, Hb', Hbc.
      split; [reflexivity |]. split; [exact Hr' |].
      split; [congruence | reflexivity]. }
    destruct HT1 as [-> | [-> | (b1 & -> & _)]].
    + destruct (can_wait (t0 + 500) st1 Hret1) as (st2 & Hs2 & Hr2 & Hi2 & Ht2 & Hb2).
      destruct (can_fire 1 (S (Api.i st)) c1 (t0 + 500) st2 Hr2)
        as (st3 & Hs3 & Hr3 & Hi3 & Hb3).
      { rewrite Hb2, Hbp1. reflexivity. }
      { lia. }
      destruct (Hcall st3 Hr3) as (st4 & Hs4 & Hr4 & Hi4 & Hb4).
      { congruence. }
      { rewrite Hb3, Hb2, Hbp1. reflexivity. }
      exists (s1 ++ [Api.Tick (t0 + 500); Api.TimerFires 1; Api.CallSettles 1])%list,
        st4.
      rewrite run_app, Hrun1. cbn [Api.run]. rewrite Hs2, Hs3.
      cbn [Api.run] in Hs4. auto.
    + destruct (Hcall st1 Hret1 Hi1 Hbp1) as (st4 & Hs4 & Hr4 & Hi4 & Hb4).
      exists (s1 ++ [Api.CallSettles 1])%list, st4.
      rewrite run_app, Hrun1. auto.
    + exists s1, st1. rewrite Hbp1. auto.
  - rewrite Hrest in Hbp. injection Hbp as <-.
    exists s1, st1. rewrite Hbp1. auto.
Qed.

(** From any state the invocation reaches, it can be run to its end. *)
Lemma run_can_finish st :
  inv st ->
  exists schedule st', run schedule st = Some st' /\ Api.returned st' = true.
Proof.
  remember (length styleConfigs - Api.i st)%nat as fuel eqn:Hfuel.
  assert (Hle : (length styleConfigs - Api.i st <= fuel)%nat) by lia.
  clear Hfuel. revert st Hle.
  induction fuel as [| fuel IH]; intros st Hle Hinv;
    (destruct (Api.returned st) eqn:Hret;
     [exists [], st; split; [reflexivity | exact Hret] |]).
  - pose proof (inv_batch _ _ _ _ _ _ _ Hinv) as Hb.
    unfold batch_ok in Hb. rewrite Hret in Hb.
    destruct Hb as (t0 & c0 & T0 & _ & H0 & _).
    apply lookup_lt_Some in H0. lia.
  - destruct (finish_batch st Hinv Hret) as (s1 & st1 & Hrun1 & Hret1 & Hi1 & Hall).
    pose proof (run_inv _ _ _ Hinv Hrun1) as Hinv1.
    assert (Hstep : step Api.AllSettled st1
                    = Some (enter_loop (Api.i st1 + Api.MAX_CONCURRENT) st1)).
    { unfold Api.step. rewrite Hret1, Hall. reflexivity. }
    pose proof (step_inv _ _ _ Hinv1 Hstep) as Hinv2.
    destruct (IH (enter_loop (Api.i st1 + Api.MAX_CONCURRENT) st1))
      as (s2 & st' & Hrun2 & Hret').
    + pose proof (inv_batch _ _ _ _ _ _ _ Hinv) as Hb.
      unfold batch_ok in Hb. rewrite Hret in Hb.
      destruct Hb as (t0 & c0 & T0 & _ & H0 & _).
      apply lookup_lt_Some in H0.
      assert (Hi2 : Api.i (enter_loop (Api.i st1 + Api.MAX_CONCURRENT) st1)
                    = (Api.i st1 + Api.MAX_CONCURRENT)%nat).
      { unfold Api.enter_loop.
        destruct (_ <? _)%nat; reflexivity. }
      rewrite Hi2, Hi1. unfold Api.MAX_CONCURRENT. lia.
    + exact Hinv2.
    + exists (s1 ++ Api.AllSettled :: s2)%list, st'.
      rewrite run_app, Hrun1. cbn [Api.run]. rewrite Hstep.
      split; assumption.
Qed.

(** What a returned invocation has behind it. *)
Lemma returned_inv st :
  inv st -> Api.returned st = true ->
  Api.batchPromises st = []
  /\ Api.calls (Api.history st) = indexed styleConfigs
  /\ Api.callbacks (Api.history st) ≡ₚ all_owed (indexed styleConfigs)
  /\ Api.settlements (Api.history st) ≡ₚ map with_s (indexed styleConfigs)
  /\ Api.windows (Api.history st)
     = consecutive_windows ((length styleConfigs + 1) / 2)
  /\ forall n, (n < length styleConfigs)%nat ->
               Api.settled_in (Api.history st) n = true.
Proof.
  intros [Hh Hr He Hs Hcb Hst Hc Hw Hb] Hret.
  unfold batch_ok in Hb. unfold settled_requests in Hcb, Hst.
  rewrite Hret in Hb, Hw. destruct Hb as [Hlen Hbp].
  rewrite Hbp in Hcb, Hst, Hc. cbn [finished_members batch_calls omap list_omap] in *.
  rewrite take_ge, app_nil_r in Hcb, Hst, Hc by lia.
  split; [exact Hbp |]. split; [exact Hc |]. split; [exact Hcb |].
  split; [exact Hst |]. split.
  - rewrite Hw, Nat.add_0_r. f_equal.
    pose proof (Nat.div_mod_eq (Api.i st) 2) as Hi.
    pose proof (Nat.div_mod_eq (length styleConfigs + 1) 2) as Hl.
    pose proof (Nat.mod_upper_bound (length styleConfigs + 1) 2). lia.
  - intros n Hn. apply Hs; lia.
Qed.

End Orchestration.

(** With a quiet [onStyleComplete] and an [onStyleError], each request
    is reported by one callback. *)
Lemma callbacks_owed_quiet identity referenceImage generateArt
    onStyleComplete onStyleError n config :
  quiet_onStyleComplete onStyleComplete ->
  given_onStyleError onStyleError ->
  callbacks_owed identity referenceImage generateArt onStyleComplete
    onStyleError n config
  = [Api.callback_of identity referenceImage generateArt n config].
Proof.
  intros (complete & -> & Hquiet) [report ->].
  unfold callbacks_owed, Api.callback_of.
  destruct (generateArt identity config referenceImage); [| reflexivity].
  rewrite Hquiet. reflexivity.
Qed.

Lemma owed_quiet identity referenceImage generateArt onStyleComplete
    onStyleError (l : list StyleConfig) :
  quiet_onStyleComplete onStyleComplete ->
  given_onStyleError onStyleError ->
  owed identity referenceImage generateArt onStyleComplete onStyleError
    (indexed l)
  = expected_callbacks identity referenceImage generateArt l.
Proof.
  intros Hq Hg. unfold owed, expected_callbacks, indexed.
  assert (H : forall f : nat -> nat,
             flat_map
               (fun nc => callbacks_owed identity referenceImage generateArt
                            onStyleComplete onStyleError nc.1 nc.2)
               (imap (fun n config => (f n, config)) l)
             = imap (fun n => Api.callback_of identity referenceImage generateArt
                                (f n)) l).
  { induction l as [| c l IH]; intros f; [reflexivity |].
    cbn [imap flat_map fst snd].
    rewrite (callbacks_owed_quiet _ _ _ _ _ _ _ Hq Hg).
    cbn [app]. f_equal. exact (IH (fun n => f (S n))). }
  exact (H (fun n => n)).
Qed.

Lemma completions_settlements h :
  Api.completions h ≡ₚ omap completion_of (Api.settlements h).
Proof.
  induction h as [| e h IH]; [reflexivity |].
  destruct e as [| | n config [imageUrl | message] | |];
    cbn [Api.completions Api.settlements]; try exact IH.
  - rewrite omap_app. cbn. rewrite IH. apply Permutation_cons_append.
  - rewrite omap_app. cbn. rewrite app_nil_r. exact IH.
Qed.

(** C2, amended. Four requests, cap 2, both callbacks given, the call
    for request #2 fails and the others succeed, and [onStyleComplete]
    does not throw. Whatever the interleaving: the invocation can always
    be run to its end; request #1 stays in flight until its own call
    settles, whatever happened to #2; and when the function has returned,
    the callbacks that were called are [onStyleComplete] for #1, #3 and
    #4 and [onStyleError] for #2 with the error's message, each once,
    every request was called exactly once and its call settled once, and
    the returned map holds the three results under their style ids (the
    ids of the requests being distinct, as those of the catalog are). *)
Theorem one_failure_leaves_the_batch_going
    (identity : CarIdentity) (referenceImage : option string)
    (generateArt : CarIdentity -> StyleConfig -> option string -> Api.Settlement)
    (onStyleComplete : SnapMerchStyle -> string -> Api.Outcome)
    (onStyleError : SnapMerchStyle -> option string -> Api.Outcome)
    (c1 c2 c3 c4 : StyleConfig) (u1 u3 u4 message : string)
    (t0 : nat) (schedule : list Api.Action) (st : Api.State) :
  generateArt identity c1 referenceImage = Api.Resolves u1 ->
  generateArt identity c2 referenceImage = Api.Rejects message ->
  generateArt identity c3 referenceImage = Api.Resolves u3 ->
  generateArt identity c4 referenceImage = Api.Resolves u4 ->
  (forall sid imageUrl, onStyleComplete sid imageUrl = Api.Returns) ->
  Api.generateAllStyles identity [c1; c2; c3; c4] referenceImage generateArt
    (Some onStyleComplete) (Some onStyleError) t0 schedule = Some st ->
  (exists rest st',
      Api.run identity [c1; c2; c3; c4] referenceImage generateArt
        (Some onStyleComplete) (Some onStyleError) rest st
      = Some st'
      /\ Api.returned st' = true)
  /\ (Api.settled_in (Api.history st) 0 = false ->
      Api.batchPromises st !! 0%nat = Some (Api.Calling 0 c1))
  /\ (Api.returned st = true ->
      Api.callbacks (Api.history st)
      ≡ₚ [Api.OnStyleComplete 0 (id c1) u1;
          Api.OnStyleError 1 (id c2) (Some message);
          Api.OnStyleComplete 2 (id c3) u3; Api.OnStyleComplete 3 (id c4) u4]
      /\ Api.settlements (Api.history st)
         ≡ₚ [(0, c1, Api.Resolves u1); (1, c2, Api.Rejects message);
             (2, c3, Api.Resolves u3); (3, c4, Api.Resolves u4)]%nat
      /\ Api.calls (Api.history st)
         = [(0, c1); (1, c2); (2, c3); (3, c4)]%nat
      /\ (NoDup (map id [c1; c2; c3; c4]) ->
          Api.results st
          = <[id c1 := u1]> (<[id c3 := u3]> (<[id c4 := u4]> ∅)))
      /\ Api.batchPromises st = []).
Proof.
  intros H1 H2 H3 H4 Hquiet Hrun.
  pose proof (generateAllStyles_inv _ _ _ _ _ _ _ _ _ Hrun) as Hinv.
  split; [| split].
  - apply run_can_finish. exact Hinv.
  - destruct Hinv as [Hh Hr He Hs Hcb Hst Hc Hw Hb].
    intros Hpending. unfold batch_ok in Hb.
    destruct (Api.returned st).
    + destruct Hb as [Hlen _]. cbn in Hlen.
      rewrite Hs in Hpending by (cbn; lia). discriminate.
    + destruct Hb as (ts & c0 & T0 & _ & H0 & HT0 & Hrest).
      destruct (Api.i st) as [| i'] eqn:Hi.
      * cbn in H0. injection H0 as <-.
        destruct HT0 as [-> | (b & -> & Hdone)]; [| congruence].
        cbn in Hrest. destruct Hrest as (T1 & -> & _). reflexivity.
      * rewrite Hs in Hpending by (cbn; lia). discriminate.
  - intros Hret.
    destruct (returned_inv _ _ _ _ _ _ _ Hinv Hret)
      as (Hbp & Hc & Hcb & Hst & _ & _).
    assert (Hq : quiet_onStyleComplete (Some onStyleComplete))
      by (exists onStyleComplete; split; [reflexivity | exact Hquiet]).
    assert (Hg : given_onStyleError (Some onStyleError))
      by (eexists; reflexivity).
    rewrite (owed_quiet _ _ _ _ _ _ Hq Hg) in Hcb.
    unfold expected_callbacks, Api.callback_of in Hcb.
    cbn in Hcb, Hst. unfold with_settlement in Hst. cbn in Hst.
    rewrite H1, H2, H3, H4 in Hcb, Hst.
    split; [exact Hcb |]. split; [exact Hst |]. split; [exact Hc |].
    split; [| exact Hbp].
    intros Hids. rewrite (inv_results _ _ _ _ _ _ _ Hinv).
    change (<[id c1 := u1]> (<[id c3 := u3]> (<[id c4 := u4]> ∅)))
      with (list_to_map [(id c1, u1); (id c3, u3); (id c4, u4)]
            : gmap string string).
    symmetry. apply list_to_map_proper.
    + cbn. cbn in Hids.
      assert (Hsub : [id c1; id c3; id c4] `sublist_of` [id c1; id c2; id c3; id c4])
        by apply sublist_skip, sublist_cons, sublist_skip, sublist_skip,
             sublist_nil.
      exact (sublist_NoDup _ _ Hids Hsub).
    + rewrite completions_settlements, Hst. reflexivity.
Qed.

Lemma one_failure_leaves_the_batch_going_witness :
  exists st,
    Api.generateAllStyles toyota_supra_2021 four_requests None second_fails
      (Some VendorMode.batchOnComplete) (Some VendorMode.batchOnError)
      0 a_full_run = Some st
    /\ Api.returned st = true
    /\ Api.results st
       = <[ "vector" := "data:image/jpeg;base64,vector" ]>
           (<[ "calligram" := "data:image/jpeg;base64,calligram" ]>
              (<[ "neon" := "data:image/jpeg;base64,neon" ]> ∅)).
Proof.
  destruct (Api.generateAllStyles toyota_supra_2021 four_requests None
              second_fails (Some VendorMode.batchOnComplete)
              (Some VendorMode.batchOnError) 0 a_full_run)
    as [st |] eqn:Hrun; [| vm_compute in Hrun; discriminate Hrun].
  assert (Hret : Api.returned st = true).
  { vm_compute in Hrun. injection Hrun as <-. reflexivity. }
  exists st. split; [reflexivity |]. split; [exact Hret |].
  assert (Hids : NoDup (map id four_requests))
    by (apply (bool_decide_unpack _); vm_compute; exact I).
  destruct (one_failure_leaves_the_batch_going toyota_supra_2021 None
              second_fails VendorMode.batchOnComplete VendorMode.batchOnError
              (nth_style 0) (nth_style 1) (nth_style 2)
              (nth_style 3) _ _ _ _ 0%nat a_full_run st
              eq_refl eq_refl eq_refl eq_refl (fun _ _ => eq_refl) Hrun)
    as (_ & _ & Hend).
  destruct (Hend Hret) as (_ & _ & _ & Hresults & _). exact (Hresults Hids).
Defined.

(** C2 as stated fails when [onStyleComplete] throws: the call for
    request #1 succeeds and its result is in the returned map, and yet
    [onStyleError] is called for it, with the message of what
    [onStyleComplete] threw; five callbacks are called for four
    requests. *)
Lemma throwing_onStyleComplete_is_reported_as_an_error :
  exists st,
    Api.generateAllStyles toyota_supra_2021 four_requests None second_fails
      (Some fussy_onStyleComplete) (Some VendorMode.batchOnError)
      0 a_full_run = Some st
    /\ Api.returned st = true
    /\ second_fails toyota_supra_2021 (nth_style 0) None
       = Api.Resolves "data:image/jpeg;base64,vector"
    /\ Api.results st !! "vector" = Some "data:image/jpeg;base64,vector"
    /\ In (Api.OnStyleError 0 "vector" (Some "setState on an unmounted view"))
         (Api.callbacks (Api.history st))
    /\ length (Api.callbacks (Api.history st)) = 5%nat
    /\ ~ Api.callbacks (Api.history st)
         ≡ₚ [Api.OnStyleComplete 0 "vector" "data:image/jpeg;base64,vector";
             Api.OnStyleError 1 "retro"
               (Some "Request failed: Too Many Requests");
             Api.OnStyleComplete 2 "calligram"
               "data:image/jpeg;base64,calligram";
             Api.OnStyleComplete 3 "neon" "data:image/jpeg;base64,neon"].
Proof.
  eexists. split; [vm_compute; reflexivity |].
  split; [reflexivity |]. split; [reflexivity |].
  split; [vm_compute; reflexivity |].
  split; [vm_compute; tauto |].
  split; [reflexivity |].
  intros H. apply Permutation_length in H. vm_compute in H. discriminate H.
Qed.

(** C3. In any run of [generateAllStyles], whatever the callbacks do:
    the batches started so far are the consecutive windows of two
    requests, at indices 0, 2, 4, ...; the calls so far are a prefix of
    the list, in list order; the run can always be continued to the
    return, and the function does not return before every window was
    started and every request was called and has settled. At any moment
    a batch has started at an even index below the length of the list,
    once every earlier request had settled; a call is for the request at
    its position and was issued only when every request of the earlier
    batches had settled, with success or with failure; the first call of
    a batch was issued at the instant the batch started, the second one
    500ms later or more. *)
Theorem batches_of_two_gated_and_staggered
    (identity : CarIdentity) (styleConfigs : list StyleConfig)
    (referenceImage : option string)
    (generateArt : CarIdentity -> StyleConfig -> option string -> Api.Settlement)
    (onStyleComplete : option (SnapMerchStyle -> string -> Api.Outcome))
    (onStyleError : option (SnapMerchStyle -> option string -> Api.Outcome))
    (t0 : nat) (schedule : list Api.Action) (st : Api.State) :
  Api.generateAllStyles identity styleConfigs referenceImage generateArt
    onStyleComplete onStyleError t0 schedule = Some st ->
  Api.windows (Api.history st)
  = consecutive_windows (length (Api.windows (Api.history st)))
  /\ Api.calls (Api.history st)
     = indexed (take (length (Api.calls (Api.history st))) styleConfigs)
  /\ (exists rest st',
         Api.run identity styleConfigs referenceImage generateArt
           onStyleComplete onStyleError rest st = Some st'
         /\ Api.returned st' = true)
  /\ (Api.returned st = true ->
      Api.windows (Api.history st)
      = consecutive_windows ((length styleConfigs + 1) / 2)
      /\ Api.calls (Api.history st) = indexed styleConfigs
      /\ forall n, (n < length styleConfigs)%nat ->
                   Api.settled_in (Api.history st) n = true)
  /\ forall pre e older,
       Api.history st = (pre ++ e :: older)%list ->
       match e with
       | Api.BatchStart i0 _ =>
           (i0 mod 2 = 0)%nat /\ (i0 < length styleConfigs)%nat
           /\ forall m, (m < i0)%nat -> Api.settled_in older m = true
       | Api.CallIssued n config t =>
           styleConfigs !! n = Some config
           /\ (forall m, (m < Api.window_of n)%nat ->
                         Api.settled_in older m = true)
           /\ (n = Api.window_of n ->
               exists rest, older = Api.BatchStart n t :: rest)
           /\ (n <> Api.window_of n ->
               exists t_start,
                 In (Api.BatchStart (Api.window_of n) t_start) older
                 /\ (t_start + 500 <= t)%nat)
       | _ => True
       end.
Proof.
  intros Hrun.
  pose proof (generateAllStyles_inv _ _ _ _ _ _ _ _ _ Hrun) as Hinv.
  split; [| split; [| split; [| split]]].
  - rewrite (inv_windows _ _ _ _ _ _ _ Hinv). unfold consecutive_windows.
    rewrite length_map, length_seq. reflexivity.
  - destruct Hinv as [Hh Hr He Hs Hcb Hst Hc Hw Hb].
    assert (Hk : exists k, (k <= length styleConfigs)%nat
                           /\ Api.calls (Api.history st)
                              = indexed (take k styleConfigs)).
    { rewrite Hc. unfold batch_ok in Hb.
      destruct (Api.returned st).
      - destruct Hb as [Hlen ->]. exists (length styleConfigs).
        split; [lia |]. rewrite app_nil_r, !take_ge by lia. reflexivity.
      - destruct Hb as (ts & c0 & T0 & _ & H0 & HT0 & Hrest).
        pose proof (lookup_lt_Some _ _ _ H0) as Hlt.
        assert (Hlen : length (take (Api.i st) styleConfigs) = Api.i st)
          by (apply length_take_le; lia).
        assert (Hone : indexed (take (S (Api.i st)) styleConfigs)
                       = (indexed (take (Api.i st) styleConfigs)
                          ++ [(Api.i st, c0)])%list).
        { rewrite (take_S_r _ _ _ H0). unfold indexed.
          rewrite imap_app, Hlen. cbn. unfold compose.
          rewrite Nat.add_0_r. reflexivity. }
        destruct (styleConfigs !! S (Api.i st)) as [c1 |] eqn:H1.
        + destruct Hrest as (T1 & -> & HT1).
          pose proof (lookup_lt_Some _ _ _ H1) as Hlt1.
          destruct HT1 as [-> | HT1].
          * exists (S (Api.i st)). split; [lia |]. rewrite Hone.
            destruct HT0 as [-> | (b & -> & _)]; reflexivity.
          * exists (S (S (Api.i st))). split; [lia |].
            rewrite (take_S_r _ _ _ H1). unfold indexed at 2.
            rewrite imap_app, length_take_le by lia.
            fold (indexed (take (S (Api.i st)) styleConfigs)).
            rewrite Hone, <- app_assoc. cbn. unfold compose.
            rewrite Nat.add_0_r.
            destruct HT0 as [-> | (b & -> & _)],
                     HT1 as [-> | (b' & -> & _)]; reflexivity.
        + rewrite Hrest. exists (S (Api.i st)). split; [lia |]. rewrite Hone.
          destruct HT0 as [-> | (b & -> & _)]; reflexivity. }
    destruct Hk as (k & Hk & ->).
    assert (Hlen : length (indexed (take k styleConfigs)) = k).
    { unfold indexed. rewrite length_imap. apply length_take_le. exact Hk. }
    rewrite Hlen. reflexivity.
  - apply run_can_finish. exact Hinv.
  - intros Hret.
    destruct (returned_inv _ _ _ _ _ _ _ Hinv Hret)
      as (_ & Hc & _ & _ & Hw & Hs).
    split; [exact Hw |]. split; [exact Hc | exact Hs].
  - intros pre e older Hsplit.
    pose proof (inv_history _ _ _ _ _ _ _ Hinv) as Hh.
    rewrite Hsplit in Hh. apply history_ok_split in Hh.
    destruct e as [i0 t | n config t | | |]; cbn [event_ok] in Hh;
      try exact I.
    + exact Hh.
    + destruct Hh as (Hn & Hgate & Hstagger).
      split; [exact Hn |]. split; [exact Hgate |].
      destruct (n =? Api.window_of n)%nat eqn:E.
      * apply Nat.eqb_eq in E.
        split; [intros _; exact Hstagger | intros; contradiction].
      * apply Nat.eqb_neq in E. split; [intros; contradiction |].
        intros _. exact (proj2 Hstagger).
Qed.

Lemma batches_of_two_gated_and_staggered_witness :
  exists st,
    Api.generateAllStyles toyota_supra_2021 four_requests None second_fails
      (Some VendorMode.batchOnComplete) (Some VendorMode.batchOnError)
      10 a_partial_run = Some st
    /\ Api.windows (Api.history st) = [0%nat]
    /\ exists t config older,
         Api.history st = Api.CallIssued 1 config t :: older
         /\ exists t_start,
              In (Api.BatchStart 0 t_start) older /\ (t_start + 500 <= t)%nat.
Proof.
  destruct (Api.generateAllStyles toyota_supra_2021 four_requests None
              second_fails (Some VendorMode.batchOnComplete)
              (Some VendorMode.batchOnError) 10 a_partial_run)
    as [st |] eqn:Hrun; [| vm_compute in Hrun; discriminate Hrun].
  exists st. split; [reflexivity |].
  assert (Hh : exists t config older,
             Api.history st = ([] ++ Api.CallIssued 1 config t :: older)%list).
  { vm_compute in Hrun. injection Hrun as <-. do 3 eexists. reflexivity. }
  destruct Hh as (t & config & older & Hh).
  destruct (batches_of_two_gated_and_staggered _ _ _ _ _ _ _ _ _ Hrun)
    as (Hwindows & _ & _ & _ & Hevents).
  split.
  - rewrite Hwindows. vm_compute in Hrun. injection Hrun as <-. reflexivity.
  - exists t, config, older. split; [exact Hh |].
    destruct (Hevents _ _ _ Hh) as (_ & _ & _ & Hstagger).
    apply Hstagger. vm_compute. discriminate.
Defined.

(** ** The local session store, continued *)

Lemma frame_ok_refl w : frame_ok w w.
Proof. repeat split. Qed.

Lemma frame_ok_trans w1 w2 w3 : frame_ok w1 w2 -> frame_ok w2 w3 -> frame_ok w1 w3.
Proof.
  unfold frame_ok. intros (H1 & H2 & H3 & H4 & H5 & H6 & H7 & H8)
    (G1 & G2 & G3 & G4 & G5 & G6 & G7 & G8).
  repeat split; congruence.
Qed.

Lemma frame_ok_read op w : frame_ok w (upd_store (fun m => m) op w).
Proof. repeat split. Qed.

Lemma frame_ok_insert v op w :
  frame_ok w (upd_store (insert KEYS.EVENT_SESSION v) op w).
Proof. split; [apply delete_insert_eq | repeat split]. Qed.

Lemma frame_ok_delete op w :
  frame_ok w (upd_store (delete KEYS.EVENT_SESSION) op w).
Proof. split; [apply delete_delete_eq | repeat split]. Qed.

Lemma frame_ok_sync session (b : bool) w :
  frame_ok w (if b then add_sync session w else w).
Proof. destruct b; repeat split. Qed.

Lemma saveEventSession_frame session w :
  frame_ok w (after (saveEventSession session) w).
Proof.
  unfold after. rewrite saveEventSession_run. cbn zeta. cbn [snd].
  destruct (accepts w (store w) _ (Json (first_write session)));
    [| destruct (accepts w (store w) _ (Json (retry_write session)))];
    (eapply frame_ok_trans; [| apply frame_ok_sync]).
  - apply frame_ok_insert.
  - eapply frame_ok_trans; [apply frame_ok_read | apply frame_ok_insert].
  - eapply frame_ok_trans; [apply frame_ok_read |].
    eapply frame_ok_trans; [apply frame_ok_read | apply frame_ok_delete].
Qed.

Lemma createNewEventSession_frame w :
  frame_ok w (after createNewEventSession w).
Proof.
  unfold after. rewrite createNewEventSession_run.
  apply saveEventSession_frame.
Qed.

Lemma getEventSession_frame w : frame_ok w (after getEventSession w).
Proof.
  unfold after. rewrite getEventSession_run. cbn zeta.
  destruct (store w !! KEYS.EVENT_SESSION) as [[s | raw] |].
  - destruct (String.eqb (date s) (today w)); [apply frame_ok_read |].
    eapply frame_ok_trans; [apply frame_ok_read | apply createNewEventSession_frame].
  - destruct raw.
    + eapply frame_ok_trans; [apply frame_ok_read | apply createNewEventSession_frame].
    + eapply frame_ok_trans; [apply frame_ok_read |].
      eapply frame_ok_trans; [apply frame_ok_delete |].
      apply createNewEventSession_frame.
  - eapply frame_ok_trans; [apply frame_ok_read | apply createNewEventSession_frame].
Qed.

Lemma getEventSession_pair w :
  exists s, getEventSession w = (Normal s, after getEventSession w).
Proof.
  unfold after. rewrite getEventSession_run. cbn zeta.
  destruct (store w !! KEYS.EVENT_SESSION) as [[s | raw] |];
    [destruct (String.eqb (date s) (today w)) | destruct raw |];
    rewrite ?createNewEventSession_run; eexists; reflexivity.
Qed.

Lemma getEventSession_today (w : World) :
  exists s,
    getEventSession w = (Normal s, after getEventSession w)
    /\ date s = today w
    /\ (store (after getEventSession w) !! KEYS.EVENT_SESSION = Some (Json s)
        \/ store (after getEventSession w) !! KEYS.EVENT_SESSION = None).
Proof.
  unfold after. rewrite getEventSession_run. cbn zeta.
  assert (Hfresh : forall w1, today w1 = today w ->
            exists s, createNewEventSession w1 = (Normal s, (createNewEventSession w1).2)
                      /\ date s = today w
                      /\ (store (createNewEventSession w1).2 !! KEYS.EVENT_SESSION
                          = Some (Json s)
                          \/ store (createNewEventSession w1).2 !! KEYS.EVENT_SESSION
                             = None)).
  { intros w1 Hd. rewrite createNewEventSession_run. cbn [snd].
    exists (fresh_session w1). split; [reflexivity |].
    split; [exact Hd | apply save_fresh_store]. }
  destruct (store w !! KEYS.EVENT_SESSION) as [[s | raw] |] eqn:Hs.
  - destruct (String.eqb (date s) (today w)) eqn:Hd.
    + exists s. split; [reflexivity |].
      split; [apply String.eqb_eq; exact Hd | left; exact Hs].
    + apply Hfresh. reflexivity.
  - destruct raw; apply Hfresh; reflexivity.
  - apply Hfresh. reflexivity.
Qed.

Lemma save_fresh_store_exact w :
  store (after (saveEventSession (fresh_session w)) w) !! KEYS.EVENT_SESSION
  = if accepts w (store w) KEYS.EVENT_SESSION (Json (fresh_session w))
    then Some (Json (fresh_session w)) else None.
Proof.
  unfold after. rewrite saveEventSession_run. cbn zeta. cbn [snd].
  change (first_write (fresh_session w)) with (fresh_session w).
  change (retry_write (fresh_session w)) with (fresh_session w).
  destruct (accepts w (store w) KEYS.EVENT_SESSION (Json (fresh_session w)));
    rewrite sync_store; simpl.
  - apply lookup_insert_eq.
  - apply lookup_delete_eq.
Qed.

(** X1. Whatever [localStorage] holds, [getEventSession] returns
    normally a session dated today. Either it is the session that was
    stored, and the store is as it was; or no session of today was
    stored and it is a fresh session, which is then what the store holds
    under the session key if the device accepts its write, the key
    holding nothing if the device refuses it. *)
Theorem getEventSession_gives_todays_session (w : World) :
  let key := KEYS.EVENT_SESSION in
  let w' := after getEventSession w in
  exists s,
    getEventSession w = (Normal s, w')
    /\ date s = today w
    /\ ((store w !! key = Some (Json s) /\ store w' = store w)
        \/ ((forall s0, store w !! key = Some (Json s0) -> date s0 <> today w)
            /\ s = fresh_session w
            /\ store w' !! key
               = if accepts w (store_before_fresh w) key (Json s)
                 then Some (Json s) else None)).
Proof.
  cbn zeta. unfold after, store_before_fresh.
  rewrite getEventSession_run. cbn zeta.
  assert (Hfresh : forall w1,
             today w1 = today w -> fresh_session w1 = fresh_session w ->
             accepts w1 = accepts w ->
             exists s,
               createNewEventSession w1 = (Normal s, (createNewEventSession w1).2)
               /\ date s = today w
               /\ s = fresh_session w
               /\ store (createNewEventSession w1).2 !! KEYS.EVENT_SESSION
                  = if accepts w (store w1) KEYS.EVENT_SESSION (Json s)
                    then Some (Json s) else None).
  { intros w1 Hd Hf Ha. rewrite createNewEventSession_run. cbn [snd].
    exists (fresh_session w1). split; [reflexivity |].
    split; [exact Hd |]. split; [exact Hf |].
    rewrite <- Ha. apply save_fresh_store_exact. }
  destruct (store w !! KEYS.EVENT_SESSION) as [[s | raw] |] eqn:Hs.
  - destruct (String.eqb (date s) (today w)) eqn:Hd.
    + exists s. split; [reflexivity |].
      split; [apply String.eqb_eq; exact Hd |]. left. split; reflexivity.
    + destruct (Hfresh (upd_store (fun m => m) (OpGet KEYS.EVENT_SESSION) w)
                  eq_refl eq_refl eq_refl) as (s1 & Hrun & Hdate & Hs1 & Hst).
      exists s1. split; [exact Hrun |]. split; [exact Hdate |]. right.
      split; [| split; [exact Hs1 | exact Hst]].
      intros s0 Heq. injection Heq as <-. apply String.eqb_neq. exact Hd.
  - destruct raw as [| a raw].
    + destruct (Hfresh (upd_store (fun m => m) (OpGet KEYS.EVENT_SESSION) w)
                  eq_refl eq_refl eq_refl) as (s1 & Hrun & Hdate & Hs1 & Hst).
      exists s1. split; [exact Hrun |]. split; [exact Hdate |]. right.
      split; [discriminate | split; [exact Hs1 | exact Hst]].
    + destruct (Hfresh (upd_store (delete KEYS.EVENT_SESSION)
                          (OpRemove KEYS.EVENT_SESSION)
                          (upd_store (fun m => m) (OpGet KEYS.EVENT_SESSION) w))
                  eq_refl eq_refl eq_refl) as (s1 & Hrun & Hdate & Hs1 & Hst).
      exists s1. split; [exact Hrun |]. split; [exact Hdate |]. right.
      split; [discriminate | split; [exact Hs1 | exact Hst]].
  - destruct (Hfresh (upd_store (fun m => m) (OpGet KEYS.EVENT_SESSION) w)
                eq_refl eq_refl eq_refl) as (s1 & Hrun & Hdate & Hs1 & Hst).
    exists s1. split; [exact Hrun |]. split; [exact Hdate |]. right.
    split; [discriminate | split; [exact Hs1 | exact Hst]].
Qed.

(** X2. Reading twice: when the first [getEventSession] left a session in
    the store, a second call returns the same session and makes no other
    call on [localStorage] than its read. *)
Theorem getEventSession_twice (w : World) :
  let w1 := after getEventSession w in
  store w1 !! KEYS.EVENT_SESSION <> None ->
  getEventSession w1
  = (outcome getEventSession w,
     upd_store (fun m => m) (OpGet KEYS.EVENT_SESSION) w1).
Proof.
  intros w1 Hkept. subst w1.
  destruct (getEventSession_today w) as (s & Hrun & Hd & Hst).
  destruct (getEventSession_frame w) as (_ & _ & _ & _ & Ht & _).
  unfold outcome. rewrite Hrun. cbn [fst].
  destruct Hst as [Hst | Hst]; [| congruence].
  rewrite getEventSession_run. cbn zeta. rewrite Hst, Ht, Hd, String.eqb_refl.
  reflexivity.
Qed.

Lemma getEventSession_twice_witness :
  outcome getEventSession (after getEventSession stale_world)
  = Normal (fresh_session stale_world).
Proof.
  unfold outcome at 1.
  rewrite (getEventSession_twice stale_world)
    by (vm_compute; discriminate).
  vm_compute. reflexivity.
Defined.

Lemma find_has_id_head carId (c : CarSession) l :
  car_id c = carId ->
  List.find (fun x => String.eqb (car_id x) carId) (c :: l) = Some c.
Proof. intros <-. cbn. rewrite String.eqb_refl. reflexivity. Qed.

(** X3. A car just added is found again by its id, without its photo:
    when the device accepts the write, [getCarSession] gives back the car
    as it was stripped for storage. *)
Theorem addCarSession_then_getCarSession (w : World) (car : CarSession)
    (s0 : EventSession) (w0 : World) :
  getEventSession w = (Normal s0, w0) ->
  accepts w0 (store w0) KEYS.EVENT_SESSION
    (Json (first_write (with_cars s0 (car :: cars s0)))) = true ->
  outcome (getCarSession (car_id car)) (after (addCarSession car) w)
  = Normal (Some (strip_car car))
  /\ photoBase64 (strip_car car) = "".
Proof.
  intros Hget Hacc. split; [| reflexivity].
  destruct (getEventSession_today w) as (s & Hrun & Hd & _).
  rewrite Hget in Hrun. injection Hrun as <- Hw0.
  pose proof (getEventSession_frame w) as Hfr. rewrite <- Hw0 in Hfr.
  destruct Hfr as (_ & _ & Hu & _ & Ht & _).
  set (s1 := with_cars s0 (car :: cars s0)) in *.
  assert (Hadd : after (addCarSession car) w = after (saveEventSession s1) w0).
  { unfold after, addCarSession, bind. rewrite Hget. fold s1.
    rewrite save_pair. reflexivity. }
  rewrite Hadd. unfold after. rewrite saveEventSession_run. cbn zeta.
  rewrite Hacc. cbn [snd].
  unfold outcome, getCarSession, bind. rewrite getEventSession_run. cbn zeta.
  rewrite sync_store.
  assert (Htoday : forall b : bool,
             today (if b then add_sync s1 (upd_store (insert KEYS.EVENT_SESSION
                       (Json (first_write s1)))
                       (OpSet KEYS.EVENT_SESSION (Json (first_write s1)) true) w0)
                    else upd_store (insert KEYS.EVENT_SESSION
                       (Json (first_write s1)))
                       (OpSet KEYS.EVENT_SESSION (Json (first_write s1)) true) w0)
             = today w) by (intros []; exact Ht).
  rewrite Htoday. cbn [store upd_store]. rewrite lookup_insert_eq.
  change (date (first_write s1)) with (date s0).
  rewrite Hd, String.eqb_refl. unfold ret. cbn [fst].
  change (cars (first_write s1)) with (strip_car car :: map strip_car (cars s0)).
  rewrite find_has_id_head by reflexivity. reflexivity.
Qed.

Lemma addCarSession_then_getCarSession_witness :
  outcome (getCarSession "e") (after (addCarSession new_car) todays_world)
  = Normal (Some (strip_car new_car)).
Proof.
  apply (addCarSession_then_getCarSession todays_world new_car
           (first_write four_cars)
           (upd_store (fun m => m) (OpGet KEYS.EVENT_SESSION) todays_world));
    reflexivity.
Defined.

Lemma find_map_strip_insert carId idx (car merged : CarSession) l :
  findIndex (has_id carId) l = Some idx ->
  l !! idx = Some car ->
  car_id merged = carId ->
  List.find (fun x => String.eqb (car_id x) carId)
    (map strip_car (<[idx := merged]> l))
  = Some (strip_car merged).
Proof.
  revert idx. induction l as [| c l IH]; intros idx Hfind Hcar Hid;
    [discriminate |].
  cbn [findIndex] in Hfind. destruct (has_id carId c) eqn:Hc.
  - injection Hfind as <-. cbn. rewrite Hid, String.eqb_refl. reflexivity.
  - destruct (findIndex (has_id carId) l) as [j |] eqn:Hj; [| discriminate].
    injection Hfind as <-. cbn in Hcar. cbn.
    unfold has_id in Hc. rewrite Hc. apply (IH j); auto.
Qed.

(** X4. An update is found again: with today's session in the store, a
    car of that id in it, an update that keeps the id and a device that
    accepts the write, [getCarSession] gives the merged car as it was
    stripped for storage. *)
Theorem updateCarSession_then_getCarSession (w : World) (s : EventSession)
    (carId : string) (update : CarSessionUpdate) (idx : nat) (car : CarSession) :
  store w !! KEYS.EVENT_SESSION = Some (Json s) ->
  date s = today w ->
  findIndex (has_id carId) (cars s) = Some idx ->
  cars s !! idx = Some car ->
  u_id update = None ->
  accepts w (store w) KEYS.EVENT_SESSION
    (Json (first_write
             (with_cars s (<[idx := spread car update]> (cars s))))) = true ->
  outcome (getCarSession carId) (after (updateCarSession carId update) w)
  = Normal (Some (strip_car (spread car update))).
Proof.
  intros Hs Hd Hfind Hcar Hu Hacc.
  set (s1 := with_cars s (<[idx := spread car update]> (cars s))) in *.
  set (w0 := upd_store (fun m => m) (OpGet KEYS.EVENT_SESSION) w).
  assert (Hget : getEventSession w = (Normal s, w0)).
  { rewrite getEventSession_run. cbn zeta. rewrite Hs, Hd, String.eqb_refl.
    reflexivity. }
  assert (Hupd : after (updateCarSession carId update) w
                 = after (saveEventSession s1) w0).
  { unfold after, updateCarSession, bind. rewrite Hget.
    fold (has_id carId). rewrite Hfind, Hcar. fold s1.
    rewrite save_pair. reflexivity. }
  rewrite Hupd. unfold after. rewrite saveEventSession_run. cbn zeta.
  change (accepts w0) with (accepts w). change (store w0) with (store w).
  rewrite Hacc. cbn [snd].
  unfold outcome, getCarSession, bind. rewrite getEventSession_run. cbn zeta.
  rewrite sync_store.
  assert (Htoday : forall (b : bool) w',
             today w' = today w ->
             today (if b then add_sync s1 w' else w') = today w)
    by (intros [] w' H; exact H).
  rewrite Htoday by reflexivity. cbn [store upd_store].
  rewrite lookup_insert_eq.
  change (date (first_write s1)) with (date s).
  rewrite Hd, String.eqb_refl. unfold ret. cbn [fst].
  change (cars (first_write s1))
    with (map strip_car (<[idx := spread car update]> (cars s))).
  rewrite (find_map_strip_insert carId idx car); auto.
  pose proof (findIndex_spec (has_id carId) (cars s)) as Hspec.
  rewrite Hfind in Hspec. destruct Hspec as (x & Hx & Hp & _).
  rewrite Hcar in Hx. injection Hx as <-.
  unfold spread; cbn. rewrite Hu. cbn.
  apply String.eqb_eq. exact Hp.
Qed.

Lemma updateCarSession_then_getCarSession_witness :
  outcome (getCarSession "b") (after (updateCarSession "b" share_update) todays_world)
  = Normal (Some (strip_car (spread (strip_car (sample_car "b")) share_update))).
Proof.
  apply (updateCarSession_then_getCarSession todays_world
           (first_write four_cars) "b" share_update 2
           (strip_car (sample_car "b"))); reflexivity.
Defined.

Lemma strip_url_idem u :
  (if isLargeDataUrl (Some (if isLargeDataUrl u then "" else or_empty u))
   then ""
   else or_empty (Some (if isLargeDataUrl u then "" else or_empty u)))
  = (if isLargeDataUrl u then "" else or_empty u).
Proof.
  destruct (isLargeDataUrl u) eqn:E; [reflexivity |].
  destruct u as [u |]; [| reflexivity].
  change (or_empty (Some u)) with u. rewrite E. reflexivity.
Qed.

Lemma strip_style_idem s : strip_style (strip_style s) = strip_style s.
Proof.
  unfold strip_style. cbn [styleId imageUrl status error].
  rewrite strip_url_idem. reflexivity.
Qed.

Lemma strip_mockup_idem m : strip_mockup (strip_mockup m) = strip_mockup m.
Proof.
  unfold strip_mockup. cbn [productId m_styleId m_imageUrl m_status].
  rewrite strip_url_idem. reflexivity.
Qed.

Lemma small_thumbnail_idem t :
  small_thumbnail (Some (small_thumbnail t)) = small_thumbnail t.
Proof.
  unfold small_thumbnail at 2 3. destruct t as [t |]; [| reflexivity].
  destruct (negb (t =? "")%string && (Z.of_nat (String.length t) <? 15000)) eqn:E;
    [| reflexivity].
  unfold small_thumbnail. rewrite E. reflexivity.
Qed.

Lemma strip_car_idem car : strip_car (strip_car car) = strip_car car.
Proof.
  unfold strip_car.
  cbn [car_id photoBase64 photoThumbnail car_identity styles mockups orders
       car_createdAt shareUrl].
  rewrite small_thumbnail_idem, !map_map.
  rewrite (map_ext _ _ strip_style_idem), (map_ext _ _ strip_mockup_idem).
  reflexivity.
Qed.

(** X5. Stripping is idempotent: saving a session as it was stored (and
    read back) writes the same values and leaves the same store as
    saving the session itself; nothing more is lost at each save. *)
Theorem saveEventSession_resave_stable (w : World) (session : EventSession) :
  first_write (first_write session) = first_write session
  /\ retry_write (first_write session) = retry_write session
  /\ store (after (saveEventSession (first_write session)) w)
     = store (after (saveEventSession session) w)
  /\ oplog (after (saveEventSession (first_write session)) w)
     = oplog (after (saveEventSession session) w).
Proof.
  assert (H1 : first_write (first_write session) = first_write session).
  { unfold first_write; cbn. unfold with_cars; cbn. f_equal.
    rewrite map_map. apply map_ext. apply strip_car_idem. }
  assert (H2 : retry_write (first_write session) = retry_write session).
  { unfold retry_write, first_write; cbn. unfold with_cars; cbn. f_equal.
    f_equal. f_equal. rewrite map_map. apply map_ext. apply strip_car_idem. }
  split; [exact H1 |]. split; [exact H2 |].
  unfold after. rewrite !saveEventSession_run. cbn zeta. rewrite H1, H2.
  cbn [snd].
  destruct (accepts w (store w) _ (Json (first_write session)));
    [| destruct (accepts w (store w) _ (Json (retry_write session)))];
    rewrite !sync_store, !sync_oplog; split; reflexivity.
Qed.

(** X6. The remote mirror is launched by every save of a signed-in user,
    once and with the session as it was given (not the stripped copy),
    also when the local write was refused; nothing is launched without a
    user. *)
Theorem saveEventSession_launches_sync (w : World) (session : EventSession) :
  syncs (after (saveEventSession session) w)
  = (if signed_in w then syncs w ++ [session] else syncs w)%list.
Proof.
  unfold after. rewrite saveEventSession_run. cbn zeta. cbn [snd].
  destruct (accepts w (store w) _ (Json (first_write session)));
    [| destruct (accepts w (store w) _ (Json (retry_write session)))];
    destruct (signed_in w); reflexivity.
Qed.

(** X7. The session functions touch one entry of [localStorage]: the
    other keys, the signed-in user and the rest of the environment are
    as before, after each of them. *)
Theorem session_store_frame (w : World) (session : EventSession)
    (car : CarSession) (carId : string) (update : CarSessionUpdate) :
  frame_ok w (after (saveEventSession session) w)
  /\ frame_ok w (after getEventSession w)
  /\ frame_ok w (after createNewEventSession w)
  /\ frame_ok w (after (addCarSession car) w)
  /\ frame_ok w (after (updateCarSession carId update) w)
  /\ frame_ok w (after (getCarSession carId) w).
Proof.
  destruct (getEventSession_pair w) as [s Hget].
  pose proof (getEventSession_frame w) as Hg.
  split; [apply saveEventSession_frame |]. split; [exact Hg |].
  split; [apply createNewEventSession_frame |]. split; [| split].
  - unfold after at 1, addCarSession, bind. rewrite Hget, save_pair.
    cbn [snd]. eapply frame_ok_trans; [exact Hg | apply saveEventSession_frame].
  - unfold after at 1, updateCarSession, bind. rewrite Hget.
    destruct (findIndex _ (cars s)); [| exact Hg].
    rewrite save_pair. cbn [snd].
    eapply frame_ok_trans; [exact Hg | apply saveEventSession_frame].
  - unfold after at 1, getCarSession, bind. rewrite Hget. exact Hg.
Qed.

(** ** Remote hydration, continued *)

Lemma group_by_car_acc {R} (car_of : R -> string) (rows : list R)
    (m : gmap string (list R)) (k : string) :
  default [] (foldl (fun m row =>
                let m := match m !! car_of row with
                         | None => <[car_of row := []]> m
                         | Some _ => m
                         end in
                alter (fun l => (l ++ [row])%list) (car_of row) m) m rows !! k)
  = (default [] (m !! k)
     ++ List.filter (fun r => String.eqb (car_of r) k) rows)%list.
Proof.
  revert m. induction rows as [| row rows IH]; intros m; cbn [foldl List.filter].
  - rewrite app_nil_r. reflexivity.
  - rewrite IH. destruct (String.eqb_spec (car_of row) k) as [-> | Hne].
    + rewrite lookup_alter_eq.
      destruct (m !! k) as [l |] eqn:Hk.
      * rewrite Hk. cbn. rewrite <- app_assoc. reflexivity.
      * rewrite lookup_insert_eq. cbn. reflexivity.
    + rewrite lookup_alter_ne by exact Hne.
      destruct (m !! car_of row); [reflexivity |].
      rewrite lookup_insert_ne by exact Hne. reflexivity.
Qed.

Lemma group_by_car_lookup {R} (car_of : R -> string) (rows : list R) k :
  default [] (group_by_car car_of rows !! k)
  = List.filter (fun r => String.eqb (car_of r) k) rows.
Proof.
  unfold group_by_car. rewrite group_by_car_acc, lookup_empty. reflexivity.
Qed.

Lemma car_of_row_hydrate styleRows orderRows car :
  car_of_row (group_by_car sr_car_id styleRows)
    (group_by_car or_car_id orderRows) car
  = hydrate_car styleRows orderRows car.
Proof.
  unfold car_of_row, hydrate_car. rewrite !group_by_car_lookup. reflexivity.
Qed.

(** X8. What hydration gives when the four reads answer: the event's
    fields, one car per car row in the order of the rows, each with the
    style rows and the order rows that carry its id (in the order they
    came), no photo and no mockup; rows of the styles or orders read that
    are missing count as none. *)
Theorem loadEventFromSupabase_groups_rows (w : World) (db : Supabase)
    (ev : EventRow) (evs : list EventRow) (carRows : list CarRow)
    (styleRows : option (list StyleRow)) (orderRows : option (list OrderRow))
    (e1 e2 : option string) :
  supabase w = Some db ->
  signed_in w = true ->
  select_events db (default "" (userId w)) (today w)
  = Reply (Some (ev :: evs)) None ->
  select_cars db (er_id ev) = Reply (Some carRows) None ->
  select_styles db (wanted_ids carRows) = Reply styleRows e1 ->
  select_orders db (wanted_ids carRows) = Reply orderRows e2 ->
  outcome loadEventFromSupabase w
  = Normal (Some {| ev_id := er_id ev; ev_name := er_name ev;
                    date := er_date ev;
                    cars := map (hydrate_car (default [] styleRows)
                                   (default [] orderRows)) carRows;
                    ev_createdAt := er_created_at ev |}).
Proof.
  intros Hdb Hin Hev Hcars Hst Hor.
  unfold outcome, loadEventFromSupabase, bind, ask. cbn [fst snd].
  rewrite Hdb, Hin. unfold try_catch, await, ret. cbn [fst snd].
  rewrite Hev. cbn [fst snd]. rewrite Hcars. cbn [fst snd].
  unfold wanted_ids in Hst, Hor. rewrite Hst. cbn [fst snd]. rewrite Hor.
  cbn [fst snd].
  rewrite (map_ext _ _ (car_of_row_hydrate (default [] styleRows)
                          (default [] orderRows))).
  unfold localStorage.setItem, JSON.stringify.
  destruct (accepts w (store w) KEYS.EVENT_SESSION _); reflexivity.
Qed.

Lemma loadEventFromSupabase_groups_rows_witness :
  outcome loadEventFromSupabase (signed_in_world healthy_db)
  = Normal (Some {| ev_id := "ev1"; ev_name := "Cars & Coffee";
                    date := "2025-06-01";
                    cars := [hydrate_car [a_style] [] a_car];
                    ev_createdAt := 1748772000000 |}).
Proof.
  apply (loadEventFromSupabase_groups_rows (signed_in_world healthy_db)
           healthy_db an_event [] [a_car] (Some [a_style]) (Some []) None None);
    reflexivity.
Defined.

(** X9. Hydration never rejects. When it gives null it has made no call
    on [localStorage]; when it gives a session it has made one call, a
    write of that session under the session key, whose refusal is
    swallowed; the session carries no photo and no mockup. *)
Theorem loadEventFromSupabase_effects (w : World) :
  match outcome loadEventFromSupabase w with
  | Normal None => after loadEventFromSupabase w = w
  | Normal (Some s) =>
      Forall (fun c => photoBase64 c = "" /\ mockups c = []) (cars s)
      /\ exists accepted : bool,
           oplog (after loadEventFromSupabase w)
           = (oplog w ++ [OpSet KEYS.EVENT_SESSION (Json s) accepted])%list
           /\ store (after loadEventFromSupabase w)
              = (if accepted then <[KEYS.EVENT_SESSION := Json s]> (store w)
                 else store w)
  | Throws _ => False
  end.
Proof.
  unfold outcome, after, loadEventFromSupabase, bind, ask. cbn [fst snd].
  destruct (supabase w) as [db |]; [| reflexivity].
  destruct (signed_in w); [| reflexivity].
  unfold try_catch, await, ret, throw. cbn [fst snd].
  destruct (select_events db _ _) as [[[| ev evs] |] [err |] | msg];
    try reflexivity.
  cbn [fst snd].
  destruct (select_cars db _) as [[carRows |] [err |] | msg]; try reflexivity.
  cbn [fst snd].
  destruct (select_styles db _) as [styleRows e1 | msg]; [| reflexivity].
  cbn [fst snd].
  destruct (select_orders db _) as [orderRows e2 | msg]; [| reflexivity].
  cbn [fst snd]. unfold localStorage.setItem, JSON.stringify.
  match goal with
  | |- context [accepts w (store w) KEYS.EVENT_SESSION ?v] =>
      destruct (accepts w (store w) KEYS.EVENT_SESSION v)
  end; cbn [fst snd cars].
  - split.
    + apply List.Forall_forall. intros c Hc.
      apply in_map_iff in Hc as (row & <- & _). split; reflexivity.
    + exists true. split; reflexivity.
  - split.
    + apply List.Forall_forall. intros c Hc.
      apply in_map_iff in Hc as (row & <- & _). split; reflexivity.
    + exists false. split; reflexivity.
Qed.

(** ** Orders and the remote mirror *)

(** X10. [saveOrder] is all or nothing, and it is not guarded: either it
    returns, the order is then the first of the stored orders and its
    sync is launched when a user is signed in; or it throws (the stored
    text does not parse, or the device refuses the write), and then
    nothing was stored and no sync was launched. *)
Theorem saveOrder_all_or_nothing (w : OrderStore) (order : Order) :
  match saveOrder order w with
  | (Normal _, w') =>
      exists old,
        getOrders w = Normal old
        /\ getOrders w' = Normal (order :: old)
        /\ order_syncs w'
           = match orders_user w with
             | None | Some "" => order_syncs w
             | Some _ => (order_syncs w ++ [order])%list
             end
  | (Throws e, w') =>
      w' = w
      /\ (getOrders w = Throws e
          \/ (e = QuotaExceededError
              /\ exists old, getOrders w = Normal old
                             /\ orders_fit w (JsonOrders (order :: old)) = false))
  end.
Proof.
  unfold saveOrder. destruct (getOrders w) as [old | e] eqn:Hget.
  - destruct (orders_fit w (JsonOrders (order :: old))) eqn:Hfit.
    + exists old. repeat split.
    + split; [reflexivity |]. right. split; [reflexivity |]. eauto.
  - split; [reflexivity | left; reflexivity].
Qed.

Section Upserts.

Context {V : Type} (key : V -> string).

Let put (m : gmap string V) (row : V) : gmap string V := <[key row := row]> m.

Lemma foldl_put_union (l : list V) (m : gmap string V) :
  foldl put m l = list_to_map (reverse (map (fun r => (key r, r)) l)) ∪ m.
Proof.
  revert m. induction l as [| r l IH]; intros m; cbn [foldl map].
  - rewrite reverse_nil. cbn. rewrite (left_id_L ∅ (∪)). reflexivity.
  - rewrite IH, reverse_cons, list_to_map_app. cbn [list_to_map foldr].
    unfold put. rewrite <- (assoc_L (∪)).
    rewrite <- insert_union_l, (left_id_L ∅ (∪)). reflexivity.
Qed.

Lemma foldl_put_twice (l : list V) (m : gmap string V) :
  foldl put (foldl put m l) l = foldl put m l.
Proof.
  rewrite !foldl_put_union, (assoc_L (∪)), (idemp_L (∪)). reflexivity.
Qed.

Lemma foldl_put_origin (l : list V) (m : gmap string V) k r :
  foldl put m l !! k = Some r -> (In r l /\ key r = k) \/ m !! k = Some r.
Proof.
  rewrite foldl_put_union. intros H.
  apply lookup_union_Some_raw in H as [H | [_ H]]; [left | right; exact H].
  apply elem_of_list_to_map_2 in H.
  apply elem_of_reverse, list_elem_of_In, in_map_iff in H as (x & Hx & Hin).
  injection Hx as <- <-. auto.
Qed.


End Upserts.

Lemma sync_styles_rows faults car tables :
  sync_styles faults car tables
  = {| snap_events := snap_events tables;
       snap_cars := snap_cars tables;
       snap_styles := foldl put_style (snap_styles tables) (style_rows faults car) |}.
Proof.
  unfold sync_styles, style_rows. revert tables.
  induction (styles car) as [| style l IH]; intros tables; cbn [foldl omap list_omap].
  - destruct tables; reflexivity.
  - destruct (is_idle (status style)); [apply IH |].
    destruct (style_fails faults (style_upsert car style)); [apply IH |].
    rewrite IH. reflexivity.
Qed.

Lemma sync_cars_rows faults session tables :
  sync_cars faults session tables
  = {| snap_events := snap_events tables;
       snap_cars :=
         foldl put_car (snap_cars tables)
           (map (car_upsert session) (synced_cars faults session));
       snap_styles :=
         foldl put_style (snap_styles tables)
           (flat_map (style_rows faults) (synced_cars faults session)) |}.
Proof.
  unfold sync_cars, synced_cars. revert tables.
  induction (cars session) as [| car l IH]; intros tables;
    cbn [foldl List.filter].
  - destruct tables; reflexivity.
  - destruct (car_fails faults (car_upsert session car)); cbn [negb].
    + apply IH.
    + rewrite sync_styles_rows, IH. cbn [snap_events snap_cars snap_styles].
      cbn [map flat_map foldl]. rewrite foldl_app. reflexivity.
Qed.

(** X11. Syncing is idempotent: a second sync of the same session, with
    the remote answering as it did, leaves every table as the first sync
    left it; rows are put under deterministic ids, never appended. *)
Theorem syncEventToSupabase_idempotent (client : bool) (user : option string)
    (faults : Faults) (session : EventSession) (tables : Tables) :
  syncEventToSupabase client user faults session
    (syncEventToSupabase client user faults session tables)
  = syncEventToSupabase client user faults session tables.
Proof.
  unfold syncEventToSupabase.
  destruct client; [| reflexivity].
  destruct user as [[| a u] |]; try reflexivity.
  destruct (event_fails faults _) eqn:He; [rewrite ?He; reflexivity |].
  rewrite !sync_cars_rows. cbn [snap_events snap_cars snap_styles].
  rewrite insert_insert_eq.
  unfold put_car, put_style.
  rewrite (foldl_put_twice cu_id), (foldl_put_twice su_id). reflexivity.
Qed.

Lemma style_rows_spec faults car r :
  In r (style_rows faults car) ->
  exists style, In style (styles car) /\ r = style_upsert car style
                /\ is_idle (status style) = false.
Proof.
  unfold style_rows. intros H.
  apply list_elem_of_In, list_elem_of_omap in H as (style & Hin & Hrow).
  exists style. apply list_elem_of_In in Hin.
  destruct (is_idle (status style)); [discriminate |].
  destruct (style_fails faults _); [discriminate |].
  injection Hrow as <-. auto.
Qed.

Lemma image_url_column_not_data u v :
  image_url_column u = Some v -> Js.startsWith v "data:" = false.
Proof.
  unfold image_url_column. destruct u as [u |]; [| discriminate].
  destruct (negb (u =? "")%string && negb (Js.startsWith u "data:")) eqn:E;
    [| discriminate].
  intros H. injection H as <-.
  apply andb_true_iff in E as [_ E]. apply negb_true_iff in E. exact E.
Qed.

Lemma thumbnail_column_small t v :
  thumbnail_column t = Some v -> Z.of_nat (String.length v) < 15000.
Proof.
  unfold thumbnail_column. destruct t as [t |]; [| discriminate].
  destruct (negb (t =? "")%string && (Z.of_nat (String.length t) <? 15000)) eqn:E;
    [| discriminate].
  intros H. injection H as <-.
  apply andb_true_iff in E as [_ E]. apply Z.ltb_lt. exact E.
Qed.

(** A sync does nothing, or puts the event row and then the rows of the
    cars and of their styles. *)
Lemma syncEventToSupabase_cases client user faults session tables :
  syncEventToSupabase client user faults session tables = tables
  \/ exists uid,
       syncEventToSupabase client user faults session tables
       = {| snap_events :=
              <[ev_id session := event_upsert uid session]> (snap_events tables);
            snap_cars :=
              foldl put_car (snap_cars tables)
                (map (car_upsert session) (synced_cars faults session));
            snap_styles :=
              foldl put_style (snap_styles tables)
                (flat_map (style_rows faults) (synced_cars faults session)) |}.
Proof.
  unfold syncEventToSupabase.
  destruct client; [| auto].
  destruct user as [[| a u] |]; auto.
  destruct (event_fails faults _); [auto |].
  right. exists (String a u). rewrite sync_cars_rows. reflexivity.
Qed.

(** X12. What the mirror never receives: a style row that a sync puts in
    the remote table is not an unstarted style, and its image is absent
    or a URL that is not a data URL; a car row it puts has no thumbnail
    or one of fewer than 15000 characters. *)
Theorem syncEventToSupabase_mirrors_no_image_data (client : bool)
    (user : option string) (faults : Faults) (session : EventSession)
    (tables : Tables) :
  let tables' := syncEventToSupabase client user faults session tables in
  (forall k r,
      snap_styles tables' !! k = Some r ->
      snap_styles tables !! k = Some r
      \/ (su_status r <> Idle
          /\ forall u, su_image_url r = Some u -> Js.startsWith u "data:" = false))
  /\ (forall k c,
         snap_cars tables' !! k = Some c ->
         snap_cars tables !! k = Some c
         \/ forall t, cu_photo_thumbnail c = Some t ->
                      Z.of_nat (String.length t) < 15000).
Proof.
  cbn zeta.
  destruct (syncEventToSupabase_cases client user faults session tables)
    as [-> | [uid ->]]; [split; auto |].
  cbn [snap_styles snap_cars]. split.
  - intros k r H.
    apply (foldl_put_origin su_id) in H as [[Hin _] | H]; [| auto].
    right. apply in_flat_map in Hin as (car & Hcar & Hr).
    apply style_rows_spec in Hr as (style & Hs & -> & Hidle). split.
    + cbn. destruct (status style); [discriminate Hidle | discriminate ..].
    + intros u Hu. cbn in Hu. eapply image_url_column_not_data, Hu.
  - intros k c H.
    apply (foldl_put_origin cu_id) in H as [[Hin _] | H]; [| auto].
    right. apply in_map_iff in Hin as (car & <- & _).
    intros t Ht. cbn in Ht. eapply thumbnail_column_small, Ht.
Qed.

Lemma syncEventToSupabase_mirrors_no_image_data_witness :
  exists r,
    snap_styles (syncEventToSupabase true (Some "user_1") no_faults four_cars
                   empty_tables) !! "d_neon" = Some r
    /\ su_status r <> Idle.
Proof.
  eexists. split; [vm_compute; reflexivity |].
  destruct (proj1 (syncEventToSupabase_mirrors_no_image_data true
                     (Some "user_1") no_faults four_cars empty_tables)
              "d_neon" _ ltac:(vm_compute; reflexivity)) as [H | [H _]].
  - vm_compute in H. discriminate H.
  - exact H.
Defined.



Section OrchestrationMore.

Variable identity : CarIdentity.
Variable styleConfigs : list StyleConfig.
Variable referenceImage : option string.
Variable generateArt : CarIdentity -> StyleConfig -> option string -> Api.Settlement.
Variable onStyleComplete : option (SnapMerchStyle -> string -> Api.Outcome).
Variable onStyleError : option (SnapMerchStyle -> option string -> Api.Outcome).

Local Abbreviation exp_callbacks' :=
  (expected_callbacks identity referenceImage generateArt).
Local Abbreviation all_owed' :=
  (owed identity referenceImage generateArt onStyleComplete onStyleError).
Local Abbreviation with_s' := (with_settlement identity referenceImage generateArt).
Local Abbreviation generateAllStyles' :=
  (Api.generateAllStyles identity styleConfigs referenceImage generateArt
     onStyleComplete onStyleError).

Lemma completion_of_request n config :
  completion_of (with_s' (n, config))
  = match generateArt identity config referenceImage with
    | Api.Resolves url => Some (id config, url)
    | Api.Rejects _ => None
    end.
Proof.
  unfold with_settlement, completion_of. cbn [fst snd].
  destruct (generateArt identity config referenceImage); reflexivity.
Qed.

Lemma returned_callbacks (t0 : nat) (schedule : list Api.Action)
    (st : Api.State) :
  quiet_onStyleComplete onStyleComplete ->
  given_onStyleError onStyleError ->
  generateAllStyles' t0 schedule = Some st ->
  Api.returned st = true ->
  Api.callbacks (Api.history st) ≡ₚ exp_callbacks' styleConfigs.
Proof.
  intros Hq Hg Hrun Hret.
  pose proof (generateAllStyles_inv _ _ _ _ _ _ _ _ _ Hrun) as Hinv.
  destruct (returned_inv _ _ _ _ _ _ _ Hinv Hret) as (_ & _ & Hcb & _).
  rewrite <- (owed_quiet _ _ _ _ _ _ Hq Hg). exact Hcb.
Qed.

(** X14. What a returned invocation has done, for any list of requests,
    any callbacks and any interleaving: each request was called once, in
    the order of the list, and its call settled once, as [generateArt]
    has it; the callbacks that were called are those owed to each
    request ([onStyleComplete] for a call that resolved, and after it
    [onStyleError] when [onStyleComplete] threw; [onStyleError] for a
    call that rejected; no call of a callback that was not given), which
    is one callback for each request when both are given and
    [onStyleComplete] does not throw; no member is pending; and the
    returned map holds an entry exactly for the ids of the requests that
    succeeded, each entry being the image of a request of that id. An
    empty list returns an empty map without a call. *)
Theorem generateAllStyles_outcome (t0 : nat) (schedule : list Api.Action)
    (st : Api.State) :
  generateAllStyles' t0 schedule = Some st ->
  Api.returned st = true ->
  Api.calls (Api.history st) = indexed styleConfigs
  /\ Api.settlements (Api.history st) ≡ₚ map with_s' (indexed styleConfigs)
  /\ Api.callbacks (Api.history st) ≡ₚ all_owed' (indexed styleConfigs)
  /\ (quiet_onStyleComplete onStyleComplete ->
      given_onStyleError onStyleError ->
      Api.callbacks (Api.history st) ≡ₚ exp_callbacks' styleConfigs)
  /\ Api.batchPromises st = []
  /\ (forall sid url,
         Api.results st !! sid = Some url ->
         exists n config,
           styleConfigs !! n = Some config /\ id config = sid
           /\ generateArt identity config referenceImage = Api.Resolves url)
  /\ (forall n config url,
         styleConfigs !! n = Some config ->
         generateArt identity config referenceImage = Api.Resolves url ->
         is_Some (Api.results st !! id config)).
Proof.
  intros Hrun Hret.
  pose proof (generateAllStyles_inv _ _ _ _ _ _ _ _ _ Hrun) as Hinv.
  destruct (returned_inv _ _ _ _ _ _ _ Hinv Hret)
    as (Hbp & Hc & Hcb & Hst & _ & _).
  split; [exact Hc |]. split; [exact Hst |]. split; [exact Hcb |].
  split; [intros Hq Hg; rewrite <- (owed_quiet _ _ _ _ _ _ Hq Hg); exact Hcb |].
  split; [exact Hbp |].
  assert (Hcomp : Api.completions (Api.history st)
                  ≡ₚ omap completion_of (map with_s' (indexed styleConfigs))).
  { rewrite completions_settlements, Hst. reflexivity. }
  rewrite (inv_results _ _ _ _ _ _ _ Hinv). split.
  - intros sid url Hl. apply elem_of_list_to_map_2 in Hl.
    rewrite Hcomp in Hl.
    apply list_elem_of_omap in Hl as (x & Hx & Hcompl).
    apply list_elem_of_fmap in Hx as ([n config] & -> & Hnc).
    unfold indexed in Hnc.
    apply elem_of_lookup_imap in Hnc as (n' & config' & Heq & Hn).
    injection Heq as -> ->.
    rewrite completion_of_request in Hcompl.
    destruct (generateArt identity config' referenceImage) as [u |] eqn:Hg;
      [| discriminate].
    injection Hcompl as <- <-. eauto.
  - intros n config url Hn Hg.
    destruct (list_to_map (Api.completions (Api.history st))
                !! id config) as [u |] eqn:Hl; [eauto |].
    exfalso. apply not_elem_of_list_to_map in Hl. apply Hl.
    apply list_elem_of_fmap. exists (id config, url). split; [reflexivity |].
    rewrite Hcomp. apply list_elem_of_omap. exists (with_s' (n, config)).
    split; [| rewrite completion_of_request, Hg; reflexivity].
    apply list_elem_of_fmap. exists (n, config). split; [reflexivity |].
    unfold indexed. apply elem_of_lookup_imap. eauto.
Qed.

Lemma omap_length_le {A B} (f : A -> option B) (l : list A) :
  (length (omap f l) <= length l)%nat.
Proof.
  induction l as [| a l IH]; cbn; [lia |].
  destruct (f a); cbn; lia.
Qed.

Lemma finished_members_le_calls tasks :
  (length (finished_members tasks) <= length (batch_calls tasks))%nat.
Proof.
  induction tasks as [| t l IH]; [reflexivity |].
  rewrite finished_members_cons, batch_calls_cons. destruct t; cbn; lia.
Qed.

Lemma owed_quiet_length (l : list (nat * StyleConfig)) :
  quiet_onStyleComplete onStyleComplete ->
  given_onStyleError onStyleError ->
  length (all_owed' l) = length l.
Proof.
  intros Hq Hg. unfold owed. induction l as [| [n config] l IH]; [reflexivity |].
  cbn [flat_map fst snd].
  rewrite (callbacks_owed_quiet _ _ _ _ _ _ _ Hq Hg). cbn. rewrite IH.
  reflexivity.
Qed.

(** X15. The cap: at any moment of any run, whatever the callbacks do,
    the calls that were issued and have not settled are at most two
    ([MAX_CONCURRENT]); and when both callbacks are given and
    [onStyleComplete] does not throw, the same holds with the callbacks
    that were called in place of the calls that settled. *)
Theorem generateAllStyles_cap (t0 : nat) (schedule : list Api.Action)
    (st : Api.State) :
  generateAllStyles' t0 schedule = Some st ->
  (length (Api.settlements (Api.history st))
   <= length (Api.calls (Api.history st))
   <= length (Api.settlements (Api.history st)) + Api.MAX_CONCURRENT)%nat
  /\ (quiet_onStyleComplete onStyleComplete ->
      given_onStyleError onStyleError ->
      (length (Api.callbacks (Api.history st))
       <= length (Api.calls (Api.history st))
       <= length (Api.callbacks (Api.history st)) + Api.MAX_CONCURRENT)%nat).
Proof.
  intros Hrun.
  destruct (generateAllStyles_inv _ _ _ _ _ _ _ _ _ Hrun)
    as [Hh Hr He Hs Hcb Hst Hc Hw Hb].
  apply Permutation_length in Hst, Hcb.
  rewrite length_map in Hst. unfold settled_requests in Hst, Hcb.
  pose proof (finished_members_le_calls (Api.batchPromises st)) as H1.
  pose proof (omap_length_le
                (fun t => match t with
                          | Api.Calling n config
                          | Api.Finished n config _ => Some (n, config)
                          | Api.Delayed _ _ _ => None
                          end) (Api.batchPromises st)) as H2.
  fold (batch_calls (Api.batchPromises st)) in H2.
  assert (H3 : (length (Api.batchPromises st) <= 2)%nat).
  { unfold batch_ok in Hb. destruct (Api.returned st).
    - destruct Hb as [_ ->]. cbn. lia.
    - destruct Hb as (ts & c0 & T0 & _ & _ & _ & Hrest).
      destruct (styleConfigs !! S (Api.i st)).
      + destruct Hrest as (T1 & -> & _). cbn. lia.
      + rewrite Hrest. cbn. lia. }
  split.
  - rewrite Hst, Hc, !length_app. unfold Api.MAX_CONCURRENT. lia.
  - intros Hq Hg. rewrite (owed_quiet_length _ Hq Hg) in Hcb.
    rewrite Hcb, Hc, !length_app. unfold Api.MAX_CONCURRENT. lia.
Qed.

(** X16. No deadlock: from any state an invocation reaches, some
    continuation brings it to its return. *)
Theorem generateAllStyles_can_always_finish (t0 : nat)
    (schedule : list Api.Action) (st : Api.State) :
  generateAllStyles' t0 schedule = Some st ->
  exists rest st',
    generateAllStyles' t0 (schedule ++ rest)%list = Some st'
    /\ Api.returned st' = true.
Proof.
  intros Hrun.
  destruct (run_can_finish _ _ _ _ _ _ st
              (generateAllStyles_inv _ _ _ _ _ _ _ _ _ Hrun))
    as (rest & st' & Hrest & Hret).
  exists rest, st'. split; [| exact Hret].
  unfold Api.generateAllStyles in *. rewrite run_app, Hrun. exact Hrest.
Qed.

End OrchestrationMore.

Lemma generateAllStyles_outcome_witness :
  exists st,
    Api.generateAllStyles toyota_supra_2021 four_requests None second_fails
      (Some fussy_onStyleComplete) None 0 a_full_run = Some st
    /\ Api.calls (Api.history st) = indexed four_requests
    /\ Api.callbacks (Api.history st)
       ≡ₚ [Api.OnStyleComplete 0 "vector" "data:image/jpeg;base64,vector";
           Api.OnStyleComplete 2 "calligram" "data:image/jpeg;base64,calligram";
           Api.OnStyleComplete 3 "neon" "data:image/jpeg;base64,neon"].
Proof.
  destruct (Api.generateAllStyles toyota_supra_2021 four_requests None
              second_fails (Some fussy_onStyleComplete) None 0 a_full_run)
    as [st |] eqn:Hrun; [| vm_compute in Hrun; discriminate Hrun].
  assert (Hret : Api.returned st = true).
  { vm_compute in Hrun. injection Hrun as <-. reflexivity. }
  exists st. split; [reflexivity |].
  destruct (generateAllStyles_outcome _ _ _ _ _ _ _ _ _ Hrun Hret)
    as (Hcalls & _ & Hcallbacks & _).
  split; [exact Hcalls | exact Hcallbacks].
Defined.

Lemma generateAllStyles_cap_witness :
  exists st,
    Api.generateAllStyles toyota_supra_2021 four_requests None second_fails
      (Some fussy_onStyleComplete) (Some VendorMode.batchOnError)
      10 a_partial_run = Some st
    /\ (length (Api.calls (Api.history st))
        <= length (Api.settlements (Api.history st)) + 2)%nat.
Proof.
  destruct (Api.generateAllStyles toyota_supra_2021 four_requests None
              second_fails (Some fussy_onStyleComplete)
              (Some VendorMode.batchOnError) 10 a_partial_run)
    as [st |] eqn:Hrun; [| vm_compute in Hrun; discriminate Hrun].
  exists st. split; [reflexivity |].
  exact (proj2 (proj1 (generateAllStyles_cap _ _ _ _ _ _ _ _ _ Hrun))).
Defined.

Lemma generateAllStyles_can_always_finish_witness :
  exists rest st',
    Api.generateAllStyles toyota_supra_2021 four_requests None second_fails
      (Some fussy_onStyleComplete) (Some VendorMode.batchOnError)
      10 (a_partial_run ++ rest)%list = Some st'
    /\ Api.returned st' = true.
Proof.
  destruct (Api.generateAllStyles toyota_supra_2021 four_requests None
              second_fails (Some fussy_onStyleComplete)
              (Some VendorMode.batchOnError) 10 a_partial_run)
    as [st |] eqn:Hrun; [| vm_compute in Hrun; discriminate Hrun].
  exact (generateAllStyles_can_always_finish _ _ _ _ _ _ _ _ _ Hrun).
Defined.

Section OrchestrationClock.

Variable identity : CarIdentity.
Variable styleConfigs : list StyleConfig.
Variable referenceImage : option string.
Variable generateArt : CarIdentity -> StyleConfig -> option string -> Api.Settlement.
Variable onStyleComplete : option (SnapMerchStyle -> string -> Api.Outcome).
Variable onStyleError : option (SnapMerchStyle -> option string -> Api.Outcome).
Variable t0 : nat.

Local Abbreviation step_c :=
  (Api.step identity styleConfigs referenceImage generateArt onStyleComplete
     onStyleError).
Local Abbreviation inv_c :=
  (Inv identity styleConfigs referenceImage generateArt onStyleComplete
     onStyleError).
Local Abbreviation clock_c := (clock_ok t0 (length styleConfigs)).

Lemma enter_loop_clock i0 st :
  (stagger_floor t0 (length styleConfigs) i0 <= Api.time_now st)%nat ->
  clock_c (Api.enter_loop styleConfigs i0 st).
Proof.
  intros Hfloor. destruct (styleConfigs !! i0) as [c0 |] eqn:H0.
  - rewrite (enter_loop_some _ _ _ _ H0). unfold clock_ok.
    cbn [Api.returned Api.i Api.time_now].
    exists (Api.time_now st). split; [exact Hfloor |]. split; [lia |].
    intros k task Hk. cbn [Api.batchPromises] in Hk.
    destruct k as [| k]; cbn in Hk.
    + injection Hk as <-. left. reflexivity.
    + destruct (styleConfigs !! S i0); [| discriminate].
      destruct k; cbn in Hk; [| discriminate].
      injection Hk as <-. reflexivity.
  - rewrite (enter_loop_none _ _ _ H0). unfold clock_ok.
    cbn [Api.returned Api.i Api.time_now]. exact Hfloor.
Qed.

Lemma start_clock : clock_c (Api.start styleConfigs t0).
Proof.
  unfold Api.start. apply enter_loop_clock. unfold stagger_floor.
  cbn. lia.
Qed.

Lemma step_clock a st st' :
  inv_c st -> clock_c st -> step_c a st = Some st' -> clock_c st'.
Proof.
  intros Hinv Hclock Hstep. unfold clock_ok in Hclock.
  destruct (Api.returned st) eqn:Hret;
    [unfold Api.step in Hstep; rewrite Hret in Hstep; discriminate |].
  destruct Hclock as (ts & Hfloor & Hts & Htimers).
  destruct a as [d | k | k |].
  - (* time passes *)
    unfold Api.step in Hstep. rewrite Hret in Hstep. injection Hstep as <-.
    unfold clock_ok. cbn [Api.returned Api.i Api.time_now].
    exists ts. split; [exact Hfloor |]. split; [lia |].
    intros k task Hk. specialize (Htimers k task Hk).
    destruct task; cbn [Api.time_now]; [exact Htimers | |];
      (destruct Htimers; [left; assumption | right; lia]).
  - (* the timer fires *)
    unfold Api.step in Hstep. rewrite Hret in Hstep.
    destruct (Api.batchPromises st !! k) as [[n config wake | |] |] eqn:Hk;
      try discriminate.
    destruct (wake <=? Api.time_now st)%nat eqn:Hw; [| discriminate].
    apply Nat.leb_le in Hw. injection Hstep as <-.
    pose proof (Htimers k _ Hk) as Hwake. cbn in Hwake.
    unfold clock_ok. cbn [Api.returned Api.i Api.time_now].
    exists ts. split; [exact Hfloor |]. split; [exact Hts |].
    intros k' task Hk'. cbn [Api.batchPromises] in Hk'.
    destruct (decide (k' = k)) as [-> | Hne].
    + rewrite list_lookup_insert_eq in Hk' by (eapply lookup_lt_Some; eauto).
      injection Hk' as <-. right. cbn [Api.time_now]. lia.
    + rewrite list_lookup_insert_ne in Hk' by congruence.
      exact (Htimers k' task Hk').
  - (* a call settles *)
    assert (Hk : exists n config,
               Api.batchPromises st !! k = Some (Api.Calling n config)).
    { unfold Api.step in Hstep. rewrite Hret in Hstep.
      destruct (Api.batchPromises st !! k) as [[| n config |] |];
        try discriminate. eauto. }
    destruct Hk as (n & config & Hk).
    pose proof (Htimers k _ Hk) as Hmine. cbn in Hmine.
    destruct (step_settle _ _ _ _ _ _ k n config st st' Hret Hk Hstep)
      as (fulfilled & _ & Hbp' & Hi' & Hret' & Htime' & _).
    unfold clock_ok. rewrite Hret', Hi', Htime'.
    exists ts. split; [exact Hfloor |]. split; [exact Hts |].
    intros k' task Hk'. rewrite Hbp' in Hk'. rewrite Htime'.
    destruct (decide (k' = k)) as [-> | Hne].
    + rewrite list_lookup_insert_eq in Hk' by (eapply lookup_lt_Some; eauto).
      injection Hk' as <-. exact Hmine.
    + rewrite list_lookup_insert_ne in Hk' by congruence.
      exact (Htimers k' task Hk').
  - (* the batch is over *)
    unfold Api.step in Hstep. rewrite Hret in Hstep.
    destruct (forallb Api.is_finished (Api.batchPromises st)) eqn:Hall;
      [| discriminate].
    injection Hstep as <-. apply enter_loop_clock.
    pose proof (inv_even _ _ _ _ _ _ _ Hinv) as He.
    pose proof (inv_batch _ _ _ _ _ _ _ Hinv) as Hb.
    unfold batch_ok in Hb. rewrite Hret in Hb.
    destruct Hb as (ts' & c0 & T0 & _ & H0 & _ & Hrest).
    pose proof (lookup_lt_Some _ _ _ H0) as Hlt.
    unfold stagger_floor in *. unfold Api.MAX_CONCURRENT.
    rewrite (Nat.min_l (Api.i st)) in Hfloor by lia.
    destruct (styleConfigs !! S (Api.i st)) as [c1 |] eqn:H1.
    + destruct Hrest as (T1 & Hbp & _).
      pose proof (lookup_lt_Some _ _ _ H1) as Hlt1.
      assert (Hwaited : (ts + 500 <= Api.time_now st)%nat).
      { rewrite Hbp in Hall. cbn in Hall.
        apply andb_true_iff in Hall as [_ Hall].
        apply andb_true_iff in Hall as [Hall _].
        specialize (Htimers 1%nat T1). rewrite Hbp in Htimers.
        specialize (Htimers eq_refl).
        destruct T1; [discriminate | discriminate |].
        destruct Htimers; [discriminate | assumption]. }
      rewrite (Nat.min_l (Api.i st + 2)) by lia.
      rewrite (half_plus2 _ He). lia.
    + apply lookup_ge_None in H1.
      rewrite (Nat.min_r (Api.i st + 2)) by lia.
      replace (length styleConfigs) with (S (Api.i st)) by lia.
      rewrite (half_succ _ He). lia.
Qed.

Lemma run_clock schedule st st' :
  inv_c st -> clock_c st ->
  Api.run identity styleConfigs referenceImage generateArt onStyleComplete
    onStyleError schedule st = Some st' ->
  clock_c st'.
Proof.
  revert st. induction schedule as [| a schedule IH]; intros st Hinv Hclock Hrun.
  - injection Hrun as <-. exact Hclock.
  - cbn [Api.run] in Hrun.
    destruct (step_c a st) as [st1 |] eqn:Hstep; [| discriminate].
    apply (IH st1).
    + eapply step_inv; eassumption.
    + eapply step_clock; eassumption.
    + exact Hrun.
Qed.

(** X17. The stagger sets a floor on the duration: an invocation over
    [n] requests started at [t0] does not return before
    [t0 + 500 * (n / 2)] milliseconds, however fast the remote calls
    are and whatever the callbacks do. *)
Theorem generateAllStyles_takes_its_time (schedule : list Api.Action)
    (st : Api.State) :
  Api.generateAllStyles identity styleConfigs referenceImage generateArt
    onStyleComplete onStyleError t0 schedule = Some st ->
  Api.returned st = true ->
  (t0 + 500 * (length styleConfigs / 2) <= Api.time_now st)%nat.
Proof.
  intros Hrun Hret.
  pose proof (generateAllStyles_inv _ _ _ _ _ _ _ _ _ Hrun) as Hinv.
  pose proof (run_clock _ _ _ (start_inv _ _ _ _ _ _ _) start_clock Hrun) as Hc.
  unfold clock_ok in Hc. rewrite Hret in Hc.
  pose proof (inv_batch _ _ _ _ _ _ _ Hinv) as Hb.
  unfold batch_ok in Hb. rewrite Hret in Hb. destruct Hb as [Hlen _].
  unfold stagger_floor in Hc. rewrite Nat.min_r in Hc by lia. exact Hc.
Qed.

End OrchestrationClock.

Lemma generateAllStyles_takes_its_time_witness :
  exists st,
    Api.generateAllStyles toyota_supra_2021 four_requests None second_fails
      (Some fussy_onStyleComplete) (Some VendorMode.batchOnError)
      0 a_full_run = Some st
    /\ (1000 <= Api.time_now st)%nat.
Proof.
  destruct (Api.generateAllStyles toyota_supra_2021 four_requests None
              second_fails (Some fussy_onStyleComplete)
              (Some VendorMode.batchOnError) 0 a_full_run)
    as [st |] eqn:Hrun; [| vm_compute in Hrun; discriminate Hrun].
  assert (Hret : Api.returned st = true).
  { vm_compute in Hrun. injection Hrun as <-. reflexivity. }
  exists st. split; [reflexivity |].
  exact (generateAllStyles_takes_its_time _ _ _ _ _ _ _ _ _ Hrun Hret).
Defined.

(** ** The vendor view *)

Lemma afterCallbacks_styles h car :
  VendorMode.afterCallbacks h car
  = VendorMode.with_styles car
      (map (fun s => foldr settle s h) (styles car)).
Proof.
  induction h as [| e h IH]; cbn [VendorMode.afterCallbacks foldr].
  - rewrite map_id. destruct car; reflexivity.
  - destruct e; rewrite IH;
      unfold VendorMode.onStyleComplete, VendorMode.onStyleError,
        VendorMode.with_styles; cbn; rewrite ?map_map; reflexivity.
Qed.

Lemma settle_styleId e s : styleId (settle e s) = styleId s.
Proof.
  destruct e; cbn; try reflexivity;
    destruct (String.eqb (styleId s) styleId0); reflexivity.
Qed.

Lemma foldr_settle_styleId h s : styleId (foldr settle s h) = styleId s.
Proof.
  induction h as [| e h IH]; cbn; [reflexivity |].
  rewrite settle_styleId. exact IH.
Qed.

Lemma settle_other e s :
  Api.is_callback e = true -> event_sid e <> styleId s -> settle e s = s.
Proof.
  destruct e; cbn; try discriminate; intros _ Hne;
    (destruct (String.eqb_spec (styleId s) styleId0); [congruence | reflexivity]).
Qed.

Lemma foldr_settle_none h s :
  Forall (fun e => Api.is_callback e = true) h ->
  (forall e, In e h -> event_sid e <> styleId s) ->
  foldr settle s h = s.
Proof.
  induction h as [| e h IH]; intros Hcb Hne; cbn; [reflexivity |].
  apply Forall_cons in Hcb as [He Hcb].
  rewrite IH by (auto; intros e' He'; apply Hne; right; exact He').
  apply settle_other; [exact He | apply Hne; left; reflexivity].
Qed.

Lemma foldr_settle_one h s e :
  Forall (fun e => Api.is_callback e = true) h ->
  NoDup (map event_sid h) ->
  In e h -> event_sid e = styleId s ->
  foldr settle s h = settle e s.
Proof.
  induction h as [| x h IH]; intros Hcb Hnd Hin Hsid; [destruct Hin |].
  cbn [foldr map] in *. apply Forall_cons in Hcb as [Hx Hcb].
  apply NoDup_cons in Hnd as [Hnotin Hnd].
  destruct Hin as [-> | Hin].
  - rewrite foldr_settle_none; [reflexivity | exact Hcb |].
    intros e' He' Heq. apply Hnotin. rewrite Hsid, <- Heq.
    apply list_elem_of_In, in_map, He'.
  - rewrite (IH Hcb Hnd Hin Hsid). apply settle_other; [exact Hx |].
    rewrite settle_styleId. intros Heq. apply Hnotin.
    rewrite Heq, <- Hsid. apply list_elem_of_In, in_map, Hin.
Qed.

Section VendorBatch.

Variable identity : CarIdentity.
Variable styleConfigs : list StyleConfig.
Variable referenceImage : option string.
Variable generateArt : CarIdentity -> StyleConfig -> option string -> Api.Settlement.

Local Abbreviation callback_v := (Api.callback_of identity referenceImage generateArt).

Lemma event_sid_callback_of n config : event_sid (callback_v n config) = id config.
Proof.
  unfold Api.callback_of.
  destruct (generateArt identity config referenceImage); reflexivity.
Qed.

Lemma settle_callback_of n config s :
  id config = styleId s ->
  settle (callback_v n config) s
  = match generateArt identity config referenceImage with
    | Api.Resolves url =>
        {| styleId := styleId s; imageUrl := Some url; status := Done;
           error := error s |}
    | Api.Rejects message =>
        {| styleId := styleId s; imageUrl := imageUrl s; status := Error;
           error := Some message |}
    end.
Proof.
  intros Hid. unfold Api.callback_of.
  destruct (generateArt identity config referenceImage); cbn;
    rewrite Hid, String.eqb_refl; reflexivity.
Qed.

(** X18. The vendor view after a batch: when [generateAllStyles], called
    with the two callbacks of [generateStyleBatch], has returned,
    whatever the interleaving, the car on which the callbacks were
    applied has the same style slots in the same order; every style
    that was requested is done with the image of its call or in error
    with its message (none is left generating), and the other styles and
    the rest of the car are untouched. The requests have distinct ids. *)
Theorem batch_settles_every_requested_style (t0 : nat)
    (schedule : list Api.Action) (st : Api.State) (car : CarSession) :
  NoDup (map id styleConfigs) ->
  Api.generateAllStyles identity styleConfigs referenceImage generateArt
    (Some VendorMode.batchOnComplete) (Some VendorMode.batchOnError)
    t0 schedule = Some st ->
  Api.returned st = true ->
  VendorMode.afterCallbacks (Api.history st)
    (VendorMode.markGenerating styleConfigs car)
  = VendorMode.with_styles car
      (map (settled_style identity styleConfigs referenceImage generateArt)
         (styles (VendorMode.markGenerating styleConfigs car)))
  /\ Forall (fun s =>
               existsb (fun c => String.eqb (id c) (styleId s)) styleConfigs
               = true ->
               status s = Done \/ status s = Error)
       (styles (VendorMode.afterCallbacks (Api.history st)
                  (VendorMode.markGenerating styleConfigs car)))
  /\ map styleId
       (styles (VendorMode.afterCallbacks (Api.history st)
                  (VendorMode.markGenerating styleConfigs car)))
     = map styleId (styles car).
Proof.
  intros Hnd Hrun Hret.
  assert (Hq : quiet_onStyleComplete (Some VendorMode.batchOnComplete))
    by (eexists; split; reflexivity).
  assert (Hg : given_onStyleError (Some VendorMode.batchOnError))
    by (eexists; reflexivity).
  pose proof (returned_callbacks _ _ _ _ _ _ _ _ _ Hq Hg Hrun Hret) as Hcb.
  assert (Hfold : forall h s, foldr settle s h = foldr settle s (Api.callbacks h)).
  { induction h as [| e h IH]; intros s; [reflexivity |].
    cbn [foldr Api.callbacks List.filter]. fold (Api.callbacks h).
    destruct e; cbn [Api.is_callback foldr settle]; rewrite IH; reflexivity. }
  assert (Hall : Forall (fun e => Api.is_callback e = true)
                   (Api.callbacks (Api.history st))).
  { apply List.Forall_forall. intros e He.
    apply filter_In in He as [_ He]. exact He. }
  assert (Hsids : map event_sid (Api.callbacks (Api.history st))
                  ≡ₚ map id styleConfigs).
  { rewrite Hcb. unfold expected_callbacks.
    assert (H : forall k l,
               map event_sid
                 (imap (fun n => callback_v (k + n)) l) = map id l).
    { intros k l. revert k. induction l as [| c l IH]; intros k; cbn;
        [reflexivity |].
      rewrite event_sid_callback_of. f_equal.
      rewrite <- (IH (S k)). f_equal. apply imap_ext.
      intros n x _. cbn. f_equal. lia. }
    rewrite <- (H 0%nat styleConfigs). reflexivity. }
  assert (Hnd' : NoDup (map event_sid (Api.callbacks (Api.history st))))
    by (rewrite Hsids; exact Hnd).
  assert (Hstyle : forall s,
             foldr settle s (Api.history st)
             = settled_style identity styleConfigs referenceImage generateArt s).
  { intros s. rewrite Hfold. unfold settled_style.
    destruct (List.find (fun c => String.eqb (id c) (styleId s)) styleConfigs)
      as [c |] eqn:Hfind.
    - apply find_some in Hfind as [Hin Hid]. apply String.eqb_eq in Hid.
      apply list_elem_of_In, list_elem_of_lookup in Hin as [n Hn].
      rewrite (foldr_settle_one _ s (callback_v n c) Hall Hnd').
      + apply settle_callback_of, Hid.
      + apply list_elem_of_In. rewrite Hcb. unfold expected_callbacks.
        apply elem_of_lookup_imap. eauto.
      + rewrite event_sid_callback_of. exact Hid.
    - apply foldr_settle_none; [exact Hall |].
      intros e He Hsid. apply list_elem_of_In in He. rewrite Hcb in He.
      unfold expected_callbacks in He.
      apply elem_of_lookup_imap in He as (n & c & -> & Hn).
      rewrite event_sid_callback_of in Hsid.
      assert (Hc : In c styleConfigs)
        by (apply list_elem_of_In, list_elem_of_lookup; eauto).
      pose proof (find_none _ _ Hfind c Hc) as Hno. cbn in Hno.
      apply String.eqb_neq in Hno. contradiction. }
  rewrite afterCallbacks_styles.
  rewrite (map_ext _ _ Hstyle).
  split; [| split].
  - unfold VendorMode.markGenerating, VendorMode.with_styles. reflexivity.
  - cbn [styles VendorMode.with_styles].
    apply List.Forall_forall. intros s' Hs'.
    apply in_map_iff in Hs' as (s & <- & _). unfold settled_style.
    intros Hreq.
    destruct (List.find (fun c => String.eqb (id c) (styleId s)) styleConfigs)
      as [c |] eqn:Hfind.
    + destruct (generateArt identity c referenceImage); cbn; auto.
    + exfalso. apply existsb_exists in Hreq as (c & Hin & Hid).
      pose proof (find_none _ _ Hfind c Hin) as H. cbn in H. congruence.
  - cbn [styles VendorMode.with_styles]. rewrite map_map.
    unfold VendorMode.markGenerating. cbn [styles VendorMode.with_styles].
    rewrite map_map. apply map_ext. intros s. unfold settled_style. cbn.
    destruct (existsb _ styleConfigs); cbn;
      (destruct (List.find _ styleConfigs) as [c |];
       [destruct (generateArt identity c referenceImage) |]; reflexivity).
Qed.

End VendorBatch.

Lemma batch_settles_every_requested_style_witness :
  exists st,
    Api.generateAllStyles toyota_supra_2021 four_requests None second_fails
      (Some VendorMode.batchOnComplete) (Some VendorMode.batchOnError)
      0 a_full_run = Some st
    /\ map status
         (styles (VendorMode.afterCallbacks (Api.history st)
                    (VendorMode.markGenerating four_requests captured_car)))
       = [Done; Error; Done; Done; Idle; Idle; Idle; Idle; Idle; Idle; Idle; Idle].
Proof.
  destruct (Api.generateAllStyles toyota_supra_2021 four_requests None
              second_fails (Some VendorMode.batchOnComplete)
              (Some VendorMode.batchOnError) 0 a_full_run)
    as [st |] eqn:Hrun; [| vm_compute in Hrun; discriminate Hrun].
  assert (Hret : Api.returned st = true).
  { vm_compute in Hrun. injection Hrun as <-. reflexivity. }
  assert (Hids : NoDup (map id four_requests))
    by (apply (bool_decide_unpack _); vm_compute; exact I).
  exists st. split; [reflexivity |].
  destruct (batch_settles_every_requested_style toyota_supra_2021
              four_requests None second_fails 0 a_full_run st captured_car
              Hids Hrun Hret) as (Heq & _).
  rewrite Heq. vm_compute. reflexivity.
Defined.

(** ** The ranking and the rounds of the vendor view *)

Lemma arr_includes_spec l x : Js.arr_includes l x = true <-> In x l.
Proof.
  unfold Js.arr_includes. rewrite existsb_exists. split.
  - intros [y [Hy Heq]]. apply String.eqb_eq in Heq. now subst.
  - intros H. exists x. split; [exact H | apply String.eqb_refl].
Qed.

Lemma arr_includes_not l x : Js.arr_includes l x = false <-> ~ In x l.
Proof.
  rewrite <- arr_includes_spec. destruct (Js.arr_includes l x); split;
    congruence.
Qed.

(** X19. The ranking is the row of the priority table: for every
    identity the ids of the ranking are, in order, the row of the
    identity's category, and every entry of the ranking is the catalog's
    entry of its id; the safety net adds nothing. *)
Theorem getPrioritizedStyles_follows_the_table (identity : CarIdentity) :
  map id (getPrioritizedStyles identity)
  = PRIORITY_MAP (categorizeVehicle identity)
  /\ Forall (fun c => In c STYLE_CONFIGS) (getPrioritizedStyles identity).
Proof.
  unfold getPrioritizedStyles.
  generalize (categorizeVehicle identity). intros category.
  destruct category; (split; [vm_compute; reflexivity |]);
    apply (bool_decide_unpack _); vm_compute; exact I.
Qed.

(** X20. What a category says of the vehicle: [lowrider] is given only to
    a year from 1958 to 1985 of a lowrider make, [jdm] only to a JDM
    make, [modern-sports] only from 2010 on, [pre1980-classic] only to a
    year from 1 to 1979, [80s-90s] only to a year from 1980 to 1999, and
    [default] only to a year that did not parse, is not positive, or is
    2000 or later; and every category but [jdm] (and [lowrider], whose
    makes are not JDM makes) is given only when the make is not a JDM
    make. *)
Theorem categorizeVehicle_sound (identity : CarIdentity) :
  category_sound identity (categorizeVehicle identity).
Proof.
  unfold category_sound, categorizeVehicle.
  fold (parsed_year identity) (normalized_make identity)
    (normalized_model identity).
  set (y := parsed_year identity). set (mk := normalized_make identity).
  set (mo := normalized_model identity).
  destruct (1958 <=? y) eqn:E1; destruct (y <=? 1985) eqn:E2;
    cbn [andb];
    try (destruct (existsb (fun m => Js.includes mo m) LOWRIDER_MODELS) eqn:E3;
         cbn [andb];
         try (destruct (Js.arr_includes LOWRIDER_MAKES mk) eqn:E4));
    try (apply arr_includes_spec in E4 as E4';
         split; [lia |]; split; [exact E4' |];
         clear - E4';
         repeat (destruct E4' as [<- | E4']; [vm_compute; intuition discriminate |]);
         destruct E4');
    (destruct (Js.arr_includes JDM_MAKES mk) eqn:E5;
     [apply arr_includes_spec; exact E5 |];
     apply arr_includes_not in E5;
     destruct (existsb (fun k => Js.includes (mk ++ " " ++ mo)%string k)
                 TRUCK_KEYWORDS);
     [exact E5 |];
     destruct (2010 <=? y) eqn:E6; cbn [andb];
     try (destruct (existsb (fun m => Js.includes mk m) SPORTS_EXOTIC_MAKES
                    || existsb (fun m => Js.includes mo m) SPORTS_MODELS);
          [split; [lia | exact E5] |]);
     destruct (0 <? y) eqn:E7; destruct (y <? 1980) eqn:E8; cbn [andb];
     try (split; [lia | exact E5]);
     destruct (1980 <=? y) eqn:E9; destruct (y <=? 1999) eqn:E10; cbn [andb];
     split; try exact E5; lia).
Qed.

Lemma slice_spec {A} (a b : nat) (l : list A) :
  (a <= b)%nat -> (take a l ++ VendorMode.slice a b l = take b l)%list.
Proof.
  intros Hab. unfold VendorMode.slice.
  rewrite <- (take_drop a (take b l)) at 1.
  rewrite take_take, Nat.min_l by lia.
  rewrite skipn_firstn_comm. reflexivity.
Qed.

Lemma handleGenerateMore_spec (v : nat) (l : list StyleConfig) :
  (v <= length l)%nat ->
  VendorMode.handleGenerateMore v l
  = (Nat.min (v + VendorMode.MORE_BATCH_SIZE) (length l),
     VendorMode.slice v (Nat.min (v + VendorMode.MORE_BATCH_SIZE) (length l)) l).
Proof.
  intros Hv. unfold VendorMode.handleGenerateMore.
  destruct (VendorMode.slice v _ l) eqn:E; [| reflexivity].
  f_equal. apply (f_equal length) in E. unfold VendorMode.slice in E.
  rewrite length_take, length_drop in E. cbn in E.
  unfold VendorMode.MORE_BATCH_SIZE in *. lia.
Qed.

(** X21. "Generate more" walks the ranking: from a visible count within
    the list, the styles already visible followed by the new batch are
    the styles visible afterwards; the batch has at most four styles, the
    count never passes the length of the list, and the batch is empty
    exactly when everything was visible already, in which case nothing
    changes. *)
Theorem handleGenerateMore_extends_the_window (visibleCount : nat)
    (orderedConfigs : list StyleConfig) :
  (visibleCount <= length orderedConfigs)%nat ->
  let r := VendorMode.handleGenerateMore visibleCount orderedConfigs in
  (take visibleCount orderedConfigs ++ r.2 = take r.1 orderedConfigs)%list
  /\ (visibleCount <= r.1 <= length orderedConfigs)%nat
  /\ length r.2 = (r.1 - visibleCount)%nat
  /\ (length r.2 <= VendorMode.MORE_BATCH_SIZE)%nat
  /\ (r.2 = [] <-> visibleCount = length orderedConfigs)
  /\ (r.2 = [] -> r.1 = visibleCount).
Proof.
  intros Hv r. subst r. rewrite (handleGenerateMore_spec _ _ Hv).
  cbn [fst snd].
  set (n := Nat.min (visibleCount + VendorMode.MORE_BATCH_SIZE)
              (length orderedConfigs)).
  assert (Hn : (visibleCount <= n <= length orderedConfigs)%nat).
  { subst n. unfold VendorMode.MORE_BATCH_SIZE. lia. }
  assert (Hlen : length (VendorMode.slice visibleCount n orderedConfigs)
                 = (n - visibleCount)%nat).
  { unfold VendorMode.slice. rewrite length_take, length_drop. lia. }
  split; [apply slice_spec; lia |].
  split; [exact Hn |]. split; [exact Hlen |].
  split; [rewrite Hlen; subst n; unfold VendorMode.MORE_BATCH_SIZE; lia |].
  split; [split |].
  - intros E. rewrite E in Hlen. cbn in Hlen. subst n.
    unfold VendorMode.MORE_BATCH_SIZE in *. lia.
  - intros E. apply length_zero_iff_nil. rewrite Hlen. lia.
  - intros E. rewrite E in Hlen. cbn in Hlen. lia.
Qed.

Lemma handleGenerateMore_extends_the_window_witness :
  (take 4 STYLE_CONFIGS
     ++ (VendorMode.handleGenerateMore 4 STYLE_CONFIGS).2
   = take 8 STYLE_CONFIGS)%list.
Proof.
  exact (proj1 (handleGenerateMore_extends_the_window 4 STYLE_CONFIGS
                  ltac:(vm_compute; lia))).
Defined.

(** X22. The rounds of the vendor view cover the catalog once: for every
    identity, the first batch of [handleStartGeneration] followed by the
    batches of two presses of "generate more" is the whole ranking, so
    that every catalog style is requested exactly once, four per round;
    all twelve are then visible and a third press requests nothing. *)
Theorem vendor_rounds_cover_the_catalog (identity : CarIdentity) :
  let ranking := getPrioritizedStyles identity in
  let rounds := generate_more_rounds 3 VendorMode.INITIAL_BATCH_SIZE ranking in
  exists b1 b2,
    rounds = (12%nat, [b1; b2; []])
    /\ (VendorMode.initialConfigs ranking ++ b1 ++ b2)%list = ranking
    /\ (VendorMode.initialConfigs ranking ++ b1 ++ b2)%list ≡ₚ STYLE_CONFIGS
    /\ length (VendorMode.initialConfigs ranking) = 4%nat
    /\ length b1 = 4%nat /\ length b2 = 4%nat.
Proof.
  cbv zeta. unfold getPrioritizedStyles.
  generalize (categorizeVehicle identity). intros category.
  destruct category;
    (eexists; eexists; split; [vm_compute; reflexivity |];
     split; [vm_compute; reflexivity |];
     split; [apply (bool_decide_unpack _); vm_compute; exact I |];
     vm_compute; auto).
Qed.

(** ** Images sent to the server *)

Lemma available_data_url base64 :
  ApiImages.unavailable base64 = false ->
  Js.startsWith (or_empty base64) "data:" = true.
Proof.
  destruct base64 as [s |]; cbn; [| discriminate].
  intros H. apply orb_false_iff in H as [_ H].
  apply negb_false_iff in H. exact H.
Qed.

(** X23. An edit or a mockup posts at most one request, to its own path,
    and only ever with the compression of a data URL; and it resolves
    only after its request was posted: whatever the page and the server
    do, a call that posted nothing is rejected. *)
Theorem edits_and_mockups_post_data_urls_only (b : ApiImages.Browser)
    (imageInput : option string) (prompt carDetails : string)
    (options : ApiImages.MockupOptions) :
  let edit := ApiImages.tweakDesign b imageInput prompt carDetails in
  let mockup := ApiImages.generateMockup b imageInput options in
  ((length edit.2 <= 1)%nat
   /\ Forall (fun r => ApiImages.path r = "/api/edit" /\ carries_data_url b r)
        edit.2
   /\ (edit.2 = [] -> exists e, edit.1 = Throws e))
  /\ ((length mockup.2 <= 1)%nat
      /\ Forall (fun r => ApiImages.path r = "/api/mockup"
                          /\ carries_data_url b r) mockup.2
      /\ (mockup.2 = [] -> exists e, mockup.1 = Throws e)).
Proof.
  cbv zeta. unfold ApiImages.tweakDesign, ApiImages.generateMockup.
  destruct (ApiImages.blobUrlToBase64 b imageInput) as [base64 | e];
    [| cbn; repeat split; eauto].
  destruct (ApiImages.unavailable base64) eqn:Hu;
    [cbn; repeat split; eauto |].
  apply available_data_url in Hu.
  split.
  - destruct (ApiImages.post b _); cbn [fst snd length];
      (split; [lia |]; split; [| discriminate]);
      (apply Forall_cons; split; [| apply Forall_nil; exact I]);
      (split; [reflexivity |]); exists (or_empty base64); cbn; auto.
  - destruct (ApiImages.post b _); cbn [fst snd length];
      (split; [lia |]; split; [| discriminate]);
      (apply Forall_cons; split; [| apply Forall_nil; exact I]);
      (split; [reflexivity |]); exists (or_empty base64); cbn; auto.
Qed.

(** X24. A design that was stored cannot be edited or mocked up from the
    store: the image of a style whose design was a large data URL comes
    back from [saveEventSession]'s stripping as the empty string, and
    with it (as with null, or with any URL that is neither a blob URL
    nor a data URL) [tweakDesign] and [generateMockup] reject with their
    "unavailable" message without posting anything. *)
Theorem stripped_design_is_unavailable (b : ApiImages.Browser)
    (s : GeneratedStyle) (prompt carDetails : string)
    (options : ApiImages.MockupOptions) :
  isLargeDataUrl (imageUrl s) = true ->
  ApiImages.tweakDesign b (imageUrl (strip_style s)) prompt carDetails
  = (Throws (OtherError
               "Design image is unavailable — please go back and re-select the style"),
     [])
  /\ ApiImages.generateMockup b (imageUrl (strip_style s)) options
     = (Throws (OtherError
                  "Design image is unavailable — please go back and try selecting the style again"),
        [])
  /\ (forall url,
         ApiImages.falsy url = true
         \/ (Js.startsWith (or_empty url) "blob:" = false
             /\ Js.startsWith (or_empty url) "data:" = false) ->
         ApiImages.tweakDesign b url prompt carDetails
         = (Throws (OtherError
                      "Design image is unavailable — please go back and re-select the style"),
            [])
         /\ ApiImages.generateMockup b url options
            = (Throws (OtherError
                         "Design image is unavailable — please go back and try selecting the style again"),
               [])).
Proof.
  intros Hlarge. unfold strip_style. cbn [imageUrl]. rewrite Hlarge.
  split; [reflexivity |]. split; [reflexivity |].
  intros url Hurl.
  unfold ApiImages.tweakDesign, ApiImages.generateMockup,
    ApiImages.blobUrlToBase64.
  destruct url as [u |]; [| split; reflexivity].
  destruct Hurl as [Hf | [Hb Hd]].
  - rewrite Hf. cbn [orb]. unfold ApiImages.unavailable. rewrite Hf.
    split; reflexivity.
  - cbn [or_empty] in Hb, Hd. rewrite Hb. cbn [negb]. rewrite orb_true_r.
    unfold ApiImages.unavailable. rewrite Hd. cbn [negb].
    rewrite orb_true_r. split; reflexivity.
Qed.

Lemma stripped_design_is_unavailable_witness :
  ApiImages.tweakDesign working_browser (imageUrl generated_style)
    "more chrome" "{}"
  = (Normal generated_image,
     [ {| ApiImages.path := "/api/edit"; ApiImages.image := generated_image;
          ApiImages.fields := [("editPrompt", "more chrome");
                               ("resolution", "1K"); ("details", "{}")] |} ])
  /\ ApiImages.tweakDesign working_browser
       (imageUrl (strip_style generated_style)) "more chrome" "{}"
     = (Throws (OtherError
                  "Design image is unavailable — please go back and re-select the style"),
        []).
Proof.
  split; [vm_compute; reflexivity |].
  exact (proj1 (stripped_design_is_unavailable working_browser
                  generated_style "more chrome" "{}" no_options
                  ltac:(vm_compute; reflexivity))).
Defined.
